(** * FacePass: the biometric matching and liveness engine

    A shallow embedding of the engine of [face_processor_cv.py] (the
    OpenCV-only strategy), [face_processor.py] (the dlib strategy) and of
    the enrollment path of [main.py].

    Conventions of the embedding.
    - NumPy floating-point scalars are exact rationals ([Q]); rounding of
      float32/float64 is not represented.
    - A two-dimensional array is its shape together with its indexing
      function ([array2]); an image with three channels holds triples.
    - Python exceptions are the [Raise] constructor of [result]; a
      [try/except Exception] around statements that change an object in
      place is [try_except]: what was done before the exception stays done.
    - OpenCV, the transcendental NumPy functions and dlib are outside the
      repository: they enter through the record [Backend]. *)

From Stdlib Require Import String ZArith QArith Qabs Qminmax Qround List Bool Lia Lqa Sorted.
Import ListNotations.
Local Open Scope Z_scope.
Local Open Scope Q_scope.

(** ** Exceptions *)

Inductive exn : Type :=
| cv2_error
| ValueError
| IndexError
| KeyError
| AttributeError.

Inductive result (E A : Type) : Type :=
| Ok (a : A)
| Raise (e : E).
Arguments Ok {E A} a.
Arguments Raise {E A} e.

Definition bind {E A B : Type} (m : result E A) (k : A -> result E B) : result E B :=
  match m with
  | Ok a => k a
  | Raise e => Raise e
  end.

Notation "x <- m ;; k" := (bind m (fun x => k))
  (at level 61, m at next level, right associativity).
Notation "' p <- m ;; k" := (bind m (fun p => k))
  (at level 61, p pattern, m at next level, right associativity).

(** [try: body except Exception: handler] around a block that changes an
    object in place: the block may stop with an exception, and the handler
    starts from the object as the block left it. *)
Definition try_except {E S : Type} (body : S -> result E unit * S)
           (handler : E -> S -> result E S) (s : S) : result E S :=
  match body s with
  | (Ok _, s') => Ok s'
  | (Raise e, s') => handler e s'
  end.

(** ** Numbers *)

Definition Qlt_bool (x y : Q) : bool := negb (Qle_bool y x).

(** The constant [1e-7] added to every denominator. *)
Definition eps : Q := 0.0000001.

Definition Qsum (l : list Q) : Q := fold_right Qplus 0 l.

(** Stored in an array of dtype uint8. *)
Definition uint8 (z : Z) : Z := (z mod 256)%Z.

(** ** Arrays *)

Record array2 (A : Type) : Type := mk_array2 {
  rows : nat;
  cols : nat;
  at2 : nat -> nat -> A
}.
Arguments mk_array2 {A} _ _ _.
Arguments rows {A} _.
Arguments cols {A} _.
Arguments at2 {A} _ _ _.

Definition bgr : Type := (Z * Z * Z)%type.

Definition chan0 (p : bgr) : Z := fst (fst p).
Definition chan1 (p : bgr) : Z := snd (fst p).
Definition chan2 (p : bgr) : Z := snd p.

(** An image as the engine receives it: [len(image.shape) == 2] or [3]. *)
Inductive ndarray : Type :=
| Gray (a : array2 Z)
| Color (a : array2 bgr).

Definition is_empty {A : Type} (a : array2 A) : bool :=
  (rows a =? 0)%nat || (cols a =? 0)%nat.

(** [a.ravel()], row-major. *)
Definition ravel {A : Type} (a : array2 A) : list A :=
  flat_map (fun i => map (at2 a i) (seq 0 (cols a))) (seq 0 (rows a)).

Definition map2d {A B : Type} (f : A -> B) (a : array2 A) : array2 B :=
  mk_array2 (rows a) (cols a) (fun i j => f (at2 a i j)).

(** [ndarray.size] *)
Definition size (img : ndarray) : nat :=
  match img with
  | Gray a => rows a * cols a
  | Color a => rows a * cols a * 3
  end.

(** Python's normalisation of one bound of a slice [start:stop] over [n] items. *)
Definition slice_bound (n i : Z) : Z :=
  let i' := if (i <? 0)%Z then (i + n)%Z else i in
  Z.max 0 (Z.min n i').

(** [a[r0:r1, c0:c1]] *)
Definition slice2 {A : Type} (a : array2 A) (r0 r1 c0 c1 : Z) : array2 A :=
  let h := Z.of_nat (rows a) in
  let w := Z.of_nat (cols a) in
  let r0' := slice_bound h r0 in
  let r1' := slice_bound h r1 in
  let c0' := slice_bound w c0 in
  let c1' := slice_bound w c1 in
  mk_array2 (Z.to_nat (r1' - r0')) (Z.to_nat (c1' - c0'))
            (fun i j => at2 a (Z.to_nat r0' + i) (Z.to_nat c0' + j)).

(** ** config.py *)

Module config.
Definition FACE_RECOGNITION_TOLERANCE : Q := 0.5.
Definition SPOOF_DETECTION_ENABLED : bool := true.
Definition BLINK_THRESHOLD : Q := 0.25.
Definition LBP_THRESHOLD : Q := 0.4.
Definition MIN_BLINKS_FOR_LIVENESS : Z := 2.
Definition ENABLE_HISTOGRAM_EQUALIZATION : bool := true.
Definition ENABLE_CLAHE : bool := true.
Definition PUNCH_COOLDOWN_MINUTES : Z := 1.
End config.

(** ** The external libraries

    What OpenCV, NumPy's transcendental functions, SciPy and dlib compute.
    Shape-preserving image operations are given by the value they put at
    each position of their result, so that the result's shape is the one the
    library documents. *)

Definition location : Type := (Z * Z * Z * Z)%type.
Definition point : Type := (Q * Q)%type.
Definition landmarks : Type := list (string * list point).

Record Backend : Type := mk_Backend {
  (** [cv2.resize(src, (w, h))] at row [i], column [j] of the result *)
  resize_gray_px : array2 Z -> nat -> nat -> nat -> nat -> Z;
  resize_bgr_px : array2 bgr -> nat -> nat -> nat -> nat -> bgr;
  (** [cv2.cvtColor], one pixel *)
  bgr2gray_px : bgr -> Z;
  bgr2hsv_px : bgr -> bgr;
  bgr2lab_px : bgr -> bgr;
  lab2bgr_px : bgr -> bgr;
  (** [clahe.apply(src)] and [cv2.equalizeHist(src)] at a position *)
  clahe_px : array2 Z -> nat -> nat -> Z;
  equalizeHist_px : array2 Z -> nat -> nat -> Z;
  (** [cv2.Sobel(src, CV_32F, dx, dy, ksize=3)] at a position *)
  sobel_px : array2 Z -> nat -> nat -> nat -> nat -> Q;
  (** [cv2.Laplacian(src, CV_64F)] at a position *)
  laplacian_px : array2 Z -> nat -> nat -> Q;
  np_sqrt : Q -> Q;
  np_arctan2 : Q -> Q -> Q;
  np_log2 : Q -> Q;
  np_pi : Q;
  (** [a.tobytes()] of a float32 and of a float64 array *)
  tobytes32 : list Q -> list Byte.byte;
  tobytes64 : list Q -> list Byte.byte;
  (** the Haar cascade or DNN detector behind [detect_faces] *)
  detector : array2 bgr -> list location;
  (** [face_recognition.face_encodings], [face_landmarks] *)
  dlib_encodings : array2 bgr -> option location -> list (list Q);
  dlib_landmarks : array2 bgr -> option location -> list landmarks
}.

(** OpenCV stores the hue of an 8-bit image in [0, 180). *)
Definition hue_in_range (cv : Backend) : Prop :=
  forall p : bgr, (0 <= chan0 (bgr2hsv_px cv p) < 180)%Z.

Section OpenCV.
Context (cv : Backend).

(** [cv2.resize] refuses an empty source ([!ssize.empty()]). *)
Definition cv2_resize_gray (src : array2 Z) (h w : nat) : result exn (array2 Z) :=
  if is_empty src then Raise cv2_error
  else Ok (mk_array2 h w (fun i j => uint8 (resize_gray_px cv src h w i j))).

Definition cv2_resize_bgr (src : array2 bgr) (h w : nat) : result exn (array2 bgr) :=
  if is_empty src then Raise cv2_error
  else Ok (mk_array2 h w (resize_bgr_px cv src h w)).

(** [cv2.cvtColor] refuses an empty source ([!_src.empty()]). *)
Definition cvtColor_BGR2GRAY (src : array2 bgr) : result exn (array2 Z) :=
  if is_empty src then Raise cv2_error
  else Ok (map2d (fun p => uint8 (bgr2gray_px cv p)) src).

Definition cvtColor3 (f : bgr -> bgr) (src : array2 bgr) : result exn (array2 bgr) :=
  if is_empty src then Raise cv2_error
  else Ok (map2d f src).

Definition cvtColor_BGR2HSV := cvtColor3 (bgr2hsv_px cv).
Definition cvtColor_BGR2LAB := cvtColor3 (bgr2lab_px cv).
Definition cvtColor_LAB2BGR := cvtColor3 (lab2bgr_px cv).

Definition clahe_apply (src : array2 Z) : array2 Z :=
  mk_array2 (rows src) (cols src) (fun i j => uint8 (clahe_px cv src i j)).

Definition cv2_equalizeHist (src : array2 Z) : array2 Z :=
  mk_array2 (rows src) (cols src) (fun i j => uint8 (equalizeHist_px cv src i j)).

Definition cv2_Sobel (src : array2 Z) (dx dy : nat) : array2 Q :=
  mk_array2 (rows src) (cols src) (sobel_px cv src dx dy).

Definition cv2_Laplacian (src : array2 Z) : array2 Q :=
  mk_array2 (rows src) (cols src) (laplacian_px cv src).

(** [cv2.threshold(src, thresh, maxval, cv2.THRESH_BINARY)[1]] *)
Definition cv2_threshold (src : array2 Z) (thresh maxval : Z) : array2 Z :=
  map2d (fun v => if (thresh <? v)%Z then maxval else 0%Z) src.

(** *** LightingNormalizer.normalize *)

Definition equalize_policy (l : array2 Z) : array2 Z :=
  if config.ENABLE_CLAHE then clahe_apply l
  else if config.ENABLE_HISTOGRAM_EQUALIZATION then cv2_equalizeHist l
  else l.

Definition normalize_bgr (image : array2 bgr) : result exn (array2 bgr) :=
  lab <- cvtColor_BGR2LAB image ;;
  let l := map2d chan0 lab in
  let l := equalize_policy l in
  let lab := mk_array2 (rows lab) (cols lab)
               (fun i j => (at2 l i j, chan1 (at2 lab i j), chan2 (at2 lab i j))) in
  cvtColor_LAB2BGR lab.

Definition normalize (image : ndarray) : result exn ndarray :=
  match image with
  | Gray g => Ok (Gray (equalize_policy g))
  | Color c => n <- normalize_bgr c ;; Ok (Color n)
  end.

End OpenCV.

(** ** NumPy *)

(** The bin of [v] among [bins] equal-width bins over [[lo, hi]]: the last
    bin is closed on the right, values outside the range are dropped. *)
Definition bin_of (bins : nat) (lo hi v : Q) : option nat :=
  if Qle_bool lo v && Qle_bool v hi then
    if Qeq_bool v hi then Some (bins - 1)%nat
    else Some (Z.to_nat (Qfloor ((v - lo) * inject_Z (Z.of_nat bins) / (hi - lo))))
  else None.

Definition weight_in (b : nat) (kw : option nat * Q) : Q :=
  match fst kw with
  | Some k => if (k =? b)%nat then snd kw else 0
  | None => 0
  end.

(** [np.histogram(a, bins=bins, range=(lo, hi), weights=weights)[0]] *)
Definition np_histogram (a : list Q) (bins : nat) (lo hi : Q) (weights : option (list Q)) : list Q :=
  let w := match weights with
           | Some w => w
           | None => repeat 1 (length a)
           end in
  let binned := map (fun vw => (bin_of bins lo hi (fst vw), snd vw)) (combine a w) in
  map (fun b => Qsum (map (weight_in b) binned)) (seq 0 bins).

(** [hist /= (hist.sum() + 1e-7)] *)
Definition l1_normalize (hist : list Q) : list Q :=
  let s := Qsum hist in
  map (fun x => x / (s + eps)) hist.

Fixpoint map2 {A B C : Type} (f : A -> B -> C) (a : list A) (b : list B) : list C :=
  match a, b with
  | x :: a', y :: b' => f x y :: map2 f a' b'
  | _, _ => []
  end.

(** An elementwise binary operation on two one-dimensional arrays, with
    NumPy's broadcasting of a length-one operand; other shape mismatches
    raise [ValueError]. *)
Definition broadcast2 (f : Q -> Q -> Q) (a b : list Q) : result exn (list Q) :=
  if (length a =? length b)%nat then Ok (map2 f a b)
  else match a, b with
       | [x], _ => Ok (map (f x) b)
       | _, [y] => Ok (map (fun x => f x y) a)
       | _, _ => Raise ValueError
       end.

Definition np_minimum := broadcast2 Qmin.

(** [a.var()] *)
Definition np_var (a : list Q) : Q :=
  let n := inject_Z (Z.of_nat (length a)) in
  let mean := Qsum a / n in
  Qsum (map (fun x => (x - mean) * (x - mean)) a) / n.

(** [seq[i]] for a non-negative index *)
Definition index {A : Type} (l : list A) (i : nat) : result exn A :=
  match nth_error l i with
  | Some x => Ok x
  | None => Raise IndexError
  end.

Fixpoint chunks {A : Type} (k n : nat) (l : list A) : list (list A) :=
  match n with
  | O => []
  | S n' => firstn k l :: chunks k n' (skipn k l)
  end.

Definition le_bits (bs : list Byte.byte) : Z :=
  fold_right (fun b acc => (Z.of_N (Byte.to_N b) + 256 * acc)%Z) 0%Z bs.

(** The rational an IEEE-754 bit pattern with [ebits] exponent bits and
    [mbits] fraction bits denotes. Infinities and NaNs denote no rational;
    they read as 0 here. *)
Definition ieee_value (ebits mbits : Z) (bits : Z) : Q :=
  let m := (bits mod 2 ^ mbits)%Z in
  let e := ((bits / 2 ^ mbits) mod 2 ^ ebits)%Z in
  let s := ((bits / 2 ^ (mbits + ebits)) mod 2)%Z in
  let bias := (2 ^ (ebits - 1) - 1)%Z in
  let mag :=
    if (e =? 0)%Z then inject_Z m * Qpower 2 (1 - bias - mbits)
    else if (e =? 2 ^ ebits - 1)%Z then 0
    else inject_Z (2 ^ mbits + m) * Qpower 2 (e - bias - mbits) in
  if (s =? 1)%Z then - mag else mag.

Record dtype : Type := mk_dtype { itemsize : nat; decode : list Byte.byte -> Q }.

Definition float32 : dtype := mk_dtype 4 (fun bs => ieee_value 8 23 (le_bits bs)).
Definition float64 : dtype := mk_dtype 8 (fun bs => ieee_value 11 52 (le_bits bs)).

(** [np.frombuffer(buf, dtype=dt)]: [ValueError] unless the buffer size is
    a multiple of the element size. *)
Definition np_frombuffer (buf : list Byte.byte) (dt : dtype) : result exn (list Q) :=
  if (length buf mod itemsize dt =? 0)%nat
  then Ok (map (decode dt) (chunks (itemsize dt) (length buf / itemsize dt) buf))
  else Raise ValueError.

(** A [for] loop whose body may raise. *)
Fixpoint for_each {E S A : Type} (body : S -> A -> result E S) (l : list A) (s : S)
  : result E S :=
  match l with
  | [] => Ok s
  | x :: l' => s' <- body s x ;; for_each body l' s'
  end.

Definition enumerate {A : Type} (l : list A) : list (nat * A) :=
  combine (seq 0 (length l)) l.

(** ** SpoofDetector, the scorers both files share *)

Record LivenessResult : Type := mk_LivenessResult {
  texture_score : Q;
  reflection_score : Q;
  blur_score : option Q;
  ear : option Q;
  blink_count : option Z;
  confidence : Q;
  is_live : bool
}.

(** [(int(round(cos(2*pi*k/8))), int(round(sin(2*pi*k/8))))], k = 0..7:
    the neighbour offsets of [_calculate_lbp] at [radius=1, n_points=8]. *)
Definition circle8 : list (Z * Z) :=
  [(1, 0); (1, 1); (0, 1); (-1, 1); (-1, 0); (-1, -1); (0, -1); (1, -1)]%Z.

Definition interior {A : Type} (image : array2 A) (radius i j : nat) : bool :=
  (radius <=? i)%nat && (i + radius <? rows image)%nat &&
  (radius <=? j)%nat && (j + radius <? cols image)%nat.

Module SpoofDetectorLBP.
Definition lbp_at (image : array2 Z) (i j : nat) : Z :=
  let center := at2 image i j in
  fold_left
    (fun binary_string (kd : nat * (Z * Z)) =>
       let x := Z.to_nat (Z.of_nat i + fst (snd kd)) in
       let y := Z.to_nat (Z.of_nat j + snd (snd kd)) in
       if (center <=? at2 image x y)%Z
       then Z.lor binary_string (Z.shiftl 1 (Z.of_nat (fst kd)))
       else binary_string)
    (enumerate circle8) 0%Z.

Definition _calculate_lbp (image : array2 Z) : array2 Z :=
  mk_array2 (rows image) (cols image)
    (fun i j => if interior image 1 i j then uint8 (lbp_at image i j) else 0%Z).
End SpoofDetectorLBP.

Section Scorers.
Context (cv : Backend).

Definition to_gray (face_image : ndarray) : result exn (array2 Z) :=
  match face_image with
  | Color c => cvtColor_BGR2GRAY cv c
  | Gray g => Ok g
  end.

Definition analyze_texture_lbp (face_image : ndarray) : result exn Q :=
  gray <- to_gray face_image ;;
  gray <- cv2_resize_gray cv gray 128 128 ;;
  let lbp := SpoofDetectorLBP._calculate_lbp gray in
  let hist := np_histogram (map inject_Z (ravel lbp)) 256 0 256 None in
  let hist := l1_normalize hist in
  let entropy := - Qsum (map (fun h => h * np_log2 cv (h + eps)) hist) in
  Ok (Qmin (entropy / 8) 1).

Definition analyze_reflection (face_image : ndarray) : result exn Q :=
  gray <- to_gray face_image ;;
  let bright_mask := cv2_threshold gray 240 255 in
  let bright := filter (fun v => (0 <? v)%Z) (ravel bright_mask) in
  let bright_ratio :=
    inject_Z (Z.of_nat (length bright))
    / inject_Z (Z.of_nat (rows bright_mask * cols bright_mask)) in
  Ok (1 - Qmin (bright_ratio * 10) 1).

Definition analyze_blur (face_image : ndarray) : result exn Q :=
  gray <- to_gray face_image ;;
  let laplacian_var := np_var (ravel (cv2_Laplacian cv gray)) in
  Ok (Qmin (laplacian_var / 500) 1).

End Scorers.

Record MatchResult : Type := mk_MatchResult {
  user_id : Z;
  match_confidence : Q;
  distance : Q
}.

(** One of the dicts [load_known_faces] receives. [id] is [user['id']],
    [None] when the dict has no key ['id']; [face_encoding] is
    [user.get('face_encoding')], [None] when the key is missing or its
    value is [None]. *)
Record user_dict : Type := mk_user_dict {
  id : option Z;
  face_encoding : option (list Byte.byte)
}.

(** [user['id']] *)
Definition getitem_id (user : user_dict) : result exn Z :=
  match id user with
  | Some uid => Ok uid
  | None => Raise KeyError
  end.

(** The identity of a dict, if it has the key ['id']. *)
Definition id_if_any (user : user_dict) : list Z :=
  match id user with
  | Some uid => [uid]
  | None => []
  end.

(** The identities of the dicts that have the key ['id'], in order. *)
Definition ids_of (users : list user_dict) : list Z := flat_map id_if_any users.

(** Truth value of [user.get('face_encoding')]. *)
Definition truthy_bytes (b : option (list Byte.byte)) : option (list Byte.byte) :=
  match b with
  | Some (x :: l) => Some (x :: l)
  | _ => None
  end.

Definition zip2d {A B C : Type} (f : A -> B -> C) (a : array2 A) (b : array2 B) : array2 C :=
  mk_array2 (rows a) (cols a) (fun i j => f (at2 a i j) (at2 b i j)).

(** [extract_face_region], the same in both files; [int(height * 0.2)]
    truncates towards zero. *)
Definition extract_face_region {A : Type} (image : array2 A) (face_location : location)
  : array2 A :=
  let '(top, right_, bottom, left_) := face_location in
  let height := (bottom - top)%Z in
  let width := (right_ - left_)%Z in
  let margin_h := Z.quot height 5 in
  let margin_w := Z.quot width 5 in
  let top := Z.max 0 (top - margin_h) in
  let bottom := Z.min (Z.of_nat (rows image)) (bottom + margin_h) in
  let left_ := Z.max 0 (left_ - margin_w) in
  let right_ := Z.min (Z.of_nat (cols image)) (right_ + margin_w) in
  slice2 image top bottom left_ right_.

(** ** Drawing and the results of [process_frame] *)

(** cv2's drawing functions, as [draw_face_box] calls them. *)
Record Drawing : Type := mk_Drawing {
  (** [cv2.rectangle(img, pt1, pt2, color, thickness)] *)
  cv2_rectangle : array2 bgr -> Z * Z -> Z * Z -> bgr -> Z -> array2 bgr;
  (** [cv2.getTextSize(text, cv2.FONT_HERSHEY_SIMPLEX, 0.6, 1)[0]] *)
  cv2_getTextSize : string -> Z * Z;
  (** [cv2.putText(img, text, org, cv2.FONT_HERSHEY_SIMPLEX, 0.6, (0, 0, 0), 1)] *)
  cv2_putText : array2 bgr -> string -> Z * Z -> array2 bgr;
  (** [f" ({confidence:.1%})"] *)
  percent_label : Q -> string
}.

Definition cv2_FILLED : Z := (-1)%Z.

(** Truth value of a float. *)
Definition truthy_float (x : option Q) : option Q :=
  match x with
  | Some c => if Qeq_bool c 0 then None else Some c
  | None => None
  end.

(** Truth value of a string. *)
Definition truthy_str (s : option string) : option string :=
  match s with
  | Some EmptyString => None
  | other => other
  end.

(** [draw_face_box], the same in both files. *)
Definition draw_face_box (draw : Drawing) (image : array2 bgr) (face_location : location)
           (name : option string) (confidence : option Q) (color : bgr) : array2 bgr :=
  let '(top, right_, bottom, left_) := face_location in
  let image := cv2_rectangle draw image (left_, top) (right_, bottom) color 2 in
  match truthy_str name, truthy_float confidence with
  | None, None => image
  | name, confidence =>
      let label := match name with Some n => n | None => EmptyString end in
      let label := match confidence with
                   | Some c => (label ++ percent_label draw c)%string
                   | None => label
                   end in
      let label_size := cv2_getTextSize draw label in
      let image := cv2_rectangle draw image (left_, bottom - 25)%Z
                                 (left_ + fst label_size + 10, bottom)%Z color cv2_FILLED in
      cv2_putText draw image label (left_ + 5, bottom - 7)%Z
  end.

(** One entry of the ['faces'] list of [process_frame]. *)
Record FaceResult : Type := mk_FaceResult {
  face_box : location;
  face_user_id : option Z;
  face_name : option string;
  face_confidence : Q;
  face_spoof_result : option LivenessResult
}.

Record FrameResults : Type := mk_FrameResults {
  faces : list FaceResult;
  annotated_frame : array2 bgr
}.

Definition green : bgr := (0, 255, 0)%Z.
Definition red : bgr := (0, 0, 255)%Z.

(** ** face_processor_cv.py *)

Module face_processor_cv.

(** The result both early exits of [check_liveness] return. *)
Definition default_live : LivenessResult :=
  mk_LivenessResult 1 1 (Some 1) None None 1 true.

(** *** FaceProcessorCV._calculate_lbp *)

(** A NumPy boolean used as an integer. *)
Definition ge (x center : Z) : Z := if (center <=? x)%Z then 1%Z else 0%Z.

Definition lbp_code (image : array2 Z) (i j : nat) : Z :=
  let center := at2 image i j in
  let code := 0%Z in
  let code := Z.lor code (Z.shiftl (ge (at2 image (i - 1) (j - 1)) center) 7) in
  let code := Z.lor code (Z.shiftl (ge (at2 image (i - 1) j) center) 6) in
  let code := Z.lor code (Z.shiftl (ge (at2 image (i - 1) (j + 1)) center) 5) in
  let code := Z.lor code (Z.shiftl (ge (at2 image i (j + 1)) center) 4) in
  let code := Z.lor code (Z.shiftl (ge (at2 image (i + 1) (j + 1)) center) 3) in
  let code := Z.lor code (Z.shiftl (ge (at2 image (i + 1) j) center) 2) in
  let code := Z.lor code (Z.shiftl (ge (at2 image (i + 1) (j - 1)) center) 1) in
  let code := Z.lor code (Z.shiftl (ge (at2 image i (j - 1)) center) 0) in
  code.

(** The two nested [range(1, n - 1)] loops write each interior position
    once; the border keeps the zero of [np.zeros_like]. *)
Definition _calculate_lbp (image : array2 Z) : array2 Z :=
  mk_array2 (rows image) (cols image)
    (fun i j => if interior image 1 i j then uint8 (lbp_code image i j) else 0%Z).

Record FaceProcessorCV : Type := mk_FaceProcessorCV {
  known_face_features : list (list Q);
  known_face_ids : list Z
}.

Definition init : FaceProcessorCV := mk_FaceProcessorCV [] [].

Definition expected_size : nat := 132.

(** *** FaceProcessorCV.compare_faces *)
Definition compare_faces (known_features face_features : option (list Q))
  : result exn (bool * Q) :=
  match known_features, face_features with
  | Some known, Some face =>
      inter <- np_minimum known face ;;
      let intersection := Qsum inter in
      self_inter <- np_minimum known known ;;
      let max_intersection := Qsum self_inter in
      let similarity := intersection / (max_intersection + eps) in
      let is_match := Qle_bool config.FACE_RECOGNITION_TOLERANCE similarity in
      Ok (is_match, similarity)
  | _, _ => Ok (false, 0)
  end.

(** *** FaceProcessorCV.load_known_faces *)

(** The [try] block of the [for user in users] loop. The two [append]s
    change the object in place, one after the other: the block is a
    computation on the object that may stop with an exception, and what it
    did before stopping stays done. [user['id']] is looked up after the
    vector was appended (line 450); the message of the other branch looks
    it up as well. *)
Definition load_user_try (self : FaceProcessorCV) (user : user_dict)
           (buf : list Byte.byte) : result exn unit * FaceProcessorCV :=
  match np_frombuffer buf float32 with
  | Raise e => (Raise e, self)
  | Ok features =>
      if (length features =? expected_size)%nat
      then
        let self := mk_FaceProcessorCV (known_face_features self ++ [features])
                                       (known_face_ids self) in
        match getitem_id user with
        | Raise e => (Raise e, self)
        | Ok uid =>
            (Ok tt, mk_FaceProcessorCV (known_face_features self)
                                       (known_face_ids self ++ [uid]))
        end
      else
        match getitem_id user with
        | Raise e => (Raise e, self)
        | Ok _ => (Ok tt, self)
        end
  end.

(** The body of the loop: [except Exception as e] prints a message, with
    [user.get('id')], and the loop goes on. *)
Definition load_user (self : FaceProcessorCV) (user : user_dict)
  : result exn FaceProcessorCV :=
  match truthy_bytes (face_encoding user) with
  | Some buf =>
      try_except (fun self => load_user_try self user buf) (fun _ self => Ok self) self
  | None => Ok self
  end.

Definition load_known_faces (self : FaceProcessorCV) (users : list user_dict)
  : result exn FaceProcessorCV :=
  for_each load_user users (mk_FaceProcessorCV [] []).

Section WithBackend.
Context (cv : Backend).

(** *** SpoofDetector.check_liveness *)
Definition check_liveness (face_image : option ndarray) (face_landmarks : option landmarks)
  : result exn LivenessResult :=
  match face_image with
  | None => Ok default_live
  | Some face_image =>
      if (size face_image =? 0)%nat then Ok default_live
      else
        match (texture <- analyze_texture_lbp cv face_image ;;
               reflection <- analyze_reflection cv face_image ;;
               blur <- analyze_blur cv face_image ;;
               Ok (texture, reflection, blur)) with
        | Raise _ => Ok default_live
        | Ok (texture, reflection, blur) =>
            let confidence := texture * 0.4 + reflection * 0.3 + blur * 0.3 in
            Ok (mk_LivenessResult texture reflection (Some blur) None None
                  confidence (Qle_bool config.LBP_THRESHOLD confidence))
        end
  end.

(** *** FaceProcessorCV.detect_faces *)
Definition detect_faces (image : array2 bgr) : result exn (list location) :=
  normalized <- normalize_bgr cv image ;;
  gray <- cvtColor_BGR2GRAY cv normalized ;;
  Ok (detector cv normalized).

(** *** FaceProcessorCV.extract_face_features *)
Definition extract_face_features (image : array2 bgr) (face_location : location)
  : result exn (option (list Q)) :=
  let '(top, right_, bottom, left_) := face_location in
  let h := Z.of_nat (rows image) in
  let w := Z.of_nat (cols image) in
  let top := Z.max 0 (Z.min top (h - 1)) in
  let bottom := Z.max 0 (Z.min bottom h) in
  let left_ := Z.max 0 (Z.min left_ (w - 1)) in
  let right_ := Z.max 0 (Z.min right_ w) in
  if (bottom <=? top)%Z || (right_ <=? left_)%Z then Ok None
  else
    let face_region := slice2 image top bottom left_ right_ in
    if (size (Color face_region) =? 0)%nat
       || (rows face_region <? 10)%nat || (cols face_region <? 10)%nat
    then Ok None
    else
      face_resized <- cv2_resize_bgr cv face_region 100 100 ;;
      face_normalized <- normalize_bgr cv face_resized ;;
      gray <- cvtColor_BGR2GRAY cv face_normalized ;;
      hsv <- cvtColor_BGR2HSV cv face_normalized ;;
      let lbp := _calculate_lbp gray in
      let lbp_hist := np_histogram (map inject_Z (ravel lbp)) 64 0 256 None in
      let lbp_hist := l1_normalize lbp_hist in
      let gray_hist := np_histogram (map inject_Z (ravel gray)) 32 0 256 None in
      let gray_hist := l1_normalize gray_hist in
      let gx := cv2_Sobel cv gray 1 0 in
      let gy := cv2_Sobel cv gray 0 1 in
      let magnitude := zip2d (fun x y => np_sqrt cv (x * x + y * y)) gx gy in
      let angle := zip2d (fun y x => np_arctan2 cv y x * 180 / np_pi cv) gy gx in
      let angle := map2d (fun a => if Qlt_bool a 0 then a + 180 else a) angle in
      let hog_hist := np_histogram (ravel angle) 18 0 180 (Some (ravel magnitude)) in
      let hog_hist := l1_normalize hog_hist in
      let h_channel := map2d chan0 hsv in
      let color_hist := np_histogram (map inject_Z (ravel h_channel)) 18 0 180 None in
      let color_hist := l1_normalize color_hist in
      Ok (Some (lbp_hist ++ gray_hist ++ hog_hist ++ color_hist)).

(** *** FaceProcessorCV.encode_face *)
Definition encode_face (image : array2 bgr) (face_location : option location)
  : result exn (option (list Q)) :=
  match face_location with
  | None =>
      face_locations <- detect_faces image ;;
      match face_locations with
      | [] => Ok None
      | face_location :: _ => extract_face_features image face_location
      end
  | Some face_location => extract_face_features image face_location
  end.

(** *** FaceProcessorCV.identify_face *)

(** The body of the scan, on the pair
    [(best_match_index, best_similarity)]. *)
Definition scan (face_features : list Q) (best : Z * Q) (entry : nat * list Q)
  : result exn (Z * Q) :=
  '(_, similarity) <- compare_faces (Some (snd entry)) (Some face_features) ;;
  if Qlt_bool (snd best) similarity
  then Ok (Z.of_nat (fst entry), similarity)
  else Ok best.

Definition identify_face (self : FaceProcessorCV) (image : array2 bgr)
           (face_location : option location) : result exn (option MatchResult) :=
  match known_face_features self with
  | [] => Ok None
  | _ :: _ =>
      face_features <- encode_face image face_location ;;
      match face_features with
      | None => Ok None
      | Some face_features =>
          '(best_match_index, best_similarity) <-
             for_each (scan face_features) (enumerate (known_face_features self))
                      ((-1)%Z, 0) ;;
          if (0 <=? best_match_index)%Z
             && Qle_bool config.FACE_RECOGNITION_TOLERANCE best_similarity
          then
            uid <- index (known_face_ids self) (Z.to_nat best_match_index) ;;
            Ok (Some (mk_MatchResult uid best_similarity (1 - best_similarity)))
          else Ok None
      end
  end.

(** *** FaceProcessorCV.get_face_landmarks: the empty dict *)
Definition get_face_landmarks (image : array2 bgr) (face_location : option location)
  : result exn landmarks := Ok [].

End WithBackend.

(** *** FaceProcessorCV._detect_faces_haar *)

(** A rectangle [(x, y, w, h)] as [detectMultiScale] reports it. *)
Definition rect : Type := (Z * Z * Z * Z)%type.

(** [detectMultiScale] stands for the cascade with the arguments of the
    call: [scaleFactor=1.1, minNeighbors=5, minSize=(60, 60)]. *)
Definition _detect_faces_haar (detectMultiScale : array2 Z -> list rect) (gray : array2 Z)
  : list location :=
  fold_left
    (fun faces (r : rect) =>
       let '(x, y, w, h) := r in
       faces ++ [(y, (x + w)%Z, (y + h)%Z, x)])
    (detectMultiScale gray) [].

(** [box.astype(int)]: towards zero. *)
Definition astype_int (x : Q) : Z := if Qlt_bool x 0 then Qceiling x else Qfloor x.

Section Frames.
Context (cv : Backend) (draw : Drawing).

(** *** FaceProcessorCV._detect_faces_dnn *)

(** [forward] stands for [blobFromImage], [setInput] and [forward]; a
    detection is its confidence and the corners [(x1, y1, x2, y2)] of its
    box, as fractions of the frame. *)
Definition _detect_faces_dnn (forward : array2 bgr -> list (Q * (Q * Q * Q * Q)))
           (image : array2 bgr) : result exn (list location) :=
  let h := inject_Z (Z.of_nat (rows image)) in
  let w := inject_Z (Z.of_nat (cols image)) in
  resized <- cv2_resize_bgr cv image 300 300 ;;
  let detections := forward resized in
  Ok (fold_left
        (fun faces (detection : Q * (Q * Q * Q * Q)) =>
           let '(confidence, (x1, y1, x2, y2)) := detection in
           if Qlt_bool 0.5 confidence
           then
             let left_ := astype_int (x1 * w) in
             let top := astype_int (y1 * h) in
             let right_ := astype_int (x2 * w) in
             let bottom := astype_int (y2 * h) in
             faces ++ [(top, right_, bottom, left_)]
           else faces)
        detections []).

(** *** FaceProcessorCV.process_frame *)

(** The body of the loop over the detected faces, on the pair of the
    results so far and the annotated frame. *)
Definition process_face (self : FaceProcessorCV) (frame : array2 bgr)
           (perform_identification check_spoof : bool)
           (acc : list FaceResult * array2 bgr) (face_location : location)
  : result exn (list FaceResult * array2 bgr) :=
  spoof_result <-
    (if check_spoof && config.SPOOF_DETECTION_ENABLED
     then
       let face_region := extract_face_region frame face_location in
       if (0 <? size (Color face_region))%nat
       then r <- check_liveness cv (Some (Color face_region)) None ;; Ok (Some r)
       else Ok None
     else Ok None) ;;
  '(uid, confidence_) <-
    (if perform_identification
     then
       match_ <- identify_face cv self frame (Some face_location) ;;
       match match_ with
       | Some m => Ok (Some (user_id m), match_confidence m)
       | None => Ok (None, 0)
       end
     else Ok (None, 0)) ;;
  let face_result := mk_FaceResult face_location uid None confidence_ spoof_result in
  let color := match uid with
               | Some u => if (u =? 0)%Z then red else green
               | None => red
               end in
  let annotated := draw_face_box draw (snd acc) face_location (face_name face_result)
                                 (Some (face_confidence face_result)) color in
  Ok (fst acc ++ [face_result], annotated).

Definition process_frame (self : FaceProcessorCV) (frame : array2 bgr)
           (perform_identification check_spoof : bool) : result exn FrameResults :=
  let annotated := frame in
  face_locations <- detect_faces cv frame ;;
  '(faces, annotated) <-
    for_each (process_face self frame perform_identification check_spoof)
             face_locations ([], annotated) ;;
  Ok (mk_FrameResults faces annotated).

End Frames.

End face_processor_cv.

(** ** face_processor.py *)

(** [d.get(key)] on a dict kept as an association list. *)
Fixpoint dict_get {A : Type} (d : list (string * A)) (key : string) : option A :=
  match d with
  | [] => None
  | (k, v) :: d' => if String.eqb k key then Some v else dict_get d' key
  end.

Fixpoint argmin_from (l : list Q) (i best_i : nat) (best : Q) : nat :=
  match l with
  | [] => best_i
  | x :: l' =>
      if Qlt_bool x best then argmin_from l' (S i) i x
      else argmin_from l' (S i) best_i best
  end.

(** [np.argmin(a)]: the first position of the minimum. *)
Definition np_argmin (a : list Q) : nat :=
  match a with
  | [] => 0%nat
  | x :: l => argmin_from l 1 0 x
  end.

Module face_processor.

Record SpoofDetector : Type := mk_SpoofDetector {
  blink_counter : Z;
  blink_threshold : Q;
  eye_ar_consecutive_frames : Z;
  frame_counter : Z;
  previous_ear : option Q
}.

(** [SpoofDetector.__init__] *)
Definition new_SpoofDetector : SpoofDetector :=
  mk_SpoofDetector 0 config.BLINK_THRESHOLD 3 0 None.

(** [SpoofDetector.reset] *)
Definition reset (self : SpoofDetector) : SpoofDetector :=
  mk_SpoofDetector 0 (blink_threshold self) (eye_ar_consecutive_frames self) 0
                   (previous_ear self).

(** The part of [detect_blink] that follows the computation of [ear]:
    the counters' update and the returned pair. *)
Definition register_ear (self : SpoofDetector) (ear : Q) : (bool * Q) * SpoofDetector :=
  let '(blink_detected, blinks, frames) :=
    if Qlt_bool ear (blink_threshold self)
    then (false, blink_counter self, (frame_counter self + 1)%Z)
    else if (eye_ar_consecutive_frames self <=? frame_counter self)%Z
         then (true, (blink_counter self + 1)%Z, 0%Z)
         else (false, blink_counter self, 0%Z) in
  ((blink_detected, ear),
   mk_SpoofDetector blinks (blink_threshold self) (eye_ar_consecutive_frames self)
                    frames (Some ear)).

Record FaceProcessor : Type := mk_FaceProcessor {
  known_face_encodings : list (list Q);
  known_face_ids : list Z
}.

Definition init : FaceProcessor := mk_FaceProcessor [] [].

(** *** FaceProcessor.load_known_faces *)

(** The [try] block of the loop: the encoding is appended, then
    [user['id']] is looked up and appended (lines 399-400). The object is
    changed in place, so the first [append] stays done when the lookup
    raises [KeyError]. *)
Definition load_user_try (self : FaceProcessor) (user : user_dict) (buf : list Byte.byte)
  : result exn unit * FaceProcessor :=
  match np_frombuffer buf float64 with
  | Raise e => (Raise e, self)
  | Ok encoding =>
      if (length encoding =? 128)%nat
      then
        let self := mk_FaceProcessor (known_face_encodings self ++ [encoding])
                                     (known_face_ids self) in
        match getitem_id user with
        | Raise e => (Raise e, self)
        | Ok uid =>
            (Ok tt, mk_FaceProcessor (known_face_encodings self)
                                     (known_face_ids self ++ [uid]))
        end
      else (Ok tt, self)
  end.

(** The body of the loop: [except Exception as e] prints a message and
    the loop goes on. *)
Definition load_user (self : FaceProcessor) (user : user_dict) : result exn FaceProcessor :=
  match truthy_bytes (face_encoding user) with
  | Some buf =>
      try_except (fun self => load_user_try self user buf) (fun _ self => Ok self) self
  | None => Ok self
  end.

Definition load_known_faces (self : FaceProcessor) (users : list user_dict)
  : result exn FaceProcessor :=
  for_each load_user users (mk_FaceProcessor [] []).

Section WithBackend.
Context (cv : Backend).

(** [scipy.spatial.distance.euclidean] on two points *)
Definition euclidean (u v : point) : Q :=
  np_sqrt cv ((fst u - fst v) * (fst u - fst v) + (snd u - snd v) * (snd u - snd v)).

(** *** SpoofDetector.calculate_eye_aspect_ratio *)
Definition calculate_eye_aspect_ratio (eye_landmarks : list point) : result exn Q :=
  p1 <- index eye_landmarks 1 ;;
  p5 <- index eye_landmarks 5 ;;
  let A := euclidean p1 p5 in
  p2 <- index eye_landmarks 2 ;;
  p4 <- index eye_landmarks 4 ;;
  let B := euclidean p2 p4 in
  p0 <- index eye_landmarks 0 ;;
  p3 <- index eye_landmarks 3 ;;
  let C := euclidean p0 p3 in
  Ok (if Qlt_bool 0 C then (A + B) / (2 * C) else 0).

(** *** SpoofDetector.detect_blink *)
Definition detect_blink (self : SpoofDetector) (face_landmarks : landmarks)
  : result exn ((bool * Q) * SpoofDetector) :=
  match dict_get face_landmarks "left_eye", dict_get face_landmarks "right_eye" with
  | Some left_eye, Some right_eye =>
      left_ear <- calculate_eye_aspect_ratio left_eye ;;
      right_ear <- calculate_eye_aspect_ratio right_eye ;;
      let ear := (left_ear + right_ear) / 2 in
      Ok (register_ear self ear)
  | _, _ => Ok ((false, 0), self)
  end.

(** *** SpoofDetector.check_liveness *)
Definition check_liveness (self : SpoofDetector) (face_image : option ndarray)
           (face_landmarks : option landmarks)
  : result exn (LivenessResult * SpoofDetector) :=
  face_image <- match face_image with
                | Some a => Ok a
                | None => Raise AttributeError
                end ;;
  texture <- analyze_texture_lbp cv face_image ;;
  reflection <- analyze_reflection cv face_image ;;
  '(ear, blinks, self) <-
     match face_landmarks with
     | Some (entry :: more) =>
         '(_, ear, self) <- detect_blink self (entry :: more) ;;
         Ok (Some ear, Some (blink_counter self), self)
     | _ => Ok (None, None, self)
     end ;;
  let confidence := texture * 0.6 + reflection * 0.4 in
  Ok (mk_LivenessResult texture reflection None ear blinks confidence
        (Qle_bool config.LBP_THRESHOLD confidence),
      self).

Definition cvtColor_BGR2RGB : array2 bgr -> result exn (array2 bgr) :=
  cvtColor3 (fun p => (chan2 p, chan1 p, chan0 p)).

(** *** FaceProcessor.detect_faces: dlib's detector on the RGB image *)
Definition detect_faces (image : array2 bgr) : result exn (list location) :=
  normalized <- normalize_bgr cv image ;;
  rgb_image <- cvtColor_BGR2RGB normalized ;;
  Ok (detector cv rgb_image).

(** *** FaceProcessor.get_face_landmarks *)
Definition get_face_landmarks (image : array2 bgr) (face_location : option location)
  : result exn landmarks :=
  rgb_image <- cvtColor_BGR2RGB image ;;
  match dlib_landmarks cv rgb_image face_location with
  | first :: _ => Ok first
  | [] => Ok []
  end.

(** *** FaceProcessor.encode_face *)
Definition encode_face (image : array2 bgr) (face_location : option location)
  : result exn (option (list Q)) :=
  normalized <- normalize_bgr cv image ;;
  rgb_image <- cvtColor_BGR2RGB normalized ;;
  match dlib_encodings cv rgb_image face_location with
  | first :: _ => Ok (Some first)
  | [] => Ok None
  end.

(** [face_recognition.face_distance(face_encodings, face_to_compare)]:
    the Euclidean norm of each difference. *)
Definition face_distance (face_encodings : list (list Q)) (face_to_compare : list Q)
  : result exn (list Q) :=
  for_each
    (fun acc known =>
       diff <- broadcast2 Qminus known face_to_compare ;;
       Ok (acc ++ [np_sqrt cv (Qsum (map (fun d => d * d) diff))]))
    face_encodings [].

(** *** FaceProcessor.compare_faces *)
Definition compare_faces (known_encoding face_encoding : list Q) : result exn (bool * Q) :=
  distances <- face_distance [known_encoding] face_encoding ;;
  distance <- index distances 0 ;;
  let is_match := Qle_bool distance config.FACE_RECOGNITION_TOLERANCE in
  let confidence := Qmax 0 (1 - distance / config.FACE_RECOGNITION_TOLERANCE) in
  Ok (is_match, confidence).

(** *** FaceProcessor.identify_face *)
Definition identify_face (self : FaceProcessor) (image : array2 bgr)
           (face_location : option location) : result exn (option MatchResult) :=
  match known_face_encodings self with
  | [] => Ok None
  | _ :: _ =>
      face_encoding <- encode_face image face_location ;;
      match face_encoding with
      | None => Ok None
      | Some face_encoding =>
          distances <- face_distance (known_face_encodings self) face_encoding ;;
          if (length distances =? 0)%nat then Ok None
          else
            let best_match_index := np_argmin distances in
            best_distance <- index distances best_match_index ;;
            if Qle_bool best_distance config.FACE_RECOGNITION_TOLERANCE
            then
              let confidence :=
                Qmax 0 (1 - best_distance / config.FACE_RECOGNITION_TOLERANCE) in
              uid <- index (known_face_ids self) best_match_index ;;
              Ok (Some (mk_MatchResult uid confidence best_distance))
            else Ok None
      end
  end.

End WithBackend.
End face_processor.

(** ** The interface [main.py] programs against

    [main.py] imports [FaceProcessor] from [face_processor] and falls back
    on [face_processor_cv]; it uses the object through these methods only.
    [P] is the state of the object: the gallery and, for dlib, the blink
    counters of its [spoof_detector]. *)

Class FaceProcessorAPI (P : Type) : Type := {
  api_init : P;
  api_detect_faces : array2 bgr -> result exn (list location);
  api_get_face_landmarks : array2 bgr -> option location -> result exn landmarks;
  api_check_liveness : P -> option ndarray -> option landmarks -> result exn (LivenessResult * P);
  api_encode_face : array2 bgr -> option location -> result exn (option (list Q));
  api_identify_face : P -> array2 bgr -> option location -> result exn (option MatchResult);
  api_load_known_faces : P -> list user_dict -> result exn P;
  api_tobytes : list Q -> list Byte.byte;
  (** the identities of the gallery, [known_face_ids] *)
  api_gallery_ids : P -> list Z
}.

#[export] Instance cv_api (cv : Backend) : FaceProcessorAPI face_processor_cv.FaceProcessorCV := {
  api_init := face_processor_cv.init;
  api_detect_faces := face_processor_cv.detect_faces cv;
  api_get_face_landmarks := face_processor_cv.get_face_landmarks;
  api_check_liveness := fun self img lm =>
    r <- face_processor_cv.check_liveness cv img lm ;; Ok (r, self);
  api_encode_face := face_processor_cv.encode_face cv;
  api_identify_face := face_processor_cv.identify_face cv;
  api_load_known_faces := face_processor_cv.load_known_faces;
  api_tobytes := tobytes32 cv;
  api_gallery_ids := face_processor_cv.known_face_ids
}.

#[export] Instance dlib_api (cv : Backend)
  : FaceProcessorAPI (face_processor.FaceProcessor * face_processor.SpoofDetector) := {
  api_init := (face_processor.init, face_processor.new_SpoofDetector);
  api_detect_faces := face_processor.detect_faces cv;
  api_get_face_landmarks := face_processor.get_face_landmarks cv;
  api_check_liveness := fun self img lm =>
    '(r, sd) <- face_processor.check_liveness cv (snd self) img lm ;; Ok (r, (fst self, sd));
  api_encode_face := face_processor.encode_face cv;
  api_identify_face := fun self => face_processor.identify_face cv (fst self);
  api_load_known_faces := fun self users =>
    fp <- face_processor.load_known_faces (fst self) users ;; Ok (fp, snd self);
  api_tobytes := tobytes64 cv;
  api_gallery_ids := fun self => face_processor.known_face_ids (fst self)
}.

(** ** database.py and main.py *)

Module main.

Record User : Type := mk_User {
  User_id : Z;
  User_employee_id : string;
  User_name : string;
  User_email : option string;
  User_department : option string;
  User_face_encoding : option (list Byte.byte);
  User_is_active : bool
}.

(** The [users] table, in insertion order. *)
Definition table : Type := list User.

Module UserOperations.
Definition get_user_by_employee_id (db : table) (employee_id : string) : option User :=
  find (fun u => String.eqb (User_employee_id u) employee_id) db.

Definition get_user_by_id (db : table) (user_id : Z) : option User :=
  find (fun u => (User_id u =? user_id)%Z) db.

Definition get_user_by_email (db : table) (email : string) : option User :=
  find (fun u => match User_email u with
                 | Some e => String.eqb e email
                 | None => false
                 end) db.

Definition get_all_active_users (db : table) : list User :=
  filter User_is_active db.

(** The key the autoincrementing primary key gives the next row. *)
Definition next_id (db : table) : Z :=
  (1 + fold_right Z.max 0 (map User_id db))%Z.

Definition create_user (db : table) (employee_id name : string)
           (email department : option string) (face_encoding : option (list Byte.byte))
  : table * User :=
  let user := mk_User (next_id db) employee_id name email department face_encoding true in
  (db ++ [user], user).

Definition deactivate_user (db : table) (user_id : Z) : table :=
  match get_user_by_id db user_id with
  | Some _ =>
      map (fun u => if (User_id u =? user_id)%Z
                    then mk_User (User_id u) (User_employee_id u) (User_name u)
                           (User_email u) (User_department u) (User_face_encoding u) false
                    else u) db
  | None => db
  end.
End UserOperations.
Import UserOperations.

Inductive detail : Type :=
| EmployeeIdRegistered
| EmailRegistered
| InvalidImageFormat
| NoFaceDetected
| MultipleFacesDetected
| SpoofDetectionFailed (confidence : Q)
| NoFaceEncoding
| FaceAlreadyRegistered (name employee_id : string)
| InternalError (e : exn).

Record HTTPException : Type := mk_HTTPException {
  status_code : Z;
  http_detail : detail
}.

Record Request : Type := mk_Request {
  req_employee_id : string;
  req_name : string;
  req_email : option string;
  req_department : option string;
  (** [cv2.imdecode(..., cv2.IMREAD_COLOR)] of the upload: [None] when
      the bytes are no image *)
  req_image : option (array2 bgr)
}.

Record Response : Type := mk_Response {
  resp_user_id : Z;
  resp_spoof_confidence : Q
}.

Section App.
Context {P : Type} {api : FaceProcessorAPI P}.

(** The rows and the module-level [face_processor]. *)
Record App : Type := mk_App {
  app_db : table;
  app_fp : P
}.

(** A handler: it may raise an [HTTPException], and what it did to the
    state before raising stays done. *)
Definition M (A : Type) : Type := App -> result HTTPException A * App.

Definition ret {A : Type} (a : A) : M A := fun s => (Ok a, s).

Definition raise {A : Type} (status : Z) (d : detail) : M A :=
  fun s => (Raise (mk_HTTPException status d), s).

Definition mbind {A B : Type} (m : M A) (k : A -> M B) : M B :=
  fun s => match m s with
           | (Ok a, s') => k a s'
           | (Raise e, s') => (Raise e, s')
           end.

(** A call into the engine: [except Exception as e] turns what it
    raises into status 500. *)
Definition call {A : Type} (r : result exn A) : M A :=
  fun s => match r with
           | Ok a => (Ok a, s)
           | Raise e => (Raise (mk_HTTPException 500 (InternalError e)), s)
           end.

(** A call that updates [face_processor]. *)
Definition call_fp {A : Type} (f : P -> result exn (A * P)) : M A :=
  fun s => match f (app_fp s) with
           | Ok (a, p) => (Ok a, mk_App (app_db s) p)
           | Raise e => (Raise (mk_HTTPException 500 (InternalError e)), s)
           end.

Definition get_db : M table := fun s => (Ok (app_db s), s).
Definition get_fp : M P := fun s => (Ok (app_fp s), s).

(** *** main.load_known_faces *)
Definition user_data (db : table) : list user_dict :=
  map (fun u => mk_user_dict (Some (User_id u)) (User_face_encoding u))
      (filter (fun u => match truthy_bytes (User_face_encoding u) with
                        | Some _ => true
                        | None => false
                        end)
              (get_all_active_users db)).

Definition load_known_faces : M unit :=
  fun s => match api_load_known_faces (app_fp s) (user_data (app_db s)) with
           | Ok p => (Ok tt, mk_App (app_db s) p)
           | Raise e => (Raise (mk_HTTPException 500 (InternalError e)), s)
           end.

Notation "x <~ m ;; k" := (mbind m (fun x => k))
  (at level 61, m at next level, right associativity).

Definition truthy_string (s : option string) : option string :=
  match s with
  | Some EmptyString => None
  | other => other
  end.

(** *** register_user, up to the face encoding (lines 137-202) *)
Definition enrollment_probe (req : Request)
  : M (array2 bgr * location * LivenessResult * list Q) :=
  db <~ get_db ;;
  _ <~ match get_user_by_employee_id db (req_employee_id req) with
       | Some _ => raise 400 EmployeeIdRegistered
       | None => ret tt
       end ;;
  _ <~ match truthy_string (req_email req) with
       | Some email =>
           match get_user_by_email db email with
           | Some _ => raise 400 EmailRegistered
           | None => ret tt
           end
       | None => ret tt
       end ;;
  image <~ match req_image req with
           | Some image => ret image
           | None => raise 400 InvalidImageFormat
           end ;;
  face_locations <~ call (api_detect_faces image) ;;
  face_location <~ match face_locations with
                   | [] => raise 400 NoFaceDetected
                   | [face_location] => ret face_location
                   | _ :: _ :: _ => raise 400 MultipleFacesDetected
                   end ;;
  let face_region := extract_face_region image face_location in
  landmarks <~ call (api_get_face_landmarks image (Some face_location)) ;;
  spoof_result <~ call_fp (fun fp =>
                     api_check_liveness fp (Some (Color face_region)) (Some landmarks)) ;;
  _ <~ (if is_live spoof_result then ret tt
        else raise 400 (SpoofDetectionFailed (confidence spoof_result))) ;;
  encoding <~ call (api_encode_face image (Some face_location)) ;;
  match encoding with
  | Some encoding => ret (image, face_location, spoof_result, encoding)
  | None => raise 400 NoFaceEncoding
  end.

(** *** register_user, the duplicate check (lines 204-213) *)
Definition duplicate_guard (image : array2 bgr) (face_location : location) : M unit :=
  db <~ get_db ;;
  fp <~ get_fp ;;
  existing_match <~ call (api_identify_face fp image (Some face_location)) ;;
  match existing_match with
  | Some existing_match =>
      if Qle_bool 0.7 (match_confidence existing_match)
      then match get_user_by_id db (user_id existing_match) with
           | Some matched_user =>
               raise 400 (FaceAlreadyRegistered (User_name matched_user)
                                                (User_employee_id matched_user))
           | None => ret tt
           end
      else ret tt
  | None => ret tt
  end.

(** *** register_user, the insertion (lines 215-247) *)
Definition enroll (req : Request) (spoof_result : LivenessResult) (encoding : list Q)
  : M Response :=
  let encoding_bytes := api_tobytes encoding in
  user <~ (fun s =>
             let '(db', user) :=
               create_user (app_db s) (req_employee_id req) (req_name req) (req_email req)
                           (req_department req) (Some encoding_bytes) in
             (Ok user, mk_App db' (app_fp s))) ;;
  _ <~ load_known_faces ;;
  ret (mk_Response (User_id user) (confidence spoof_result)).

Definition register_user (req : Request) : M Response :=
  probe <~ enrollment_probe req ;;
  let '(image, face_location, spoof_result, encoding) := probe in
  _ <~ duplicate_guard image face_location ;;
  enroll req spoof_result encoding.

(** *** deactivate_user, the DELETE endpoint *)
Definition deactivate_user_endpoint (employee_id : string) : M unit :=
  db <~ get_db ;;
  match get_user_by_employee_id db employee_id with
  | None => raise 404 EmployeeIdRegistered
  | Some user =>
      _ <~ (fun s => (Ok tt, mk_App (deactivate_user (app_db s) (User_id user))
                                    (app_fp s))) ;;
      load_known_faces
  end.

(** Every identity of the gallery is a row of the table. *)
Definition synced (s : App) : Prop :=
  incl (api_gallery_ids (app_fp s)) (map User_id (app_db s)).

(** A handler step that leaves the table and the gallery identities
    as they are. *)
Definition quiet {A : Type} (m : M A) : Prop :=
  forall (s : App) (r : result HTTPException A) (s1 : App),
    m s = (r, s1) ->
    app_db s1 = app_db s
    /\ api_gallery_ids (app_fp s1) = api_gallery_ids (app_fp s).

End App.
Arguments App P : clear implicits.

End main.

(** What [main.py] relies on, whichever implementation it imported:
    the liveness check leaves the gallery alone, a match names an identity
    of the gallery, and a load keeps identities of the users it is given. *)
Class FaceProcessorLaws {P : Type} (api : FaceProcessorAPI P) : Prop := {
  check_liveness_keeps_gallery :
    forall (p p' : P) (img : option ndarray) (lm : option landmarks) (r : LivenessResult),
      api_check_liveness p img lm = Ok (r, p') -> api_gallery_ids p' = api_gallery_ids p;
  identify_in_gallery :
    forall (p : P) (image : array2 bgr) (loc : option location) (m : MatchResult),
      api_identify_face p image loc = Ok (Some m) -> In (user_id m) (api_gallery_ids p);
  load_keeps_given_ids :
    forall (p p' : P) (users : list user_dict),
      api_load_known_faces p users = Ok p' -> incl (api_gallery_ids p') (ids_of users)
}.

(** ** database.py: attendance records and the audit log *)

Module database.

(** A naive [datetime], counted in microseconds. *)
Definition datetime : Type := Z.

Definition day : Z := 86400000000.

(** [datetime(d.year, d.month, d.day)] for [d = t.date()] *)
Definition midnight (t : datetime) : datetime := (t / day * day)%Z.

(** [timedelta(minutes=m)] *)
Definition minutes (m : Z) : Z := (m * 60000000)%Z.

(** [d.seconds] of a [timedelta] [d] *)
Definition seconds (d : Z) : Z := (d mod day / 1000000)%Z.

Record AttendanceRecord : Type := mk_AttendanceRecord {
  record_id : Z;
  record_user_id : Z;
  record_date : datetime;
  punch_in_time : option datetime;
  punch_out_time : option datetime;
  confidence_score : option Q;
  spoof_check_passed : bool;
  notes : option string
}.

(** The text of an audit entry, with the numbers it formats kept as
    numbers. *)
Inductive details : Type :=
| SpoofFailedWith (confidence : Q)
| FaceNotRecognized
| ActionWith (action : string) (confidence : Q)
| UserDeactivated (name : string).

Record AuditLog : Type := mk_AuditLog {
  log_id : Z;
  log_timestamp : datetime;
  event_type : string;
  log_user_id : option Z;
  log_details : option details;
  ip_address : option string
}.

(** The three tables, in insertion order, and the number of times
    [datetime.now()] has been read so far. *)
Record Store : Type := mk_Store {
  users : main.table;
  attendance_records : list AttendanceRecord;
  audit_logs : list AuditLog;
  clock_reads : nat
}.

(** The key the next row of a table gets. *)
Definition next_key (keys : list Z) : Z := (1 + fold_right Z.max 0 keys)%Z.

(** [.order_by(AttendanceRecord.id.desc()).first()] *)
Fixpoint latest (l : list AttendanceRecord) : option AttendanceRecord :=
  match l with
  | [] => None
  | r :: l' =>
      match latest l' with
      | None => Some r
      | Some r' => if (record_id r' <? record_id r)%Z then Some r else Some r'
      end
  end.

(** [.order_by(AttendanceRecord.date.desc())], as an insertion sort. *)
Fixpoint insert_by_date (r : AttendanceRecord) (l : list AttendanceRecord)
  : list AttendanceRecord :=
  match l with
  | [] => [r]
  | r' :: l' =>
      if (record_date r' <? record_date r)%Z then r :: r' :: l'
      else r' :: insert_by_date r l'
  end.

Definition order_by_date_desc (l : list AttendanceRecord) : list AttendanceRecord :=
  fold_right insert_by_date [] l.

(** [.limit(n)]: SQLite reads a negative limit as no limit. *)
Definition limit {A : Type} (n : Z) (l : list A) : list A :=
  if (n <? 0)%Z then l else firstn (Z.to_nat n) l.

Section Clock.
(** The successive readings of [datetime.now()]. *)
Variable now_at : nat -> datetime.

Definition datetime_now (db : Store) : datetime * Store :=
  (now_at (clock_reads db),
   mk_Store (users db) (attendance_records db) (audit_logs db) (S (clock_reads db))).

(** *** AttendanceOperations *)

(** [punch_in_time] is read when the object is built, the default of
    [date] when the row is inserted. *)
Definition create_punch_in (db : Store) (user_id : Z) (confidence_score : Q)
           (spoof_check_passed : bool) : AttendanceRecord * Store :=
  let '(punch_in, db) := datetime_now db in
  let '(date, db) := datetime_now db in
  let record :=
    mk_AttendanceRecord (next_key (map record_id (attendance_records db))) user_id date
                        (Some punch_in) None (Some confidence_score) spoof_check_passed None in
  (record,
   mk_Store (users db) (attendance_records db ++ [record]) (audit_logs db) (clock_reads db)).

Definition create_punch_out (db : Store) (record_id_ : Z)
  : option AttendanceRecord * Store :=
  match find (fun r => (record_id r =? record_id_)%Z) (attendance_records db) with
  | Some record =>
      let '(punch_out, db) := datetime_now db in
      let closed :=
        mk_AttendanceRecord (record_id record) (record_user_id record) (record_date record)
                            (punch_in_time record) (Some punch_out) (confidence_score record)
                            (spoof_check_passed record) (notes record) in
      (Some closed,
       mk_Store (users db)
                (map (fun r => if (record_id r =? record_id record)%Z then closed else r)
                     (attendance_records db))
                (audit_logs db) (clock_reads db))
  | None => (None, db)
  end.

Definition get_today_record (db : Store) (user_id : Z) : option AttendanceRecord * Store :=
  let '(today, db) := datetime_now db in
  (latest (filter (fun r => (record_user_id r =? user_id)%Z
                            && (midnight today <=? record_date r)%Z)
                  (attendance_records db)),
   db).

Definition get_user_attendance_history (db : Store) (user_id : Z) (limit_ : Z)
  : list AttendanceRecord :=
  limit limit_
        (order_by_date_desc
           (filter (fun r => (record_user_id r =? user_id)%Z) (attendance_records db))).

(** *** AuditOperations *)
Definition log_event (db : Store) (event_type : string) (user_id : option Z)
           (details_ : option details) (ip_address : option string) : AuditLog * Store :=
  let '(timestamp, db) := datetime_now db in
  let log := mk_AuditLog (next_key (map log_id (audit_logs db))) timestamp event_type
                         user_id details_ ip_address in
  (log, mk_Store (users db) (attendance_records db) (audit_logs db ++ [log]) (clock_reads db)).

End Clock.
End database.

(** ** main.py: the attendance endpoints *)

Module api.
Import database main.UserOperations.

Inductive error : Type :=
| InvalidImageFormat
| UserNotFound
(** [str(e)] for an exception [e] of the engine *)
| EngineError (e : exn)
(** arithmetic on a [punch_in_time] that is [None] *)
| TypeError.

Record HTTPException : Type := mk_HTTPException {
  status_code : Z;
  detail : error
}.

Inductive message : Type :=
| NoFaceDetected
| SpoofDetectionFailed
| FaceNotRecognized
| UserNotFoundInDatabase
| PleaseWait (minutes : Z)
| Welcome (name : string)
| Goodbye (name : string) (hours minutes : Z)
| WelcomeBack (name : string).

Record AttendanceResponse : Type := mk_AttendanceResponse {
  success : bool;
  response_message : message;
  response_user_id : option Z;
  response_user_name : option string;
  response_action : option string;
  response_timestamp : option datetime;
  response_confidence : option Q
}.

Section Handlers.
Context {P : Type} {engine : FaceProcessorAPI P}.
Variable now_at : nat -> datetime.

(** The database and the module-level [face_processor]. *)
Record State : Type := mk_State {
  db : Store;
  face_processor : P
}.

(** A handler: what it did to the state before raising stays done. *)
Definition H (A : Type) : Type := State -> result HTTPException A * State.

Definition ret {A : Type} (a : A) : H A := fun s => (Ok a, s).

Definition raise {A : Type} (status : Z) (d : error) : H A :=
  fun s => (Raise (mk_HTTPException status d), s).

Definition hbind {A B : Type} (m : H A) (k : A -> H B) : H B :=
  fun s => match m s with
           | (Ok a, s') => k a s'
           | (Raise e, s') => (Raise e, s')
           end.

Notation "x <~ m ;; k" := (hbind m (fun x => k))
  (at level 61, m at next level, right associativity).

(** A call into the engine; what it raises becomes status 500, through
    [except Exception as e] where the handler has one and through the
    server where it has none. *)
Definition call {A : Type} (r : result exn A) : H A :=
  fun s => match r with
           | Ok a => (Ok a, s)
           | Raise e => (Raise (mk_HTTPException 500 (EngineError e)), s)
           end.

Definition call_fp {A : Type} (f : P -> result exn (A * P)) : H A :=
  fun s => match f (face_processor s) with
           | Ok (a, p) => (Ok a, mk_State (db s) p)
           | Raise e => (Raise (mk_HTTPException 500 (EngineError e)), s)
           end.

(** An operation of [database.py] on the session. *)
Definition with_db {A : Type} (f : Store -> A * Store) : H A :=
  fun s => let '(a, d) := f (db s) in (Ok a, mk_State d (face_processor s)).

Definition get_db : H Store := fun s => (Ok (db s), s).
Definition get_fp : H P := fun s => (Ok (face_processor s), s).

(** *** load_known_faces *)
Definition load_known_faces : H unit :=
  fun s => match api_load_known_faces (face_processor s) (main.user_data (users (db s))) with
           | Ok p => (Ok tt, mk_State (db s) p)
           | Raise e => (Raise (mk_HTTPException 500 (EngineError e)), s)
           end.

Definition failure (m : message) (name : option string) : AttendanceResponse :=
  mk_AttendanceResponse false m None name None None None.

(** *** identify_face, from the upload to the matched user (lines 264-318) *)
Definition recognize (upload : option (array2 bgr))
  : H (AttendanceResponse + main.User * MatchResult) :=
  image <~ match upload with
           | Some image => ret image
           | None => raise 400 InvalidImageFormat
           end ;;
  face_locations <~ call (api_detect_faces image) ;;
  match face_locations with
  | [] => ret (inl (failure NoFaceDetected None))
  | face_location :: _ =>
      let face_region := extract_face_region image face_location in
      landmarks <~ call (api_get_face_landmarks image (Some face_location)) ;;
      spoof_result <~ call_fp (fun p =>
                         api_check_liveness p (Some (Color face_region)) (Some landmarks)) ;;
      if negb (is_live spoof_result)
      then
        _ <~ with_db (fun d =>
                log_event now_at d "failed_spoof" None
                          (Some (SpoofFailedWith (confidence spoof_result))) None) ;;
        ret (inl (failure SpoofDetectionFailed None))
      else
        p <~ get_fp ;;
        match_ <~ call (api_identify_face p image (Some face_location)) ;;
        match match_ with
        | None =>
            _ <~ with_db (fun d =>
                    log_event now_at d "unrecognized" None (Some database.FaceNotRecognized)
                              None) ;;
            ret (inl (failure FaceNotRecognized None))
        | Some match_ =>
            d <~ get_db ;;
            match get_user_by_id (users d) (user_id match_) with
            | None => ret (inl (failure UserNotFoundInDatabase None))
            | Some user => ret (inr (user, match_))
            end
        end
  end.

(** *** identify_face, the punch (lines 320-381) *)
Definition punch (user : main.User) (match_ : MatchResult) : H AttendanceResponse :=
  let name := main.User_name user in
  today_record <~ with_db (fun d => get_today_record now_at d (main.User_id user)) ;;
  now <~ with_db (datetime_now now_at) ;;
  decided <~
    match today_record with
    | None =>
        _ <~ with_db (fun d => create_punch_in now_at d (main.User_id user)
                                               (match_confidence match_) true) ;;
        ret (inr ("punch_in"%string, Welcome name))
    | Some today_record =>
        match punch_out_time today_record with
        | None =>
            match punch_in_time today_record with
            | None => raise 500 TypeError
            | Some punched_in =>
                let time_since_punch_in := (now - punched_in)%Z in
                if (time_since_punch_in <? minutes config.PUNCH_COOLDOWN_MINUTES)%Z
                then ret (inl (failure (PleaseWait config.PUNCH_COOLDOWN_MINUTES)
                                       (Some name)))
                else
                  _ <~ with_db (fun d => create_punch_out now_at d (record_id today_record)) ;;
                  let work_duration := (now - punched_in)%Z in
                  let hours := (seconds work_duration / 3600)%Z in
                  let minutes := (seconds work_duration mod 3600 / 60)%Z in
                  ret (inr ("punch_out"%string, Goodbye name hours minutes))
            end
        | Some _ =>
            _ <~ with_db (fun d => create_punch_in now_at d (main.User_id user)
                                                   (match_confidence match_) true) ;;
            ret (inr ("punch_in"%string, WelcomeBack name))
        end
    end ;;
  match decided with
  | inl response => ret response
  | inr (action, message) =>
      _ <~ with_db (fun d =>
              log_event now_at d action (Some (main.User_id user))
                        (Some (ActionWith action (match_confidence match_))) None) ;;
      ret (mk_AttendanceResponse true message (Some (main.User_id user)) (Some name)
                                 (Some action) (Some now) (Some (match_confidence match_)))
  end.

Definition identify_face (upload : option (array2 bgr)) : H AttendanceResponse :=
  recognized <~ recognize upload ;;
  match recognized with
  | inl response => ret response
  | inr (user, match_) => punch user match_
  end.

(** *** get_users *)
Definition get_users : H (list main.User) :=
  d <~ get_db ;;
  ret (get_all_active_users (users d)).

(** *** deactivate_user *)
Definition deactivate_user (employee_id : string) : H string :=
  d <~ get_db ;;
  match get_user_by_employee_id (users d) employee_id with
  | None => raise 404 UserNotFound
  | Some user =>
      _ <~ with_db (fun d =>
              (tt, mk_Store (main.UserOperations.deactivate_user (users d) (main.User_id user))
                            (attendance_records d) (audit_logs d) (clock_reads d))) ;;
      _ <~ load_known_faces ;;
      _ <~ with_db (fun d =>
              log_event now_at d "deactivation" (Some (main.User_id user))
                        (Some (UserDeactivated (main.User_name user))) None) ;;
      ret (main.User_name user)
  end.

End Handlers.
Arguments State P : clear implicits.
Arguments H P A : clear implicits.

End api.

(** ** Vocabulary of the statements *)

(** [x] is within [1e-5] of 1. *)
Definition near_one (x : Q) : Prop := 1 - 0.00001 <= x /\ x <= 1 + 0.00001.

(** The crop of [face_location] in [image] after clamping: non-degenerate
    and at least 10 by 10. *)
Definition crop_survives (image : array2 bgr) (face_location : location) : bool :=
  let '(top, right_, bottom, left_) := face_location in
  let h := Z.of_nat (rows image) in
  let w := Z.of_nat (cols image) in
  let top := Z.max 0 (Z.min top (h - 1)) in
  let bottom := Z.max 0 (Z.min bottom h) in
  let left_ := Z.max 0 (Z.min left_ (w - 1)) in
  let right_ := Z.max 0 (Z.min right_ w) in
  (top <? bottom)%Z && (left_ <? right_)%Z
  && (10 <=? bottom - top)%Z && (10 <=? right_ - left_)%Z.

(** Histogram intersection of a probe with an enrolled vector, normalised
    by the enrolled vector's own mass. *)
Definition intersection_similarity (known probe : list Q) : Q :=
  Qsum (map2 Qmin known probe) / (Qsum known + eps).

(** The maximum of a list and the first position that holds it. *)
Fixpoint first_best (scores : list Q) : option (nat * Q) :=
  match scores with
  | [] => None
  | x :: rest =>
      match first_best rest with
      | None => Some (0%nat, x)
      | Some (j, y) => if Qlt_bool x y then Some (S j, y) else Some (0%nat, x)
      end
  end.

(** The Matcher of the handcrafted strategy, as the specification words it:
    full scan, best score, threshold, first entry on ties. *)
Definition matcher_spec (features : list (list Q)) (ids : list Z) (probe : option (list Q))
  : option MatchResult :=
  match probe with
  | None => None
  | Some probe =>
      match first_best (map (fun known => intersection_similarity known probe) features) with
      | None => None
      | Some (i, best) =>
          if Qle_bool config.FACE_RECOGNITION_TOLERANCE best
          then Some (mk_MatchResult (nth i ids 0%Z) best (1 - best))
          else None
      end
  end.

(** The gallery is well formed: one identity per vector, and vectors of
    the length the extractor produces. *)
Definition gallery_wf (self : face_processor_cv.FaceProcessorCV) : Prop :=
  Forall (fun known => length known = 132%nat) (face_processor_cv.known_face_features self)
  /\ length (face_processor_cv.known_face_features self)
     = length (face_processor_cv.known_face_ids self).

(** A stored entry deserialises, under [dt], to a vector of [n] numbers. *)
Definition loadable (dt : dtype) (n : nat) (user : user_dict) : bool :=
  match face_encoding user with
  | Some buf =>
      match np_frombuffer buf dt with
      | Ok v => (length v =? n)%nat
      | Raise _ => false
      end
  | None => false
  end.

Definition deserialized (dt : dtype) (user : user_dict) : list Q :=
  match face_encoding user with
  | Some buf =>
      match np_frombuffer buf dt with
      | Ok v => v
      | Raise _ => []
      end
  | None => []
  end.


(** Every dict has the key ['id'], as the rows [main.py] passes have. *)
Definition all_have_id (users : list user_dict) : Prop :=
  Forall (fun user => id user <> None) users.

(** Feeding a sequence of eye aspect ratios to the blink detector: the
    flags it returns, in order, and its final state. *)
Definition run_ears (self : face_processor.SpoofDetector) (ears : list Q)
  : list bool * face_processor.SpoofDetector :=
  fold_left
    (fun (acc : list bool * face_processor.SpoofDetector) ear =>
       let '(flag, _, self') := face_processor.register_ear (snd acc) ear in
       (fst acc ++ [flag], self'))
    ears ([], self).

Fixpoint leading (f : Q -> bool) (l : list Q) : nat :=
  match l with
  | x :: l' => if f x then S (leading f l') else 0%nat
  | [] => 0%nat
  end.

(** The number of frames below [threshold] that end [ears]. *)
Definition trailing_below (threshold : Q) (ears : list Q) : nat :=
  leading (fun e => Qlt_bool e threshold) (rev ears).

(** A blink is registered at a frame when the ratio is back at or above
    the threshold after at least [n] consecutive frames below it. *)
Definition blink_at (threshold : Q) (n : nat) (before : list Q) (ear : Q) : bool :=
  negb (Qlt_bool ear threshold) && (n <=? trailing_below threshold before)%nat.

Fixpoint blink_flags (threshold : Q) (n : nat) (before ears : list Q) : list bool :=
  match ears with
  | [] => []
  | ear :: rest =>
      blink_at threshold n before ear :: blink_flags threshold n (before ++ [ear]) rest
  end.

(** The number of blinks among the flags returned. *)
Definition blinks (flags : list bool) : nat := length (filter (fun b => b) flags).

(** ** A reference backend

    A small executable backend on which the engine can be run: nearest
    neighbour resampling, the usual 3x3 derivative kernels with mirrored
    borders, rational approximations of the transcendental functions. It
    serves to evaluate the engine on concrete frames. *)

Module Reference.

Definition nearest {A : Type} (src : array2 A) (h w i j : nat) : A :=
  at2 src (Z.to_nat (Z.of_nat i * Z.of_nat (rows src) / Z.of_nat h))
          (Z.to_nat (Z.of_nat j * Z.of_nat (cols src) / Z.of_nat w)).

Definition gray_px (p : bgr) : Z :=
  ((114 * chan0 p + 587 * chan1 p + 299 * chan2 p + 500) / 1000)%Z.

Definition hsv_px (p : bgr) : bgr :=
  let b := chan0 p in let g := chan1 p in let r := chan2 p in
  let v := Z.max b (Z.max g r) in
  let m := Z.min b (Z.min g r) in
  let d := (v - m)%Z in
  let h := if (d =? 0)%Z then 0%Z
           else if (v =? r)%Z then (60 * (g - b) / d)%Z
           else if (v =? g)%Z then (120 + 60 * (b - r) / d)%Z
           else (240 + 60 * (r - g) / d)%Z in
  let h := if (h <? 0)%Z then (h + 360)%Z else h in
  let s := if (v =? 0)%Z then 0%Z else (255 * d / v)%Z in
  (Z.max 0 (Z.min 179 (h / 2)), s, v)%Z.

(** Luma on the green channel, chroma as offsets from it. *)
Definition lab_px (p : bgr) : bgr :=
  (chan1 p, chan0 p - chan1 p + 128, chan2 p - chan1 p + 128)%Z.

Definition unlab_px (p : bgr) : bgr :=
  (chan1 p + chan0 p - 128, chan0 p, chan2 p + chan0 p - 128)%Z.

(** [BORDER_REFLECT_101] *)
Definition mirror (n : nat) (i : Z) : nat :=
  let n := Z.of_nat n in
  Z.to_nat (if (i <? 0)%Z then (- i)%Z
            else if (n <=? i)%Z then (2 * n - 2 - i)%Z
            else i).

Definition at_mirror (src : array2 Z) (i j : nat) (di dj : Z) : Z :=
  at2 src (mirror (rows src) (Z.of_nat i + di)) (mirror (cols src) (Z.of_nat j + dj)).

Definition sobel (src : array2 Z) (dx dy i j : nat) : Q :=
  let p := at_mirror src i j in
  match dx, dy with
  | 1%nat, 0%nat =>
      inject_Z ((p (-1) 1 + 2 * p 0 1 + p 1 1) - (p (-1) (-1) + 2 * p 0 (-1) + p 1 (-1)))%Z
  | 0%nat, 1%nat =>
      inject_Z ((p 1 (-1) + 2 * p 1 0 + p 1 1) - (p (-1) (-1) + 2 * p (-1) 0 + p (-1) 1))%Z
  | _, _ => 0
  end.

Definition laplacian (src : array2 Z) (i j : nat) : Q :=
  let p := at_mirror src i j in
  inject_Z (p (-1) 0 + p 1 0 + p 0 (-1) + p 0 1 - 4 * p 0 0)%Z.

(** Square root to three decimals. *)
Definition sqrt (x : Q) : Q :=
  Qred (inject_Z (Z.sqrt (Qfloor (x * 1000000))) / 1000).

Definition pi : Q := 355 # 113.

(** The angle of [(x, y)], linear in each quadrant. *)
Definition arctan2 (y x : Q) : Q :=
  if Qeq_bool x 0 && Qeq_bool y 0 then 0
  else
    let a := Qabs y / (Qabs x + Qabs y) * (pi / 2) in
    let a := if Qlt_bool x 0 then pi - a else a in
    Qred (if Qlt_bool y 0 then - a else a).

(** The integer part of the binary logarithm. *)
Definition log2 (x : Q) : Q :=
  if Qle_bool x 0 then - 1000
  else inject_Z (Z.log2 (Qfloor (x * inject_Z (2 ^ 40))) - 40).

Definition byte_of (z : Z) : Byte.byte :=
  match Byte.of_N (Z.to_N (z mod 256)) with
  | Some b => b
  | None => Byte.x00
  end.

Fixpoint le_bytes (n : nat) (z : Z) : list Byte.byte :=
  match n with
  | O => []
  | S n' => byte_of z :: le_bytes n' (z / 256)
  end.

(** The IEEE-754 pattern of [q], rounded towards zero; tiny values go
    to zero and huge ones to infinity. *)
Definition ieee_bits (ebits mbits : Z) (q : Q) : Z :=
  if Qeq_bool q 0 then 0%Z
  else
    let s := if Qlt_bool q 0 then 1%Z else 0%Z in
    let a := Qabs q in
    let e0 := (Z.log2 (Qnum a) - Z.log2 (Zpos (Qden a)))%Z in
    let e := if Qle_bool (Qpower 2 e0) a then e0 else (e0 - 1)%Z in
    let bias := (2 ^ (ebits - 1) - 1)%Z in
    let m := (Qfloor (a / Qpower 2 e * inject_Z (2 ^ mbits)) - 2 ^ mbits)%Z in
    let body := if (e + bias <=? 0)%Z then 0%Z
                else if (2 ^ ebits - 1 <=? e + bias)%Z then ((2 ^ ebits - 1) * 2 ^ mbits)%Z
                else ((e + bias) * 2 ^ mbits + m)%Z in
    (s * 2 ^ (ebits + mbits) + body)%Z.

Definition tobytes (ebits mbits : Z) (n : nat) (a : list Q) : list Byte.byte :=
  flat_map (fun q => le_bytes n (ieee_bits ebits mbits q)) a.

(** One face, the whole frame, when the frame is at least 60 by 60. *)
Definition detect (image : array2 bgr) : list location :=
  if (60 <=? rows image)%nat && (60 <=? cols image)%nat
  then [(0%Z, Z.of_nat (cols image), Z.of_nat (rows image), 0%Z)]
  else [].

(** An embedding read off the diagonal of the frame. *)
Definition encodings (image : array2 bgr) (face_location : option location)
  : list (list Q) :=
  if is_empty image then []
  else [map (fun k => inject_Z (chan0 (at2 image (k mod rows image) (k mod cols image))) / 255)
            (seq 0 128)].

Definition cv : Backend := {|
  resize_gray_px := nearest;
  resize_bgr_px := nearest;
  bgr2gray_px := gray_px;
  bgr2hsv_px := hsv_px;
  bgr2lab_px := lab_px;
  lab2bgr_px := unlab_px;
  clahe_px := fun src i j => at2 src i j;
  equalizeHist_px := fun src i j => at2 src i j;
  sobel_px := sobel;
  laplacian_px := laplacian;
  np_sqrt := sqrt;
  np_arctan2 := arctan2;
  np_log2 := log2;
  np_pi := pi;
  tobytes32 := tobytes 8 23 4;
  tobytes64 := tobytes 11 52 8;
  detector := detect;
  dlib_encodings := encodings;
  dlib_landmarks := fun _ _ => []
|}.

(** A uniformly grey frame. *)
Definition flat (h w : nat) (v : Z) : array2 bgr :=
  mk_array2 h w (fun _ _ => (v, v, v)).

(** A frame with a horizontal ramp of grey levels. *)
Definition ramp (h w : nat) : array2 bgr :=
  mk_array2 h w (fun _ j => let v := Z.of_nat (2 * j) in (v, v, v)).

Definition whole (image : array2 bgr) : location :=
  (0%Z, Z.of_nat (cols image), Z.of_nat (rows image), 0%Z).

End Reference.

(** What a binned weight contributes to the sum of a histogram of
    [bins] bins. *)
Definition counted (bins : nat) (kw : option nat * Q) : Q :=
  match fst kw with
  | Some k => if (k <? bins)%nat then snd kw else 0
  | None => 0
  end.

(** ** The stages of [extract_face_features] *)

(** The crop [image[top:bottom, left:right]] after the clamping of the
    four bounds. *)
Definition clamped_crop (image : array2 bgr) (face_location : location) : array2 bgr :=
  let '(top, right_, bottom, left_) := face_location in
  let h := Z.of_nat (rows image) in
  let w := Z.of_nat (cols image) in
  let top := Z.max 0 (Z.min top (h - 1)) in
  let bottom := Z.max 0 (Z.min bottom h) in
  let left_ := Z.max 0 (Z.min left_ (w - 1)) in
  let right_ := Z.max 0 (Z.min right_ w) in
  slice2 image top bottom left_ right_.

(** Resizing, lighting normalisation and the two colour conversions. *)
Definition prepare (cv : Backend) (face_region : array2 bgr)
  : result exn (array2 Z * array2 bgr) :=
  face_resized <- cv2_resize_bgr cv face_region 100 100 ;;
  face_normalized <- normalize_bgr cv face_resized ;;
  gray <- cvtColor_BGR2GRAY cv face_normalized ;;
  hsv <- cvtColor_BGR2HSV cv face_normalized ;;
  Ok (gray, hsv).

(** What [prepare] returns on a crop that is not empty. *)
Definition prepared_bgr (cv : Backend) (face_region : array2 bgr) : array2 bgr :=
  let face_resized := mk_array2 100 100 (resize_bgr_px cv face_region 100 100) in
  let lab := map2d (bgr2lab_px cv) face_resized in
  let l := equalize_policy cv (map2d chan0 lab) in
  let lab := mk_array2 (rows lab) (cols lab)
               (fun i j => (at2 l i j, chan1 (at2 lab i j), chan2 (at2 lab i j))) in
  map2d (lab2bgr_px cv) lab.

Definition prepared_gray (cv : Backend) (face_region : array2 bgr) : array2 Z :=
  map2d (fun p => uint8 (bgr2gray_px cv p)) (prepared_bgr cv face_region).

Definition prepared_hsv (cv : Backend) (face_region : array2 bgr) : array2 bgr :=
  map2d (bgr2hsv_px cv) (prepared_bgr cv face_region).

(** The four histograms before their normalisation. *)
Definition raw_lbp (gray : array2 Z) : list Q :=
  np_histogram (map inject_Z (ravel (face_processor_cv._calculate_lbp gray))) 64 0 256 None.

Definition raw_gray (gray : array2 Z) : list Q :=
  np_histogram (map inject_Z (ravel gray)) 32 0 256 None.

Definition gradient_magnitude (cv : Backend) (gray : array2 Z) : array2 Q :=
  zip2d (fun x y => np_sqrt cv (x * x + y * y)) (cv2_Sobel cv gray 1 0) (cv2_Sobel cv gray 0 1).

Definition gradient_angle (cv : Backend) (gray : array2 Z) : array2 Q :=
  map2d (fun a => if Qlt_bool a 0 then a + 180 else a)
        (zip2d (fun y x => np_arctan2 cv y x * 180 / np_pi cv)
               (cv2_Sobel cv gray 0 1) (cv2_Sobel cv gray 1 0)).

Definition raw_hog (cv : Backend) (gray : array2 Z) : list Q :=
  np_histogram (ravel (gradient_angle cv gray)) 18 0 180
               (Some (ravel (gradient_magnitude cv gray))).

Definition raw_hue (hsv : array2 bgr) : list Q :=
  np_histogram (map inject_Z (ravel (map2d chan0 hsv))) 18 0 180 None.

(** The descriptor [extract_face_features] returns for a crop that
    survives the size checks. *)
Definition descriptor (cv : Backend) (image : array2 bgr) (face_location : location)
  : list Q :=
  let gray := prepared_gray cv (clamped_crop image face_location) in
  let hsv := prepared_hsv cv (clamped_crop image face_location) in
  l1_normalize (raw_lbp gray) ++ l1_normalize (raw_gray gray)
  ++ l1_normalize (raw_hog cv gray) ++ l1_normalize (raw_hue hsv).


(** ** Sample data *)

(** A gallery of two enrolled vectors. *)
Definition two_faces : face_processor_cv.FaceProcessorCV :=
  face_processor_cv.mk_FaceProcessorCV [repeat (1 # 33) 132; repeat (1 # 66) 132] [7%Z; 9%Z].

(** A gallery that holds the descriptor of the ramp frame, cropped whole,
    under the identity 7. *)
Definition ramp_enrolled : face_processor_cv.FaceProcessorCV :=
  face_processor_cv.mk_FaceProcessorCV
    [descriptor Reference.cv (Reference.ramp 80 80) (Reference.whole (Reference.ramp 80 80))]
    [7%Z].

(** The match of the ramp frame with that gallery. *)
Definition ramp_match : MatchResult :=
  let own := descriptor Reference.cv (Reference.ramp 80 80)
                        (Reference.whole (Reference.ramp 80 80)) in
  let s := intersection_similarity own own in
  mk_MatchResult 7 s (1 - s).

(** A returned match has its confidence in [0, 1]. *)
Definition confidence_in_unit_interval (r : result exn (option MatchResult)) : Prop :=
  match r with
  | Ok (Some m) => 0 <= match_confidence m /\ match_confidence m <= 1
  | _ => True
  end.

(** One stored user whose buffer holds 132 float32 zeros, one whose buffer
    is three bytes long. *)
Definition two_users : list user_dict :=
  [mk_user_dict (Some 1%Z) (Some (repeat Byte.x00 528));
   mk_user_dict (Some 2%Z) (Some (repeat Byte.x00 3))].

(** The gallery loaded from them. *)
Definition loaded_gallery : face_processor_cv.FaceProcessorCV :=
  face_processor_cv.mk_FaceProcessorCV
    (map (deserialized float32) (filter (loadable float32 132) two_users))
    (ids_of (filter (loadable float32 132) two_users)).


(** Stored users whose first dict lacks the key ['id']: under the
    OpenCV-only engine (132 float32 zeros each) and under the dlib engine
    (128 float64 zeros each). *)
Definition anonymous_users : list user_dict :=
  [mk_user_dict None (Some (repeat Byte.x00 528));
   mk_user_dict (Some 2%Z) (Some (repeat Byte.x00 528))].

Definition anonymous_embedding : user_dict :=
  mk_user_dict None (Some (repeat Byte.x00 1024)).

Definition anonymous_embeddings : list user_dict :=
  [anonymous_embedding; mk_user_dict (Some 2%Z) (Some (repeat Byte.x00 1024))].

(** A test double of the interface: one face per frame, always live, a
    fixed encoding, and a confident match with the first enrolled identity. *)
Definition double_api : FaceProcessorAPI (list Z) := {|
  api_init := [];
  api_detect_faces := fun image => Ok [Reference.whole image];
  api_get_face_landmarks := fun _ _ => Ok [];
  api_check_liveness := fun p _ _ => Ok (face_processor_cv.default_live, p);
  api_encode_face := fun _ _ => Ok (Some (repeat (1 # 33) 132));
  api_identify_face := fun p _ _ =>
    match p with
    | [] => Ok None
    | uid :: _ => Ok (Some (mk_MatchResult uid 0.9 0.1))
    end;
  api_load_known_faces := fun _ users => Ok (ids_of users);
  api_tobytes := fun _ => [];
  api_gallery_ids := fun p => p
|}.

(** One enrolled employee, and a second person who asks to enroll. *)
Definition ann : main.User :=
  main.mk_User 1 "E1" "Ann" None None (Some [Byte.x00]) true.

Definition one_employee : main.App (list Z) := main.mk_App [ann] [1%Z].

Definition newcomer : main.Request :=
  main.mk_Request "E2" "Bob" None None (Some (Reference.flat 80 80 128)).

(** ** Vocabulary of the further statements *)

(** The window of [image] with [h] rows and [w] columns whose first pixel
    is at row [r0], column [c0]. *)
Definition window {A : Type} (image : array2 A) (r0 c0 h w : nat) : array2 A :=
  mk_array2 h w (fun i j => at2 image (r0 + i) (c0 + j)).

(** The rectangle lies in the frame and is at least 10 by 10. *)
Definition inside_frame {A : Type} (image : array2 A) (r : face_processor_cv.rect) : Prop :=
  let '(x, y, w, h) := r in
  (0 <= x)%Z /\ (0 <= y)%Z /\ (10 <= w)%Z /\ (10 <= h)%Z
  /\ (x + w <= Z.of_nat (cols image))%Z /\ (y + h <= Z.of_nat (rows image))%Z.

(** The eight neighbours of [(i, j)], in the order of the bits
    [FaceProcessorCV._calculate_lbp] gives them, bit 0 first. *)
Definition neighbours (image : array2 Z) (i j : nat) : list Z :=
  [at2 image i (j - 1); at2 image (i + 1) (j - 1); at2 image (i + 1) j;
   at2 image (i + 1) (j + 1); at2 image i (j + 1); at2 image (i - 1) (j + 1);
   at2 image (i - 1) j; at2 image (i - 1) (j - 1)].

(** An 8-bit value rotated left by [n] positions. *)
Definition rotl8 (n x : Z) : Z := ((x * 2 ^ n) mod 256 + x / 2 ^ (8 - n))%Z.

(** The number of pixels brighter than 240. *)
Definition bright_pixels (gray : array2 Z) : nat :=
  length (filter (fun v => (240 <? v)%Z) (ravel gray)).

(** The states a blink detector goes through: built by [__init__], fed
    eye aspect ratios by [detect_blink], cleared by [reset]. *)
Inductive reachable_detector : face_processor.SpoofDetector -> Prop :=
| reachable_detector_new : reachable_detector face_processor.new_SpoofDetector
| reachable_detector_ear : forall self ear,
    reachable_detector self ->
    reachable_detector (snd (face_processor.register_ear self ear))
| reachable_detector_reset : forall self,
    reachable_detector self -> reachable_detector (face_processor.reset self).

(** What [FaceProcessor.identify_face] returns, read against the
    distances of the probe to the gallery: the nearest encoding, the first
    one among equally near ones, when it is within the tolerance. *)
Definition nearest_outcome (cv : Backend) (self : face_processor.FaceProcessor)
           (image : array2 bgr) (face_location : option location)
           (r : result exn (option MatchResult)) : Prop :=
  let gallery := face_processor.known_face_encodings self in
  let probe := face_processor.encode_face cv image face_location in
  match r with
  | Ok (Some m) =>
      exists (f : list Q) (ds : list Q) (i : nat),
        probe = Ok (Some f)
        /\ face_processor.face_distance cv gallery f = Ok ds
        /\ nth_error ds i = Some (distance m)
        /\ nth_error (face_processor.known_face_ids self) i = Some (user_id m)
        /\ (forall d, In d ds -> distance m <= d)
        /\ (forall k d, (k < i)%nat -> nth_error ds k = Some d -> distance m < d)
        /\ distance m <= config.FACE_RECOGNITION_TOLERANCE
        /\ match_confidence m
           = Qmax 0 (1 - distance m / config.FACE_RECOGNITION_TOLERANCE)
  | Ok None =>
      gallery = []
      \/ probe = Ok None
      \/ exists (f : list Q) (ds : list Q),
          probe = Ok (Some f)
          /\ face_processor.face_distance cv gallery f = Ok ds
          /\ (forall d, In d ds -> config.FACE_RECOGNITION_TOLERANCE < d)
  | Raise e =>
      gallery <> []
      /\ (probe = Raise e
          \/ exists f, probe = Ok (Some f)
                       /\ face_processor.face_distance cv gallery f = Raise e)
  end.


(** The entry [process_frame] makes for the face at [face_location]: the
    liveness result of its region when that is asked for and the region is
    not empty, the identity and confidence of its match when that is asked
    for and there is one, and never a name. *)
Definition face_processed (cv : Backend) (self : face_processor_cv.FaceProcessorCV)
           (frame : array2 bgr) (perform_identification check_spoof : bool)
           (face_location : location) (face : FaceResult) : Prop :=
  let face_region := Color (extract_face_region frame face_location) in
  face_box face = face_location
  /\ face_name face = None
  /\ (if check_spoof && (0 <? size face_region)%nat
      then exists r, face_processor_cv.check_liveness cv (Some face_region) None = Ok r
                     /\ face_spoof_result face = Some r
      else face_spoof_result face = None)
  /\ (if perform_identification
      then match face_processor_cv.identify_face cv self frame (Some face_location) with
           | Ok (Some m) =>
               face_user_id face = Some (user_id m)
               /\ face_confidence face = match_confidence m
           | _ => face_user_id face = None /\ face_confidence face = 0
           end
      else face_user_id face = None /\ face_confidence face = 0).

(** A detection of the network whose corners are fractions of the frame,
    the first corner above and left of the second. *)
Definition normalised (detection : Q * (Q * Q * Q * Q)) : Prop :=
  let '(_, (x1, y1, x2, y2)) := detection in
  0 <= x1 /\ x1 <= x2 /\ x2 <= 1 /\ 0 <= y1 /\ y1 <= y2 /\ y2 <= 1.

(** The box [_detect_faces_dnn] makes of a detection in a frame of [h]
    rows and [w] columns. *)
Definition dnn_box (h w : nat) (detection : Q * (Q * Q * Q * Q)) : location :=
  let '(_, (x1, y1, x2, y2)) := detection in
  (face_processor_cv.astype_int (y1 * inject_Z (Z.of_nat h)), face_processor_cv.astype_int (x2 * inject_Z (Z.of_nat w)),
   face_processor_cv.astype_int (y2 * inject_Z (Z.of_nat h)), face_processor_cv.astype_int (x1 * inject_Z (Z.of_nat w))).

(** [r] with its punch-out time set to [t]. *)
Definition closed_at (t : database.datetime) (r : database.AttendanceRecord)
  : database.AttendanceRecord :=
  database.mk_AttendanceRecord
    (database.record_id r) (database.record_user_id r) (database.record_date r)
    (database.punch_in_time r) (Some t) (database.confidence_score r)
    (database.spoof_check_passed r) (database.notes r).

(** What a punch for [user] did: the response names the user, and either
    one open record of the user was appended or one open record of the
    user, punched in at least the cooldown before, was closed. *)
Definition punched_for {P : Type} (user : main.User) (s s' : api.State P)
           (resp : api.AttendanceResponse) : Prop :=
  let before := database.attendance_records (api.db s) in
  let after := database.attendance_records (api.db s') in
  api.response_user_id resp = Some (main.User_id user)
  /\ api.response_user_name resp = Some (main.User_name user)
  /\ exists now : database.datetime,
      api.response_timestamp resp = Some now
      /\ ((api.response_action resp = Some "punch_in"%string
           /\ exists (r : database.AttendanceRecord) (t : database.datetime),
               after = before ++ [r]
               /\ database.record_user_id r = main.User_id user
               /\ database.punch_in_time r = Some t
               /\ database.punch_out_time r = None
               /\ database.confidence_score r = api.response_confidence resp
               /\ ~ In (database.record_id r) (map database.record_id before))
          \/ (api.response_action resp = Some "punch_out"%string
              /\ exists (r : database.AttendanceRecord) (t_in t_out : database.datetime),
                  In r before
                  /\ database.record_user_id r = main.User_id user
                  /\ database.punch_in_time r = Some t_in
                  /\ database.punch_out_time r = None
                  /\ (database.minutes config.PUNCH_COOLDOWN_MINUTES <= now - t_in)%Z
                  /\ after = map (fun x => if (database.record_id x =? database.record_id r)%Z
                                           then closed_at t_out r else x) before)).

(** What a successful [identify_face] did: a punch for a user of the
    table. *)
Definition punched_once {P : Type} (s s' : api.State P) (resp : api.AttendanceResponse)
  : Prop :=
  exists user : main.User,
    main.UserOperations.get_user_by_id (database.users (api.db s)) (main.User_id user)
    = Some user
    /\ punched_for user s s' resp.

(** A clock that never goes back. *)
Definition monotone_clock (now_at : nat -> database.datetime) : Prop :=
  forall n : nat, (now_at n <= now_at (S n))%Z.

(** The attendance table is well formed at the next reading of the clock:
    record identifiers are distinct, every record has a punch-in time,
    every closed record lasted at least the cooldown, and a record that is
    still open and dated today is the most recent record of its user. *)
Definition attendance_wf (now_at : nat -> database.datetime) (d : database.Store) : Prop :=
  let records := database.attendance_records d in
  NoDup (map database.record_id records)
  /\ (forall r, In r records -> database.punch_in_time r <> None)
  /\ (forall r t_in t_out,
         In r records ->
         database.punch_in_time r = Some t_in -> database.punch_out_time r = Some t_out ->
         (database.minutes config.PUNCH_COOLDOWN_MINUTES <= t_out - t_in)%Z)
  /\ (forall r r',
         In r records -> database.punch_out_time r = None ->
         (database.midnight (now_at (database.clock_reads d)) <= database.record_date r)%Z ->
         In r' records -> database.record_user_id r' = database.record_user_id r ->
         (database.record_id r' <= database.record_id r)%Z).

(** User identifiers are distinct, and every identity of the gallery is
    an active user of the table. *)
Definition gallery_active {P : Type} {engine : FaceProcessorAPI P} (s : api.State P) : Prop :=
  NoDup (map main.User_id (database.users (api.db s)))
  /\ forall uid : Z,
      In uid (api_gallery_ids (api.face_processor s)) ->
      exists u : main.User,
        In u (database.users (api.db s))
        /\ main.User_id u = uid /\ main.User_is_active u = true.

(** The rows whose encoding [load_known_faces] keeps: active users with a
    stored encoding of [n] bytes. *)
Definition eligible (n : nat) (u : main.User) : bool :=
  main.User_is_active u
  && match main.User_face_encoding u with
     | Some buf => (length buf =? n)%nat
     | None => false
     end.

(** The dict [main.load_known_faces] builds of a row. *)
Definition as_dict (u : main.User) : user_dict :=
  mk_user_dict (Some (main.User_id u)) (main.User_face_encoding u).


(** ** More sample data *)

(** Two enrolled embeddings. *)
Definition two_embeddings : face_processor.FaceProcessor :=
  face_processor.mk_FaceProcessor [repeat 0 128; repeat (1 # 2) 128] [7%Z; 9%Z].

(** A clock read every ten seconds. *)
Definition every_ten_seconds : nat -> database.datetime :=
  fun n => (Z.of_nat n * 10000000)%Z.

(** One enrolled employee in the gallery of the test double, no attendance
    yet. *)
Definition office : api.State (list Z) :=
  api.mk_State (database.mk_Store [ann] [] [] 0) [1%Z].

(** The office after Ann has punched in. *)
Definition office_after_punch_in : api.State (list Z) :=
  snd (@api.identify_face (list Z) double_api every_ten_seconds
         (Some (Reference.flat 80 80 128)) office).

(** The response to Ann's punch-in. *)
Definition welcome_ann : api.AttendanceResponse :=
  api.mk_AttendanceResponse true (api.Welcome "Ann") (Some 1%Z) (Some "Ann"%string)
                            (Some "punch_in"%string) (Some 10000000%Z) (Some 0.9).

(** A table of one employee and an empty gallery. *)
Definition unloaded : main.App (list Z) := main.mk_App [ann] [].

(** * Proofs *)

(** ** Comparisons *)

Lemma Qlt_bool_iff (x y : Q) : Qlt_bool x y = true <-> x < y.
Proof.
  unfold Qlt_bool. rewrite negb_true_iff.
  split; intro H.
  - apply Qnot_le_lt. intro Hle. apply Qle_bool_iff in Hle. congruence.
  - destruct (Qle_bool y x) eqn:E; [|reflexivity].
    apply Qle_bool_iff in E. exfalso. apply (Qlt_not_le _ _ H E).
Qed.

Lemma Qlt_bool_false (x y : Q) : Qlt_bool x y = false <-> y <= x.
Proof.
  unfold Qlt_bool. rewrite negb_false_iff. apply Qle_bool_iff.
Qed.

Lemma Qle_bool_false (x y : Q) : Qle_bool x y = false <-> y < x.
Proof.
  rewrite <- Qlt_bool_iff. unfold Qlt_bool.
  destruct (Qle_bool x y); simpl; intuition congruence.
Qed.

(** ** The blink detector *)

Lemma run_ears_snoc (self : face_processor.SpoofDetector) (ears : list Q) (e : Q) :
  run_ears self (ears ++ [e]) =
  (fst (run_ears self ears)
     ++ [fst (fst (face_processor.register_ear (snd (run_ears self ears)) e))],
   snd (face_processor.register_ear (snd (run_ears self ears)) e)).
Proof.
  unfold run_ears. rewrite fold_left_app. simpl.
  destruct (face_processor.register_ear _ e) as [[flag x] s]. reflexivity.
Qed.

Lemma blink_flags_snoc (t : Q) (n : nat) (ears seen : list Q) (e : Q) :
  blink_flags t n seen (ears ++ [e]) =
  blink_flags t n seen ears ++ [blink_at t n (seen ++ ears) e].
Proof.
  revert seen. induction ears as [|x ears IH]; intro seen; simpl.
  - now rewrite app_nil_r.
  - rewrite IH, <- app_assoc. reflexivity.
Qed.

Lemma trailing_below_snoc (t : Q) (ears : list Q) (e : Q) :
  trailing_below t (ears ++ [e]) =
  if Qlt_bool e t then S (trailing_below t ears) else 0%nat.
Proof.
  unfold trailing_below. rewrite rev_app_distr. reflexivity.
Qed.

Lemma blinks_snoc (flags : list bool) (b : bool) :
  blinks (flags ++ [b]) = (blinks flags + if b then 1 else 0)%nat.
Proof.
  unfold blinks. rewrite filter_app, length_app. destruct b; reflexivity.
Qed.

Lemma run_ears_invariant (ears : list Q) :
  let r := run_ears face_processor.new_SpoofDetector ears in
  fst r = blink_flags config.BLINK_THRESHOLD 3 [] ears
  /\ face_processor.frame_counter (snd r)
     = Z.of_nat (trailing_below config.BLINK_THRESHOLD ears)
  /\ face_processor.blink_counter (snd r) = Z.of_nat (blinks (fst r))
  /\ face_processor.blink_threshold (snd r) = config.BLINK_THRESHOLD
  /\ face_processor.eye_ar_consecutive_frames (snd r) = 3%Z.
Proof.
  induction ears as [|e ears IH] using rev_ind.
  - repeat split.
  - cbv zeta in IH |- *. destruct IH as (Hf & Hc & Hb & Ht & Hn).
    rewrite run_ears_snoc, blink_flags_snoc, trailing_below_snoc. simpl fst; simpl snd.
    set (s := snd (run_ears face_processor.new_SpoofDetector ears)) in *.
    unfold face_processor.register_ear. rewrite Ht, Hn, Hc, blinks_snoc.
    unfold blink_at. simpl app.
    rewrite Hf in Hb |- *.
    destruct (Qlt_bool e config.BLINK_THRESHOLD); simpl.
    + repeat split; lia.
    + destruct (Z.leb_spec 3 (Z.of_nat (trailing_below config.BLINK_THRESHOLD ears)));
        destruct (trailing_below config.BLINK_THRESHOLD ears) as [|[|[|n]]];
        try lia; simpl; repeat split; try reflexivity; lia.
Qed.

(** C6. The blink detector is a hysteresis over the eye-aspect-ratio
    sequence. One frame: below the threshold the consecutive-frame counter
    grows by one and nothing is registered; at or above it the counter goes
    back to zero and one blink is registered exactly when the counter had
    reached [eye_ar_consecutive_frames]. A whole sequence fed to a fresh
    detector (threshold 0.25, three frames): the flags are those of
    [blink_flags], the counter is the length of the run of low frames that
    ends the sequence, the blink count is the number of flags raised.
    [0.35,0.35,0.10,0.10,0.10,0.35] registers one blink, at the last frame;
    [0.35,0.10,0.35] registers none. *)
Theorem blink_hysteresis :
  (forall (self : face_processor.SpoofDetector) (e : Q),
      let r := face_processor.register_ear self e in
      snd (fst r) = e
      /\ face_processor.previous_ear (snd r) = Some e
      /\ face_processor.blink_threshold (snd r) = face_processor.blink_threshold self
      /\ face_processor.eye_ar_consecutive_frames (snd r)
         = face_processor.eye_ar_consecutive_frames self
      /\ if Qlt_bool e (face_processor.blink_threshold self)
         then fst (fst r) = false
              /\ face_processor.frame_counter (snd r)
                 = (face_processor.frame_counter self + 1)%Z
              /\ face_processor.blink_counter (snd r) = face_processor.blink_counter self
         else fst (fst r)
              = (face_processor.eye_ar_consecutive_frames self
                 <=? face_processor.frame_counter self)%Z
              /\ face_processor.frame_counter (snd r) = 0%Z
              /\ face_processor.blink_counter (snd r)
                 = (face_processor.blink_counter self + if fst (fst r) then 1 else 0)%Z)
  /\ (forall ears : list Q,
         let r := run_ears face_processor.new_SpoofDetector ears in
         fst r = blink_flags 0.25 3 [] ears
         /\ face_processor.frame_counter (snd r) = Z.of_nat (trailing_below 0.25 ears)
         /\ face_processor.blink_counter (snd r) = Z.of_nat (blinks (fst r)))
  /\ (let r := run_ears face_processor.new_SpoofDetector
                 [0.35; 0.35; 0.10; 0.10; 0.10; 0.35] in
      fst r = [false; false; false; false; false; true]
      /\ face_processor.blink_counter (snd r) = 1%Z)
  /\ (let r := run_ears face_processor.new_SpoofDetector [0.35; 0.10; 0.35] in
      fst r = [false; false; false]
      /\ face_processor.blink_counter (snd r) = 0%Z).
Proof.
  split; [|split; [|split]].
  - intros self e. unfold face_processor.register_ear. cbv zeta.
    destruct (Qlt_bool e (face_processor.blink_threshold self)); simpl.
    + repeat split.
    + destruct (face_processor.eye_ar_consecutive_frames self
                <=? face_processor.frame_counter self)%Z; simpl; repeat split; lia.
  - intro ears. pose proof (run_ears_invariant ears) as H. cbv zeta in H |- *.
    destruct H as (Hf & Hc & Hb & _). repeat split; assumption.
  - split; reflexivity.
  - split; reflexivity.
Qed.


(** ** Loading the gallery *)

Lemma length_chunks {A : Type} (k n : nat) (l : list A) : length (chunks k n l) = n.
Proof.
  revert l. induction n as [|n IH]; intro l; simpl; [reflexivity|]. now rewrite IH.
Qed.

Lemma np_frombuffer_length (buf : list Byte.byte) (dt : dtype) (v : list Q) :
  np_frombuffer buf dt = Ok v -> length v = (length buf / itemsize dt)%nat.
Proof.
  unfold np_frombuffer. destruct (_ =? 0)%nat; [|discriminate].
  intro H. injection H as <-. now rewrite length_map, length_chunks.
Qed.

Lemma loadable_iff (dt : dtype) (n : nat) (user : user_dict) :
  itemsize dt <> 0%nat ->
  (loadable dt n user = true
   <-> exists buf, face_encoding user = Some buf
                   /\ length buf = (n * itemsize dt)%nat).
Proof.
  intro Hk. unfold loadable. destruct (face_encoding user) as [buf|].
  - destruct (np_frombuffer buf dt) as [v|e] eqn:E.
    + pose proof (np_frombuffer_length _ _ _ E) as Hlen.
      unfold np_frombuffer in E.
      destruct (Nat.eqb_spec (length buf mod itemsize dt) 0) as [Hm|Hm]; [|discriminate].
      pose proof (Nat.div_mod_eq (length buf) (itemsize dt)) as Hd.
      rewrite Nat.eqb_eq. split.
      * intro Hn. exists buf. split; [reflexivity|]. rewrite Hd, Hm, <- Hlen, Hn. lia.
      * intros (b & Hb & Hl). injection Hb as <-. rewrite Hlen, Hl.
        now apply Nat.div_mul.
    + split; [discriminate|]. intros (b & Hb & Hl). injection Hb as <-.
      unfold np_frombuffer in E. rewrite Hl in E.
      rewrite Nat.Div0.mod_mul in E. discriminate.
  - split; [discriminate|]. intros (b & Hb & _). discriminate.
Qed.

Lemma cv_load_user (self : face_processor_cv.FaceProcessorCV) (user : user_dict) :
  face_processor_cv.load_user self user =
  Ok (if loadable float32 132 user
      then face_processor_cv.mk_FaceProcessorCV
             (face_processor_cv.known_face_features self ++ [deserialized float32 user])
             (face_processor_cv.known_face_ids self ++ id_if_any user)
      else self).
Proof.
  unfold face_processor_cv.load_user, face_processor_cv.load_user_try, try_except,
    loadable, deserialized, truthy_bytes, getitem_id, id_if_any.
  destruct (face_encoding user) as [[|b buf]|]; try reflexivity.
  unfold face_processor_cv.expected_size.
  destruct (np_frombuffer (b :: buf) float32) as [v|e]; [|reflexivity].
  destruct (length v =? 132)%nat; destruct (id user) as [uid|];
    cbn [face_processor_cv.known_face_features face_processor_cv.known_face_ids];
    rewrite ?app_nil_r; reflexivity.
Qed.

Lemma dlib_load_user (self : face_processor.FaceProcessor) (user : user_dict) :
  face_processor.load_user self user =
  Ok (if loadable float64 128 user
      then face_processor.mk_FaceProcessor
             (face_processor.known_face_encodings self ++ [deserialized float64 user])
             (face_processor.known_face_ids self ++ id_if_any user)
      else self).
Proof.
  unfold face_processor.load_user, face_processor.load_user_try, try_except,
    loadable, deserialized, truthy_bytes, getitem_id, id_if_any.
  destruct (face_encoding user) as [[|b buf]|]; try reflexivity.
  destruct (np_frombuffer (b :: buf) float64) as [v|e]; [|reflexivity].
  destruct (length v =? 128)%nat; destruct (id user) as [uid|];
    cbn [face_processor.known_face_encodings face_processor.known_face_ids];
    rewrite ?app_nil_r; reflexivity.
Qed.

Lemma cv_load_loop (users : list user_dict) (self : face_processor_cv.FaceProcessorCV) :
  for_each face_processor_cv.load_user users self =
  Ok (face_processor_cv.mk_FaceProcessorCV
        (face_processor_cv.known_face_features self
           ++ map (deserialized float32) (filter (loadable float32 132) users))
        (face_processor_cv.known_face_ids self
           ++ ids_of (filter (loadable float32 132) users))).
Proof.
  revert self. induction users as [|u users IH]; intro self; cbn [for_each filter].
  - cbn. rewrite !app_nil_r. now destruct self.
  - rewrite cv_load_user. cbn [bind]. rewrite IH.
    destruct (loadable float32 132 u); [|reflexivity].
    cbn [face_processor_cv.known_face_features face_processor_cv.known_face_ids
         map ids_of flat_map].
    now rewrite <- !app_assoc.
Qed.

Lemma dlib_load_loop (users : list user_dict) (self : face_processor.FaceProcessor) :
  for_each face_processor.load_user users self =
  Ok (face_processor.mk_FaceProcessor
        (face_processor.known_face_encodings self
           ++ map (deserialized float64) (filter (loadable float64 128) users))
        (face_processor.known_face_ids self
           ++ ids_of (filter (loadable float64 128) users))).
Proof.
  revert self. induction users as [|u users IH]; intro self; cbn [for_each filter].
  - cbn. rewrite !app_nil_r. now destruct self.
  - rewrite dlib_load_user. cbn [bind]. rewrite IH.
    destruct (loadable float64 128 u); [|reflexivity].
    cbn [face_processor.known_face_encodings face_processor.known_face_ids
         map ids_of flat_map].
    now rewrite <- !app_assoc.
Qed.

Lemma cv_load_known_faces (self : face_processor_cv.FaceProcessorCV) (users : list user_dict) :
  face_processor_cv.load_known_faces self users =
  Ok (face_processor_cv.mk_FaceProcessorCV
        (map (deserialized float32) (filter (loadable float32 132) users))
        (ids_of (filter (loadable float32 132) users))).
Proof. unfold face_processor_cv.load_known_faces. now rewrite cv_load_loop. Qed.

Lemma dlib_load_known_faces (self : face_processor.FaceProcessor) (users : list user_dict) :
  face_processor.load_known_faces self users =
  Ok (face_processor.mk_FaceProcessor
        (map (deserialized float64) (filter (loadable float64 128) users))
        (ids_of (filter (loadable float64 128) users))).
Proof. unfold face_processor.load_known_faces. now rewrite dlib_load_loop. Qed.

Lemma ids_of_all_have_id (users : list user_dict) :
  all_have_id users -> map Some (ids_of users) = map id users.
Proof.
  induction 1 as [|u users Hu _ IH]; [reflexivity|].
  cbn [ids_of flat_map map]. unfold id_if_any at 1.
  destruct (id u) as [uid|]; [|contradiction]. cbn [app map]. f_equal. exact IH.
Qed.

Lemma all_have_id_filter (f : user_dict -> bool) (users : list user_dict) :
  all_have_id users -> all_have_id (filter f users).
Proof.
  unfold all_have_id. rewrite !Forall_forall. intros H u Hu.
  apply filter_In in Hu. now apply H.
Qed.

(** C5. Whatever the gallery held before, [load_known_faces] returns
    normally and leaves exactly the input entries that deserialise to the
    expected length (132 float32 numbers for the handcrafted strategy, 128
    float64 numbers for the embedding strategy), in input order, with their
    identities alongside; every other entry is skipped and the entries
    after it are still loaded. An entry has the expected length exactly
    when its buffer has 528, respectively 1024, bytes. The identities kept
    are those of the accepted entries ([ids_of]); when every entry carries
    its identity, as (identity, bytes) pairs do, they are the identities of
    all the accepted entries, one for each vector. *)
Theorem load_known_faces_keeps_expected_length :
  (forall (self : face_processor_cv.FaceProcessorCV) (users : list user_dict),
      face_processor_cv.load_known_faces self users =
      Ok (face_processor_cv.mk_FaceProcessorCV
            (map (deserialized float32) (filter (loadable float32 132) users))
            (ids_of (filter (loadable float32 132) users))))
  /\ (forall (self : face_processor.FaceProcessor) (users : list user_dict),
         face_processor.load_known_faces self users =
         Ok (face_processor.mk_FaceProcessor
               (map (deserialized float64) (filter (loadable float64 128) users))
               (ids_of (filter (loadable float64 128) users))))
  /\ (forall user : user_dict,
         (loadable float32 132 user = true
          <-> exists buf, face_encoding user = Some buf /\ length buf = 528%nat)
         /\ (loadable float64 128 user = true
             <-> exists buf, face_encoding user = Some buf /\ length buf = 1024%nat))
  /\ (forall user : user_dict,
         (loadable float32 132 user = true -> length (deserialized float32 user) = 132%nat)
         /\ (loadable float64 128 user = true -> length (deserialized float64 user) = 128%nat))
  /\ (forall (dt : dtype) (n : nat) (users : list user_dict),
         all_have_id users ->
         map Some (ids_of (filter (loadable dt n) users))
         = map id (filter (loadable dt n) users)).
Proof.
  split; [exact cv_load_known_faces|].
  split; [exact dlib_load_known_faces|].
  split; [|split].
  - intro user. split.
    + apply (loadable_iff float32 132 user). discriminate.
    + apply (loadable_iff float64 128 user). discriminate.
  - intro user. unfold loadable, deserialized.
    destruct (face_encoding user) as [buf|]; [|split; discriminate].
    split.
    + destruct (np_frombuffer buf float32); [|discriminate]. apply Nat.eqb_eq.
    + destruct (np_frombuffer buf float64); [|discriminate]. apply Nat.eqb_eq.
  - intros dt n users H. apply ids_of_all_have_id. now apply all_have_id_filter.
Qed.


(** ** Sums *)

Lemma eps_pos : 0 < eps.
Proof. reflexivity. Qed.

Lemma Qsum_nonneg (l : list Q) : Forall (fun x => 0 <= x) l -> 0 <= Qsum l.
Proof.
  induction 1 as [|x l Hx _ IH]; simpl; [apply Qle_refl|].
  change 0 with (0 + 0). now apply Qplus_le_compat.
Qed.

Lemma Qsum_zero (l : list Q) : Forall (fun x => x == 0) l -> Qsum l == 0.
Proof.
  induction 1 as [|x l Hx _ IH]; simpl; [reflexivity|]. rewrite Hx, IH. reflexivity.
Qed.

Lemma Qsum_map_div (c : Q) (l : list Q) : Qsum (map (fun x => x / c) l) == Qsum l / c.
Proof.
  induction l as [|x l IH]; simpl.
  - unfold Qdiv. ring.
  - rewrite IH. unfold Qdiv. ring.
Qed.

Lemma Qsum_l1_normalize (hist : list Q) :
  Qsum (l1_normalize hist) == Qsum hist / (Qsum hist + eps).
Proof. unfold l1_normalize. apply Qsum_map_div. Qed.

(** What dividing a mass by itself plus [eps] gives. *)
Lemma mass_ratio_bounds (s : Q) :
  0 <= s -> 0 <= s / (s + eps) /\ s / (s + eps) < 1.
Proof.
  intro Hs. pose proof eps_pos as He.
  assert (Hd : 0 < s + eps) by lra.
  split.
  - apply Qle_shift_div_l; [assumption|]. lra.
  - apply Qlt_shift_div_r; [assumption|]. lra.
Qed.

Lemma mass_ratio_zero (s : Q) : s == 0 -> s / (s + eps) == 0.
Proof. intro H. rewrite H. reflexivity. Qed.

Lemma mass_ratio_close (s tol : Q) :
  0 < tol -> tol <= 1 -> eps <= tol * s -> 1 - tol <= s / (s + eps).
Proof.
  intros Ht Ht1 H. pose proof eps_pos as He.
  assert (Hs : 0 <= s) by nra.
  apply Qle_shift_div_l; [lra|]. nra.
Qed.

(** ** Similarity of a vector with itself *)

Lemma Qmin_same (x : Q) : Qmin x x = x.
Proof.
  unfold Qmin, GenericMinMax.gmin. now destruct (x ?= x).
Qed.

Lemma map2_Qmin_same (v : list Q) : map2 Qmin v v = v.
Proof.
  induction v as [|x v IH]; simpl; [reflexivity|]. now rewrite Qmin_same, IH.
Qed.

Lemma np_minimum_same_length (a b : list Q) :
  length a = length b -> np_minimum a b = Ok (map2 Qmin a b).
Proof.
  intro H. unfold np_minimum, broadcast2. now rewrite H, Nat.eqb_refl.
Qed.






(** ** Liveness *)

Lemma is_empty_false {A : Type} (a : array2 A) :
  is_empty a = false <-> (rows a <> 0 /\ cols a <> 0)%nat.
Proof.
  unfold is_empty. rewrite orb_false_iff, !Nat.eqb_neq. reflexivity.
Qed.

Lemma size_nonzero (img : ndarray) :
  size img <> 0%nat ->
  match img with
  | Gray a => is_empty a = false
  | Color a => is_empty a = false
  end.
Proof.
  destruct img as [a|a]; simpl; intro H; apply is_empty_false; lia.
Qed.

Lemma size_zero (img : ndarray) :
  size img = 0%nat ->
  match img with
  | Gray a => is_empty a = true
  | Color a => is_empty a = true
  end.
Proof.
  destruct img as [a|a]; simpl; intro H; unfold is_empty;
    rewrite orb_true_iff, !Nat.eqb_eq; lia.
Qed.

Lemma to_gray_nonempty (cv : Backend) (img : ndarray) :
  size img <> 0%nat -> exists g, to_gray cv img = Ok g /\ is_empty g = false.
Proof.
  intro H. apply size_nonzero in H. destruct img as [a|a]; simpl.
  - now exists a.
  - unfold cvtColor_BGR2GRAY. rewrite H. eexists. split; [reflexivity|]. exact H.
Qed.

Lemma analyze_texture_lbp_total (cv : Backend) (img : ndarray) :
  size img <> 0%nat -> exists t, analyze_texture_lbp cv img = Ok t.
Proof.
  intro H. destruct (to_gray_nonempty cv img H) as (g & Hg & Hne).
  unfold analyze_texture_lbp. rewrite Hg. cbn [bind]. unfold cv2_resize_gray. rewrite Hne.
  cbn [bind]. eexists. reflexivity.
Qed.

Lemma analyze_reflection_total (cv : Backend) (img : ndarray) :
  size img <> 0%nat -> exists r, analyze_reflection cv img = Ok r.
Proof.
  intro H. destruct (to_gray_nonempty cv img H) as (g & Hg & Hne).
  unfold analyze_reflection. rewrite Hg. cbn [bind]. eexists. reflexivity.
Qed.

Lemma analyze_blur_total (cv : Backend) (img : ndarray) :
  size img <> 0%nat -> exists b, analyze_blur cv img = Ok b.
Proof.
  intro H. destruct (to_gray_nonempty cv img H) as (g & Hg & Hne).
  unfold analyze_blur. rewrite Hg. cbn [bind]. eexists. reflexivity.
Qed.

Lemma analyze_texture_lbp_empty (cv : Backend) (img : ndarray) :
  size img = 0%nat -> analyze_texture_lbp cv img = Raise cv2_error.
Proof.
  intro H. apply size_zero in H. unfold analyze_texture_lbp.
  destruct img as [a|a]; cbn [to_gray bind].
  - unfold cv2_resize_gray. now rewrite H.
  - unfold cvtColor_BGR2GRAY. now rewrite H.
Qed.

(** The OpenCV-only [check_liveness] fails open: no image, an empty image
    and a scorer that raises all give the default result, which is live
    with confidence 1. *)
Lemma cv_check_liveness_fails_open (cv : Backend) (face_image : option ndarray)
      (face_landmarks : option landmarks) :
  (face_image = None
   \/ (exists a, face_image = Some a /\ size a = 0%nat)
   \/ (exists a e, face_image = Some a
                   /\ (analyze_texture_lbp cv a = Raise e
                       \/ analyze_reflection cv a = Raise e
                       \/ analyze_blur cv a = Raise e))) ->
  face_processor_cv.check_liveness cv face_image face_landmarks
  = Ok face_processor_cv.default_live
  /\ is_live face_processor_cv.default_live = true
  /\ confidence face_processor_cv.default_live = 1.
Proof.
  intro H. split; [|split; reflexivity].
  unfold face_processor_cv.check_liveness.
  destruct H as [-> | [(a & -> & Hs) | (a & e & -> & Hr)]].
  - reflexivity.
  - now rewrite Hs.
  - destruct (size a =? 0)%nat; [reflexivity|].
    destruct (analyze_texture_lbp cv a) as [t|et]; cbn [bind]; [|reflexivity].
    destruct (analyze_reflection cv a) as [r|er]; cbn [bind]; [|reflexivity].
    destruct (analyze_blur cv a) as [b|eb]; cbn [bind]; [|reflexivity].
    destruct Hr as [Hr | [Hr | Hr]]; discriminate.
Qed.

Lemma dlib_check_liveness_empty (cv : Backend) (self : face_processor.SpoofDetector)
      (img : ndarray) (face_landmarks : option landmarks) :
  size img = 0%nat ->
  face_processor.check_liveness cv self (Some img) face_landmarks = Raise cv2_error.
Proof.
  intro H. unfold face_processor.check_liveness. cbn [bind].
  now rewrite (analyze_texture_lbp_empty cv img H).
Qed.

(** C3, on the code of [face_processor.py]. On an empty crop the dlib
    [check_liveness] raises the error of [cv2.cvtColor]: it has neither the
    guard nor the [try/except] of its OpenCV-only sibling. *)
Theorem dlib_check_liveness_raises_on_empty_crop :
  forall (cv : Backend) (self : face_processor.SpoofDetector)
         (face_landmarks : option landmarks),
    face_processor.check_liveness cv self
      (Some (Color (mk_array2 0 0 (fun _ _ => (0, 0, 0)%Z)))) face_landmarks
    = Raise cv2_error.
Proof.
  intros cv self lm. now apply dlib_check_liveness_empty.
Qed.

(** C7. On every non-empty frame the three scorers of the OpenCV-only
    detector return, and the fused confidence is
    [texture*0.4 + reflection*0.3 + blur*0.3]. The dlib detector has no
    blur score: its two scorers return and, unless its blink detector
    raises on the landmarks, the fused confidence is
    [texture*0.6 + reflection*0.4], whatever the landmarks, the eye aspect
    ratio and the blink counters are. Under both, [is_live] is the
    comparison of the fused confidence with [LBP_THRESHOLD]. *)
Theorem liveness_fusion :
  (forall (cv : Backend) (img : ndarray) (face_landmarks : option landmarks),
      size img <> 0%nat ->
      exists t r b,
        analyze_texture_lbp cv img = Ok t
        /\ analyze_reflection cv img = Ok r
        /\ analyze_blur cv img = Ok b
        /\ face_processor_cv.check_liveness cv (Some img) face_landmarks
           = Ok (mk_LivenessResult t r (Some b) None None
                   (t * 0.4 + r * 0.3 + b * 0.3)
                   (Qle_bool config.LBP_THRESHOLD (t * 0.4 + r * 0.3 + b * 0.3))))
  /\ (forall (cv : Backend) (self : face_processor.SpoofDetector) (img : ndarray)
             (face_landmarks : option landmarks),
         size img <> 0%nat ->
         exists t r,
           analyze_texture_lbp cv img = Ok t
           /\ analyze_reflection cv img = Ok r
           /\ match face_processor.check_liveness cv self (Some img) face_landmarks with
              | Ok (res, _) =>
                  texture_score res = t
                  /\ reflection_score res = r
                  /\ blur_score res = None
                  /\ confidence res = t * 0.6 + r * 0.4
                  /\ is_live res = Qle_bool config.LBP_THRESHOLD (t * 0.6 + r * 0.4)
              | Raise e =>
                  exists entry more,
                    face_landmarks = Some (entry :: more)
                    /\ face_processor.detect_blink cv self (entry :: more) = Raise e
              end)
  /\ (forall x : Q, Qle_bool config.LBP_THRESHOLD x = true <-> config.LBP_THRESHOLD <= x).
Proof.
  split; [|split].
  - intros cv img lm H.
    destruct (analyze_texture_lbp_total cv img H) as [t Ht].
    destruct (analyze_reflection_total cv img H) as [r Hr].
    destruct (analyze_blur_total cv img H) as [b Hb].
    exists t, r, b. repeat split; try assumption.
    unfold face_processor_cv.check_liveness.
    destruct (Nat.eqb_spec (size img) 0) as [E|_]; [contradiction|].
    rewrite Ht, Hr, Hb. reflexivity.
  - intros cv self img lm H.
    destruct (analyze_texture_lbp_total cv img H) as [t Ht].
    destruct (analyze_reflection_total cv img H) as [r Hr].
    exists t, r. repeat split; try assumption.
    unfold face_processor.check_liveness. cbn [bind]. rewrite Ht, Hr. cbn [bind].
    destruct lm as [[|entry more]|]; cbn [bind]; try (repeat split; reflexivity).
    destruct (face_processor.detect_blink cv self (entry :: more)) as [[[flag e] s]|e] eqn:E;
      cbn [bind].
    + repeat split; reflexivity.
    + exists entry, more. split; [reflexivity|exact E].
  - intro x. apply Qle_bool_iff.
Qed.

Lemma liveness_fusion_witness :
  (exists t r b,
      analyze_texture_lbp Reference.cv (Color (Reference.ramp 12 12)) = Ok t
      /\ analyze_reflection Reference.cv (Color (Reference.ramp 12 12)) = Ok r
      /\ analyze_blur Reference.cv (Color (Reference.ramp 12 12)) = Ok b
      /\ face_processor_cv.check_liveness Reference.cv
           (Some (Color (Reference.ramp 12 12))) None
         = Ok (mk_LivenessResult t r (Some b) None None
                 (t * 0.4 + r * 0.3 + b * 0.3)
                 (Qle_bool config.LBP_THRESHOLD (t * 0.4 + r * 0.3 + b * 0.3))))
  /\ (exists t r,
         analyze_texture_lbp Reference.cv (Color (Reference.ramp 12 12)) = Ok t
         /\ analyze_reflection Reference.cv (Color (Reference.ramp 12 12)) = Ok r
         /\ match face_processor.check_liveness Reference.cv
                    face_processor.new_SpoofDetector
                    (Some (Color (Reference.ramp 12 12))) None with
            | Ok (res, _) =>
                texture_score res = t
                /\ reflection_score res = r
                /\ blur_score res = None
                /\ confidence res = t * 0.6 + r * 0.4
                /\ is_live res = Qle_bool config.LBP_THRESHOLD (t * 0.6 + r * 0.4)
            | Raise e =>
                exists entry more,
                  None = Some (entry :: more)
                  /\ face_processor.detect_blink Reference.cv
                       face_processor.new_SpoofDetector (entry :: more) = Raise e
            end).
Proof.
  split.
  - apply (proj1 liveness_fusion). discriminate.
  - apply (proj1 (proj2 liveness_fusion)). discriminate.
Defined.


(** ** Histograms *)

Lemma length_np_histogram (a : list Q) (bins : nat) (lo hi : Q) (w : option (list Q)) :
  length (np_histogram a bins lo hi w) = bins.
Proof. unfold np_histogram. now rewrite length_map, length_seq. Qed.

Lemma length_l1_normalize (hist : list Q) : length (l1_normalize hist) = length hist.
Proof. unfold l1_normalize. apply length_map. Qed.

Lemma Qsum_cons (x : Q) (l : list Q) : Qsum (x :: l) = x + Qsum l.
Proof. reflexivity. Qed.

Lemma Qsum_map_zero {A : Type} (l : list A) : Qsum (map (fun _ => 0) l) == 0.
Proof. induction l as [|x l IH]; simpl; [reflexivity|]. rewrite IH. reflexivity. Qed.

Lemma Qsum_map_add {A : Type} (f g : A -> Q) (l : list A) :
  Qsum (map (fun x => f x + g x) l) == Qsum (map f l) + Qsum (map g l).
Proof.
  induction l as [|x l IH]; simpl; [reflexivity|]. rewrite IH. ring.
Qed.

(** A weight lands in at most one bin. *)
Lemma Qsum_one_bin (k : nat) (w : Q) (n s : nat) :
  Qsum (map (fun b => if (k =? b)%nat then w else 0) (seq s n))
  == if ((s <=? k) && (k <? s + n))%nat then w else 0.
Proof.
  revert s. induction n as [|n IH]; intro s; simpl.
  - destruct (Nat.leb_spec s k); destruct (Nat.ltb_spec k (s + 0)); simpl;
      try reflexivity; lia.
  - rewrite IH.
    destruct (Nat.eqb_spec k s); destruct (Nat.leb_spec s k);
      destruct (Nat.leb_spec (S s) k); destruct (Nat.ltb_spec k (S s + n));
      destruct (Nat.ltb_spec k (s + S n)); simpl; try lia; ring.
Qed.

Lemma Qsum_weight_in (bins : nat) (kw : option nat * Q) :
  Qsum (map (fun b => weight_in b kw) (seq 0 bins)) == counted bins kw.
Proof.
  unfold weight_in, counted. destruct (fst kw) as [k|].
  - rewrite Qsum_one_bin. simpl. reflexivity.
  - apply Qsum_map_zero.
Qed.

Lemma Qsum_bins (bins : nat) (binned : list (option nat * Q)) :
  Qsum (map (fun b => Qsum (map (weight_in b) binned)) (seq 0 bins))
  == Qsum (map (counted bins) binned).
Proof.
  induction binned as [|kw binned IH]; simpl.
  - apply Qsum_map_zero.
  - rewrite Qsum_map_add, IH, Qsum_weight_in. reflexivity.
Qed.

Lemma bin_of_lt (bins : nat) (lo hi v : Q) (k : nat) :
  (0 < bins)%nat -> lo < hi -> bin_of bins lo hi v = Some k -> (k < bins)%nat.
Proof.
  intros Hb Hlh. unfold bin_of.
  destruct (Qle_bool lo v) eqn:E1; [|discriminate].
  destruct (Qle_bool v hi) eqn:E2; [|discriminate]. cbn [andb].
  apply Qle_bool_iff in E1, E2.
  remember (Qfloor ((v - lo) * inject_Z (Z.of_nat bins) / (hi - lo))) as z eqn:Ez.
  destruct (Qeq_bool v hi) eqn:E3; intro H; injection H as <-; [lia|].
  apply Qeq_bool_neq in E3.
  assert (Hv : v < hi).
  { destruct (Qlt_le_dec v hi) as [?|Hge]; [assumption|].
    exfalso. apply E3. now apply Qle_antisym. }
  set (B := inject_Z (Z.of_nat bins)) in *.
  assert (HB : 0 < B).
  { unfold B. change 0 with (inject_Z 0). rewrite <- Zlt_Qlt. lia. }
  assert (Hq : (v - lo) * B / (hi - lo) < B).
  { apply Qlt_shift_div_r; [lra|]. nra. }
  pose proof (Qfloor_le ((v - lo) * B / (hi - lo))) as Hf.
  rewrite <- Ez in Hf.
  assert (Hz : (z < Z.of_nat bins)%Z).
  { rewrite Zlt_Qlt. fold B. lra. }
  lia.
Qed.

Lemma bin_of_in_range (bins : nat) (lo hi v : Q) :
  lo <= v -> v <= hi -> exists k, bin_of bins lo hi v = Some k.
Proof.
  intros H1 H2. unfold bin_of.
  apply Qle_bool_iff in H1, H2. rewrite H1, H2. cbn [andb].
  destruct (Qeq_bool v hi); eexists; reflexivity.
Qed.

(** Without weights, a histogram over values that are all in range sums
    to their number. *)
Lemma Qsum_histogram_count (a : list Q) (bins : nat) (lo hi : Q) :
  (0 < bins)%nat -> lo < hi ->
  Forall (fun v => lo <= v /\ v <= hi) a ->
  Qsum (np_histogram a bins lo hi None) == inject_Z (Z.of_nat (length a)).
Proof.
  intros Hb Hlh Ha. unfold np_histogram. rewrite Qsum_bins.
  induction Ha as [|v a [H1 H2] _ IH].
  - reflexivity.
  - cbn [length repeat combine map]. rewrite Qsum_cons, IH.
    unfold counted. cbn [fst snd].
    destruct (bin_of_in_range bins lo hi v H1 H2) as [k Hk]. rewrite Hk.
    pose proof (bin_of_lt _ _ _ _ _ Hb Hlh Hk) as Hlt.
    apply Nat.ltb_lt in Hlt. rewrite Hlt.
    rewrite Nat2Z.inj_succ. unfold Z.succ. rewrite inject_Z_plus. ring.
Qed.

(** With weights that are all zero, a histogram sums to zero. *)
Lemma Qsum_histogram_zero_weights (a w : list Q) (bins : nat) (lo hi : Q) :
  Forall (fun x => x == 0) w ->
  Qsum (np_histogram a bins lo hi (Some w)) == 0.
Proof.
  intro Hw. unfold np_histogram. rewrite Qsum_bins.
  apply Qsum_zero. apply Forall_forall. intros x Hx.
  apply in_map_iff in Hx. destruct Hx as (kw & <- & Hkw).
  apply in_map_iff in Hkw. destruct Hkw as ([v x] & <- & Hvw).
  apply in_combine_r in Hvw. rewrite Forall_forall in Hw. specialize (Hw _ Hvw).
  unfold counted. cbn [fst snd].
  destruct (bin_of bins lo hi v) as [k|]; [|reflexivity].
  destruct (k <? bins)%nat; [assumption|reflexivity].
Qed.

(** ** Arrays *)

Lemma Forall_ravel {A : Type} (P : A -> Prop) (a : array2 A) :
  (forall i j, P (at2 a i j)) -> Forall P (ravel a).
Proof.
  intro H. unfold ravel. apply Forall_forall. intros x Hx.
  apply in_flat_map in Hx. destruct Hx as (i & _ & Hx).
  apply in_map_iff in Hx. destruct Hx as (j & <- & _). apply H.
Qed.

Lemma length_flat_map_const {A B : Type} (f : A -> list B) (c : nat) (l : list A) :
  (forall x, length (f x) = c) -> length (flat_map f l) = (length l * c)%nat.
Proof.
  intro H. induction l as [|x l IH]; simpl; [reflexivity|].
  now rewrite length_app, H, IH.
Qed.

Lemma length_ravel {A : Type} (a : array2 A) : length (ravel a) = (rows a * cols a)%nat.
Proof.
  unfold ravel. rewrite (length_flat_map_const _ (cols a)).
  - now rewrite length_seq.
  - intro i. now rewrite length_map, length_seq.
Qed.

Lemma uint8_range (z : Z) : (0 <= uint8 z < 256)%Z.
Proof. unfold uint8. apply Z.mod_pos_bound. lia. Qed.

Lemma inject_Z_range (z lo hi : Z) :
  (lo <= z < hi)%Z -> inject_Z lo <= inject_Z z /\ inject_Z z <= inject_Z hi.
Proof. intro H. rewrite <- !Zle_Qle. lia. Qed.


(** ** The feature extractor *)

Lemma slice_bound_id (n i : Z) : (0 <= i <= n)%Z -> slice_bound n i = i.
Proof.
  intro H. unfold slice_bound. destruct (Z.ltb_spec i 0); lia.
Qed.

Lemma bind_assoc {E A B C : Type} (m : result E A) (f : A -> result E B)
      (g : B -> result E C) :
  bind (bind m f) g = bind m (fun x => bind (f x) g).
Proof. now destruct m. Qed.

(** [extract_face_features] is its size checks followed by [prepare] and
    the four normalised histograms. *)
Lemma extract_face_features_stages (cv : Backend) (image : array2 bgr)
      (face_location : location) :
  face_processor_cv.extract_face_features cv image face_location =
  if crop_survives image face_location
  then
    '(gray, hsv) <- prepare cv (clamped_crop image face_location) ;;
    Ok (Some (l1_normalize (raw_lbp gray) ++ l1_normalize (raw_gray gray)
              ++ l1_normalize (raw_hog cv gray) ++ l1_normalize (raw_hue hsv)))
  else Ok None.
Proof.
  destruct face_location as [[[top right_] bottom] left_].
  unfold face_processor_cv.extract_face_features, crop_survives, clamped_crop.
  set (h := Z.of_nat (rows image)). set (w := Z.of_nat (cols image)).
  set (t := Z.max 0 (Z.min top (h - 1))). set (b := Z.max 0 (Z.min bottom h)).
  set (l := Z.max 0 (Z.min left_ (w - 1))). set (r := Z.max 0 (Z.min right_ w)).
  assert (Hh : (0 <= h)%Z) by (unfold h; lia).
  assert (Hw : (0 <= w)%Z) by (unfold w; lia).
  assert (Hrows : rows (slice2 image t b l r) = Z.to_nat (b - t)).
  { unfold slice2. cbn [rows]. fold h.
    rewrite !slice_bound_id by (unfold t, b; lia). reflexivity. }
  assert (Hcols : cols (slice2 image t b l r) = Z.to_nat (r - l)).
  { unfold slice2. cbn [cols]. fold w.
    rewrite !slice_bound_id by (unfold l, r; lia). reflexivity. }
  unfold size. rewrite Hrows, Hcols.
  destruct (Z.leb_spec b t); destruct (Z.leb_spec r l);
    destruct (Z.ltb_spec t b); destruct (Z.ltb_spec l r); try lia;
    cbn [orb andb]; try reflexivity.
  destruct (Nat.eqb_spec (Z.to_nat (b - t) * Z.to_nat (r - l) * 3) 0);
    destruct (Nat.ltb_spec (Z.to_nat (b - t)) 10);
    destruct (Nat.ltb_spec (Z.to_nat (r - l)) 10);
    destruct (Z.leb_spec 10 (b - t)); destruct (Z.leb_spec 10 (r - l));
    try lia; try nia; cbn [orb andb]; try reflexivity.
  unfold prepare. rewrite !bind_assoc.
  destruct (cv2_resize_bgr cv (slice2 image t b l r) 100 100) as [x1|]; [|reflexivity].
  cbn [bind]. rewrite !bind_assoc.
  destruct (normalize_bgr cv x1) as [x2|]; [|reflexivity].
  cbn [bind]. rewrite !bind_assoc.
  destruct (cvtColor_BGR2GRAY cv x2) as [x3|]; [|reflexivity].
  cbn [bind]. rewrite !bind_assoc.
  destruct (cvtColor_BGR2HSV cv x2) as [x4|]; reflexivity.
Qed.

Lemma crop_survives_nonempty (image : array2 bgr) (face_location : location) :
  crop_survives image face_location = true ->
  is_empty (clamped_crop image face_location) = false.
Proof.
  destruct face_location as [[[top right_] bottom] left_].
  unfold crop_survives, clamped_crop.
  set (h := Z.of_nat (rows image)). set (w := Z.of_nat (cols image)).
  set (t := Z.max 0 (Z.min top (h - 1))). set (b := Z.max 0 (Z.min bottom h)).
  set (l := Z.max 0 (Z.min left_ (w - 1))). set (r := Z.max 0 (Z.min right_ w)).
  assert (Hh : (0 <= h)%Z) by (unfold h; lia).
  assert (Hw : (0 <= w)%Z) by (unfold w; lia).
  rewrite !andb_true_iff, !Z.ltb_lt, !Z.leb_le. intros [[[H1 H2] H3] H4].
  apply is_empty_false. unfold slice2. cbn [rows cols]. fold h w.
  rewrite !slice_bound_id by (unfold t, b, l, r; lia). lia.
Qed.

Lemma prepare_nonempty (cv : Backend) (face_region : array2 bgr) :
  is_empty face_region = false ->
  prepare cv face_region = Ok (prepared_gray cv face_region, prepared_hsv cv face_region).
Proof.
  intro H. unfold prepare, cv2_resize_bgr. rewrite H. reflexivity.
Qed.

Lemma near_one_mass (s : Q) : 0.01 <= s -> near_one (s / (s + eps)).
Proof.
  intro H. unfold near_one. split.
  - apply mass_ratio_close; try reflexivity; try discriminate. unfold eps. lra.
  - assert (Hs : 0 <= s) by lra.
    destruct (mass_ratio_bounds s Hs) as [_ Hlt]. lra.
Qed.

Lemma Qsum_raw_lbp (gray : array2 Z) :
  Qsum (raw_lbp gray) == inject_Z (Z.of_nat (rows gray * cols gray)).
Proof.
  unfold raw_lbp. rewrite Qsum_histogram_count.
  - rewrite length_map, length_ravel. reflexivity.
  - lia.
  - reflexivity.
  - apply Forall_map. apply Forall_ravel. intros i j.
    apply (inject_Z_range _ 0 256). cbn [face_processor_cv._calculate_lbp at2].
    destruct (interior gray 1 i j); [|lia].
    pose proof (uint8_range (face_processor_cv.lbp_code gray i j)). lia.
Qed.

Lemma Qsum_raw_gray (gray : array2 Z) :
  (forall i j, (0 <= at2 gray i j < 256)%Z) ->
  Qsum (raw_gray gray) == inject_Z (Z.of_nat (rows gray * cols gray)).
Proof.
  intro H. unfold raw_gray. rewrite Qsum_histogram_count.
  - rewrite length_map, length_ravel. reflexivity.
  - lia.
  - reflexivity.
  - apply Forall_map. apply Forall_ravel. intros i j.
    apply (inject_Z_range _ 0 256). apply H.
Qed.

Lemma Qsum_raw_hue (hsv : array2 bgr) :
  (forall i j, (0 <= chan0 (at2 hsv i j) < 180)%Z) ->
  Qsum (raw_hue hsv) == inject_Z (Z.of_nat (rows hsv * cols hsv)).
Proof.
  intro H. unfold raw_hue. rewrite Qsum_histogram_count.
  - rewrite length_map, length_ravel. reflexivity.
  - lia.
  - reflexivity.
  - apply Forall_map. apply Forall_ravel. intros i j.
    apply (inject_Z_range _ 0 180). apply H.
Qed.

Lemma near_one_full_frame (raw : list Q) :
  Qsum raw == inject_Z (Z.of_nat (100 * 100)) -> near_one (Qsum (l1_normalize raw)).
Proof.
  intro H. unfold near_one. rewrite Qsum_l1_normalize, H.
  apply near_one_mass. discriminate.
Qed.

(** C1, amended. Every crop that survives the size checks gets a
    descriptor of exactly 132 numbers: the 64-bin LBP histogram, then the
    32-bin grey-level histogram, then the 18-bin gradient-orientation
    histogram, then the 18-bin hue histogram, each divided by its sum plus
    1e-7. The LBP, grey-level and hue parts each sum to 1 within 1e-5. The
    gradient part sums to [M / (M + 1e-7)], [M] being the gradient magnitude
    it binned: that is within 1e-5 of 1 when [M] is at least 0.01, and it is
    0 when [M] is 0. *)
Theorem extract_face_features_layout (cv : Backend) (image : array2 bgr)
        (face_location : location) :
  hue_in_range cv ->
  crop_survives image face_location = true ->
  let gray := prepared_gray cv (clamped_crop image face_location) in
  let hsv := prepared_hsv cv (clamped_crop image face_location) in
  let lbp_hist := l1_normalize (raw_lbp gray) in
  let gray_hist := l1_normalize (raw_gray gray) in
  let hog_hist := l1_normalize (raw_hog cv gray) in
  let color_hist := l1_normalize (raw_hue hsv) in
  let M := Qsum (raw_hog cv gray) in
  face_processor_cv.extract_face_features cv image face_location
  = Ok (Some (lbp_hist ++ gray_hist ++ hog_hist ++ color_hist))
  /\ length (lbp_hist ++ gray_hist ++ hog_hist ++ color_hist) = 132%nat
  /\ length lbp_hist = 64%nat /\ length gray_hist = 32%nat
  /\ length hog_hist = 18%nat /\ length color_hist = 18%nat
  /\ near_one (Qsum lbp_hist) /\ near_one (Qsum gray_hist) /\ near_one (Qsum color_hist)
  /\ Qsum hog_hist == M / (M + eps)
  /\ (0.01 <= M -> near_one (Qsum hog_hist))
  /\ (M == 0 -> Qsum hog_hist == 0).
Proof.
  intros Hhue Hs gray hsv lbp_hist gray_hist hog_hist color_hist M.
  assert (L1 : length lbp_hist = 64%nat).
  { unfold lbp_hist, raw_lbp. now rewrite length_l1_normalize, length_np_histogram. }
  assert (L2 : length gray_hist = 32%nat).
  { unfold gray_hist, raw_gray. now rewrite length_l1_normalize, length_np_histogram. }
  assert (L3 : length hog_hist = 18%nat).
  { unfold hog_hist, raw_hog. now rewrite length_l1_normalize, length_np_histogram. }
  assert (L4 : length color_hist = 18%nat).
  { unfold color_hist, raw_hue. now rewrite length_l1_normalize, length_np_histogram. }
  split.
  { rewrite extract_face_features_stages, Hs.
    rewrite (prepare_nonempty cv _ (crop_survives_nonempty _ _ Hs)). reflexivity. }
  split; [rewrite !length_app, L1, L2, L3, L4; reflexivity|].
  repeat (split; [assumption|]).
  split.
  { apply near_one_full_frame. apply Qsum_raw_lbp. }
  split.
  { apply near_one_full_frame. apply Qsum_raw_gray. intros i j. apply uint8_range. }
  split.
  { apply near_one_full_frame. apply Qsum_raw_hue. intros i j. apply Hhue. }
  split; [apply Qsum_l1_normalize|].
  split.
  - intro HM. unfold near_one. unfold hog_hist. rewrite Qsum_l1_normalize.
    now apply near_one_mass.
  - intro HM. unfold hog_hist. rewrite Qsum_l1_normalize. now apply mass_ratio_zero.
Qed.

Lemma Reference_hue_in_range : hue_in_range Reference.cv.
Proof.
  intro p. unfold Reference.cv, bgr2hsv_px, Reference.hsv_px, chan0. cbn [fst]. lia.
Qed.

Lemma extract_face_features_layout_witness :
  let cv := Reference.cv in
  let image := Reference.ramp 80 80 in
  let face_location := Reference.whole (Reference.ramp 80 80) in
  let gray := prepared_gray cv (clamped_crop image face_location) in
  let hsv := prepared_hsv cv (clamped_crop image face_location) in
  let lbp_hist := l1_normalize (raw_lbp gray) in
  let gray_hist := l1_normalize (raw_gray gray) in
  let hog_hist := l1_normalize (raw_hog cv gray) in
  let color_hist := l1_normalize (raw_hue hsv) in
  let M := Qsum (raw_hog cv gray) in
  face_processor_cv.extract_face_features cv image face_location
  = Ok (Some (lbp_hist ++ gray_hist ++ hog_hist ++ color_hist))
  /\ length (lbp_hist ++ gray_hist ++ hog_hist ++ color_hist) = 132%nat
  /\ length lbp_hist = 64%nat /\ length gray_hist = 32%nat
  /\ length hog_hist = 18%nat /\ length color_hist = 18%nat
  /\ near_one (Qsum lbp_hist) /\ near_one (Qsum gray_hist) /\ near_one (Qsum color_hist)
  /\ Qsum hog_hist == M / (M + eps)
  /\ (0.01 <= M -> near_one (Qsum hog_hist))
  /\ (M == 0 -> Qsum hog_hist == 0).
Proof.
  apply (extract_face_features_layout Reference.cv (Reference.ramp 80 80)
           (Reference.whole (Reference.ramp 80 80))).
  - exact Reference_hue_in_range.
  - reflexivity.
Defined.

(** On a uniformly grey frame the reference backend finds no gradient. *)
Lemma flat_frame_no_gradient (i j : nat) :
  at2 (gradient_magnitude Reference.cv
         (prepared_gray Reference.cv
            (clamped_crop (Reference.flat 20 20 128)
                          (Reference.whole (Reference.flat 20 20 128))))) i j = 0.
Proof. reflexivity. Qed.

(** C1, refuted as stated. A uniformly grey 20x20 frame, cropped whole,
    survives the size checks; the gradient-orientation part of its
    descriptor sums to 0, not to 1. *)
Lemma extract_face_features_flat_frame :
  crop_survives (Reference.flat 20 20 128) (Reference.whole (Reference.flat 20 20 128)) = true
  /\ exists lbp_hist gray_hist hog_hist color_hist : list Q,
      face_processor_cv.extract_face_features Reference.cv (Reference.flat 20 20 128)
        (Reference.whole (Reference.flat 20 20 128))
      = Ok (Some (lbp_hist ++ gray_hist ++ hog_hist ++ color_hist))
      /\ length lbp_hist = 64%nat /\ length gray_hist = 32%nat
      /\ length hog_hist = 18%nat /\ length color_hist = 18%nat
      /\ Qsum hog_hist == 0
      /\ ~ near_one (Qsum hog_hist).
Proof.
  split; [reflexivity|].
  set (image := Reference.flat 20 20 128).
  set (gray := prepared_gray Reference.cv (clamped_crop image (Reference.whole image))).
  set (hsv := prepared_hsv Reference.cv (clamped_crop image (Reference.whole image))).
  exists (l1_normalize (raw_lbp gray)), (l1_normalize (raw_gray gray)),
    (l1_normalize (raw_hog Reference.cv gray)), (l1_normalize (raw_hue hsv)).
  assert (H0 : Qsum (l1_normalize (raw_hog Reference.cv gray)) == 0).
  { rewrite Qsum_l1_normalize. apply mass_ratio_zero.
    unfold raw_hog. apply Qsum_histogram_zero_weights.
    apply Forall_ravel. intros i j. unfold gray, image.
    rewrite flat_frame_no_gradient. reflexivity. }
  split.
  { rewrite extract_face_features_stages.
    assert (Hs : crop_survives image (Reference.whole image) = true) by reflexivity.
    rewrite Hs. rewrite (prepare_nonempty _ _ (crop_survives_nonempty _ _ Hs)).
    reflexivity. }
  split; [unfold raw_lbp; now rewrite length_l1_normalize, length_np_histogram|].
  split; [unfold raw_gray; now rewrite length_l1_normalize, length_np_histogram|].
  split; [unfold raw_hog; now rewrite length_l1_normalize, length_np_histogram|].
  split; [unfold raw_hue; now rewrite length_l1_normalize, length_np_histogram|].
  split; [exact H0|].
  unfold near_one. rewrite H0. intros [H _]. apply H. reflexivity.
Qed.


(** ** The matcher of the handcrafted strategy *)

Ltac case_Qlt x y :=
  let E := fresh "E" in
  let H := fresh "H" in
  destruct (Qlt_bool x y) eqn:E;
  [pose proof (proj1 (Qlt_bool_iff x y) E) as H
  |pose proof (proj1 (Qlt_bool_false x y) E) as H].

Ltac cases_Qlt :=
  repeat match goal with
         | |- context [Qlt_bool ?a ?b] => case_Qlt a b
         end.

Lemma first_best_sound (scores : list Q) (i : nat) (best : Q) :
  first_best scores = Some (i, best) ->
  nth_error scores i = Some best
  /\ Forall (fun y => y <= best) scores
  /\ (forall j y, (j < i)%nat -> nth_error scores j = Some y -> y < best).
Proof.
  revert i best. induction scores as [|x rest IH]; intros i best; simpl; [discriminate|].
  destruct (first_best rest) as [[j y]|] eqn:E.
  - destruct (IH j y eq_refl) as (Hn & Hall & Hfirst).
    case_Qlt x y; intro Heq; injection Heq as <- <-.
    + split; [exact Hn|]. split.
      * constructor; [now apply Qlt_le_weak|exact Hall].
      * intros [|j'] z Hj Hz; simpl in Hz.
        -- injection Hz as <-. assumption.
        -- apply (Hfirst j'); [lia|assumption].
    + split; [reflexivity|]. split.
      * constructor; [apply Qle_refl|].
        eapply Forall_impl; [|exact Hall]. intros a Ha. simpl in Ha. lra.
      * intros j' z Hj. lia.
  - intro H. injection H as <- <-. split; [reflexivity|]. split.
    + constructor; [apply Qle_refl|]. destruct rest; [constructor|].
      simpl in E. destruct (first_best rest) as [[? ?]|]; [|discriminate].
      destruct (Qlt_bool q q0); discriminate.
    + intros j' z Hj. lia.
Qed.

Lemma first_best_none (scores : list Q) : first_best scores = None <-> scores = [].
Proof.
  destruct scores as [|x rest]; simpl; [tauto|].
  split; [|discriminate].
  destruct (first_best rest) as [[j y]|]; [|discriminate].
  destruct (Qlt_bool x y); discriminate.
Qed.

Lemma first_best_index (scores : list Q) (i : nat) (best : Q) :
  first_best scores = Some (i, best) -> (i < length scores)%nat.
Proof.
  intro H. apply first_best_sound in H. destruct H as (H & _).
  apply nth_error_Some. congruence.
Qed.

Lemma compare_faces_same_length (known probe : list Q) :
  length known = length probe ->
  face_processor_cv.compare_faces (Some known) (Some probe) =
  Ok (Qle_bool config.FACE_RECOGNITION_TOLERANCE (intersection_similarity known probe),
      intersection_similarity known probe).
Proof.
  intro H. unfold face_processor_cv.compare_faces, intersection_similarity.
  rewrite (np_minimum_same_length known probe H).
  rewrite (np_minimum_same_length known known eq_refl).
  cbn [bind]. now rewrite map2_Qmin_same.
Qed.

(** The scan of [identify_face], from any point of the gallery on. *)
Lemma scan_loop (probe : list Q) (gallery : list (list Q)) :
  Forall (fun known => length known = length probe) gallery ->
  forall (k : nat) (bi : Z) (bs : Q),
    for_each (face_processor_cv.scan probe) (combine (seq k (length gallery)) gallery) (bi, bs)
    = Ok (match first_best (map (fun known => intersection_similarity known probe) gallery) with
          | None => (bi, bs)
          | Some (j, y) => if Qlt_bool bs y then (Z.of_nat (k + j), y) else (bi, bs)
          end).
Proof.
  induction 1 as [|x rest Hx _ IH]; intros k bi bs; [reflexivity|].
  cbn [length seq combine for_each map first_best].
  unfold face_processor_cv.scan at 1. cbn [fst snd].
  rewrite (compare_faces_same_length x probe Hx). cbn [bind].
  set (sx := intersection_similarity x probe).
  destruct (first_best (map (fun known => intersection_similarity known probe) rest))
    as [[j y]|] eqn:E.
  - case_Qlt bs sx; cbn [bind]; rewrite IH; cases_Qlt;
      first [reflexivity | (do 2 f_equal; lia) | (exfalso; lra)].
  - case_Qlt bs sx; cbn [bind]; rewrite IH; cases_Qlt;
      first [reflexivity | (do 2 f_equal; lia) | (exfalso; lra)].
Qed.

Lemma index_nth {A : Type} (l : list A) (i : nat) (d : A) :
  (i < length l)%nat -> index l i = Ok (nth i l d).
Proof.
  intro H. unfold index. now rewrite (nth_error_nth' l d H).
Qed.

(** [extract_face_features] returns: nothing for a crop the size checks
    reject, 132 numbers otherwise. *)
Lemma extract_face_features_total (cv : Backend) (image : array2 bgr)
      (face_location : location) :
  exists probe,
    face_processor_cv.extract_face_features cv image face_location = Ok probe
    /\ (crop_survives image face_location = false -> probe = None)
    /\ (crop_survives image face_location = true
        -> exists f, probe = Some f /\ length f = 132%nat).
Proof.
  rewrite extract_face_features_stages.
  destruct (crop_survives image face_location) eqn:Hs.
  - rewrite (prepare_nonempty cv _ (crop_survives_nonempty _ _ Hs)). cbn [bind].
    eexists. split; [reflexivity|]. split; [discriminate|].
    intros _. eexists. split; [reflexivity|].
    rewrite !length_app, !length_l1_normalize.
    unfold raw_lbp, raw_gray, raw_hog, raw_hue. now rewrite !length_np_histogram.
  - exists None. split; [reflexivity|]. split; [reflexivity|discriminate].
Qed.

Lemma detect_faces_raises (cv : Backend) (image : array2 bgr) (e : exn) :
  face_processor_cv.detect_faces cv image = Raise e -> e = cv2_error.
Proof.
  unfold face_processor_cv.detect_faces, normalize_bgr, cvtColor_BGR2LAB, cvtColor_LAB2BGR,
    cvtColor_BGR2GRAY, cvtColor3.
  repeat (match goal with
          | |- context [if ?b then _ else _] => destruct b
          end; cbn [bind]); intro H; congruence.
Qed.

Lemma encode_face_result (cv : Backend) (image : array2 bgr)
      (face_location : option location) :
  match face_processor_cv.encode_face cv image face_location with
  | Ok (Some f) => length f = 132%nat
  | Ok None => True
  | Raise e => e = cv2_error /\ face_location = None
  end.
Proof.
  unfold face_processor_cv.encode_face.
  destruct face_location as [loc|].
  - destruct (extract_face_features_total cv image loc) as (p & Hp & Hn & Hs);
      rewrite Hp.
    destruct p as [f|]; [|exact I].
    destruct (crop_survives image loc); [|now discriminate Hn].
    destruct (Hs eq_refl) as (f' & Hf & Hl). injection Hf as Hf. congruence.
  - destruct (face_processor_cv.detect_faces cv image) as [locs|e] eqn:E; cbn [bind].
    + destruct locs as [|loc more]; [exact I|].
      destruct (extract_face_features_total cv image loc) as (p & Hp & Hn & Hs);
      rewrite Hp.
      destruct p as [f|]; [|exact I].
      destruct (crop_survives image loc); [|now discriminate Hn].
      destruct (Hs eq_refl) as (f' & Hf & Hl). injection Hf as Hf. congruence.
    + split; [|reflexivity]. now apply detect_faces_raises in E.
Qed.

(** [identify_face] is the matcher of the specification applied to the
    probe [encode_face] produces. *)
Lemma identify_face_matcher (cv : Backend) (self : face_processor_cv.FaceProcessorCV)
      (image : array2 bgr) (face_location : option location) :
  gallery_wf self ->
  face_processor_cv.identify_face cv self image face_location =
  match face_processor_cv.known_face_features self with
  | [] => Ok None
  | _ :: _ =>
      match face_processor_cv.encode_face cv image face_location with
      | Raise e => Raise e
      | Ok probe =>
          Ok (matcher_spec (face_processor_cv.known_face_features self)
                           (face_processor_cv.known_face_ids self) probe)
      end
  end.
Proof.
  intros [Hlen Hids]. unfold face_processor_cv.identify_face.
  destruct (face_processor_cv.known_face_features self) as [|k0 ks] eqn:Ef; [reflexivity|].
  pose proof (encode_face_result cv image face_location) as Hp.
  destruct (face_processor_cv.encode_face cv image face_location) as [[f|]|e];
    cbn [bind]; try reflexivity.
  unfold enumerate. rewrite scan_loop.
  2:{ eapply Forall_impl; [|exact Hlen]. intros a Ha. cbn beta in Ha. congruence. }
  unfold matcher_spec.
  destruct (first_best (map (fun known => intersection_similarity known f) (k0 :: ks)))
    as [[j y]|] eqn:E; cbn [bind].
  - pose proof (first_best_index _ _ _ E) as Hj. rewrite length_map, Hids in Hj.
    case_Qlt 0 y.
    + rewrite Nat.add_0_l.
      destruct (Z.leb_spec 0 (Z.of_nat j)); [|lia]. cbn [andb].
      destruct (Qle_bool config.FACE_RECOGNITION_TOLERANCE y); [|reflexivity].
      rewrite Nat2Z.id. rewrite (index_nth _ _ 0%Z Hj). reflexivity.
    + cbn [Z.leb Z.compare andb].
      destruct (Qle_bool config.FACE_RECOGNITION_TOLERANCE y) eqn:Et; [|reflexivity].
      apply Qle_bool_iff in Et. unfold config.FACE_RECOGNITION_TOLERANCE in Et. lra.
  - reflexivity.
Qed.


(** C4. With a well-formed gallery (what [load_known_faces] builds),
    [identify_face] returns the no-match value on an empty gallery and
    otherwise the result of the specification's matcher on the probe that
    [encode_face] extracts: a match exactly when the gallery is not empty,
    a probe was extracted and the best similarity of the full scan reaches
    [FACE_RECOGNITION_TOLERANCE]. The match names the first gallery entry
    that holds the best similarity; its confidence is that similarity and
    its distance is one minus it. With a face location given, extraction
    never raises. *)
Theorem identify_face_best_match (cv : Backend) (self : face_processor_cv.FaceProcessorCV)
        (image : array2 bgr) (face_location : option location) :
  gallery_wf self ->
  let features := face_processor_cv.known_face_features self in
  let ids := face_processor_cv.known_face_ids self in
  let result := face_processor_cv.identify_face cv self image face_location in
  (features = [] -> result = Ok None)
  /\ (features <> [] ->
      match face_processor_cv.encode_face cv image face_location with
      | Raise e => result = Raise e
      | Ok probe => result = Ok (matcher_spec features ids probe)
      end)
  /\ (forall m : MatchResult,
         result = Ok (Some m)
         <-> features <> []
             /\ exists probe i best,
                 face_processor_cv.encode_face cv image face_location = Ok (Some probe)
                 /\ first_best (map (fun known => intersection_similarity known probe) features)
                    = Some (i, best)
                 /\ config.FACE_RECOGNITION_TOLERANCE <= best
                 /\ m = mk_MatchResult (nth i ids 0%Z) best (1 - best))
  /\ (forall loc : location,
         exists probe, face_processor_cv.encode_face cv image (Some loc) = Ok probe)
  /\ (forall (scores : list Q) (i : nat) (best : Q),
         first_best scores = Some (i, best) ->
         nth_error scores i = Some best
         /\ Forall (fun y => y <= best) scores
         /\ (forall j y, (j < i)%nat -> nth_error scores j = Some y -> y < best)).
Proof.
  intros Hwf. cbv zeta.
  rewrite (identify_face_matcher cv self image face_location Hwf).
  destruct (face_processor_cv.known_face_features self) as [|k0 ks] eqn:Ef.
  { split; [reflexivity|]. split; [intro H; contradiction|].
    split.
    - intro m. split; [discriminate|]. intros [H _]. contradiction.
    - split; [|exact first_best_sound].
      intro loc. unfold face_processor_cv.encode_face.
      destruct (extract_face_features_total cv image loc) as (p & Hp & _). now exists p. }
  split; [discriminate|].
  split.
  { intros _. destruct (face_processor_cv.encode_face cv image face_location); reflexivity. }
  split.
  2:{ split; [|exact first_best_sound].
      intro loc. unfold face_processor_cv.encode_face.
      destruct (extract_face_features_total cv image loc) as (p & Hp & _). now exists p. }
  intro m.
  destruct (face_processor_cv.encode_face cv image face_location) as [[probe|]|e].
  - unfold matcher_spec.
    destruct (first_best (map (fun known => intersection_similarity known probe)
                              (k0 :: ks))) as [[i best]|] eqn:E.
    + destruct (Qle_bool config.FACE_RECOGNITION_TOLERANCE best) eqn:Et.
      * split.
        -- intro H. injection H as <-. split; [discriminate|].
           exists probe, i, best.
           split; [reflexivity|]. split; [exact E|].
           split; [now apply Qle_bool_iff|reflexivity].
        -- intros (_ & p & i' & b' & Hp & Hb & _ & ->).
           injection Hp as <-. rewrite E in Hb. injection Hb as <- <-. reflexivity.
      * split; [discriminate|].
        intros (_ & p & i' & b' & Hp & Hb & Ht & _).
        injection Hp as <-. rewrite E in Hb. injection Hb as <- <-.
        apply Qle_bool_iff in Ht. congruence.
    + split; [discriminate|].
      intros (_ & p & i' & b' & Hp & Hb & _). injection Hp as <-.
      rewrite E in Hb. discriminate.
  - split; [discriminate|]. intros (_ & p & i' & b' & Hp & _). discriminate.
  - split; [discriminate|]. intros (_ & p & i' & b' & Hp & _). discriminate.
Qed.

Lemma two_faces_wf : gallery_wf two_faces.
Proof.
  split; [|reflexivity]. repeat constructor.
Qed.

Lemma identify_face_best_match_witness :
  gallery_wf two_faces
  /\ (face_processor_cv.known_face_features two_faces <> [] ->
      match face_processor_cv.encode_face Reference.cv (Reference.ramp 80 80)
              (Some (Reference.whole (Reference.ramp 80 80))) with
      | Raise e =>
          face_processor_cv.identify_face Reference.cv two_faces (Reference.ramp 80 80)
            (Some (Reference.whole (Reference.ramp 80 80))) = Raise e
      | Ok probe =>
          face_processor_cv.identify_face Reference.cv two_faces (Reference.ramp 80 80)
            (Some (Reference.whole (Reference.ramp 80 80)))
          = Ok (matcher_spec (face_processor_cv.known_face_features two_faces)
                             (face_processor_cv.known_face_ids two_faces) probe)
      end).
Proof.
  split; [exact two_faces_wf|].
  exact (proj1 (proj2 (identify_face_best_match Reference.cv two_faces
                         (Reference.ramp 80 80)
                         (Some (Reference.whole (Reference.ramp 80 80))) two_faces_wf))).
Defined.

(** ** Confidence bounds *)

Lemma Qsum_map2_Qmin_le (known probe : list Q) :
  length known = length probe -> Qsum (map2 Qmin known probe) <= Qsum known.
Proof.
  revert probe. induction known as [|x known IH]; intros [|y probe] H;
    try discriminate; simpl; try apply Qle_refl.
  injection H as H. apply Qplus_le_compat; [apply Q.le_min_l|now apply IH].
Qed.

Lemma intersection_similarity_le_1 (known probe : list Q) :
  Forall (fun x => 0 <= x) known -> length known = length probe ->
  intersection_similarity known probe <= 1.
Proof.
  intros Hk Hl. unfold intersection_similarity.
  pose proof (Qsum_nonneg known Hk) as Hs.
  pose proof (Qsum_map2_Qmin_le known probe Hl) as Hi.
  pose proof eps_pos as He.
  apply Qle_shift_div_r; lra.
Qed.

Lemma matcher_spec_confidence (features : list (list Q)) (ids : list Z)
      (probe : option (list Q)) (m : MatchResult) :
  Forall (fun known => Forall (fun x => 0 <= x) known) features ->
  (forall f, probe = Some f -> Forall (fun known => length known = length f) features) ->
  matcher_spec features ids probe = Some m ->
  0 <= match_confidence m /\ match_confidence m <= 1.
Proof.
  intros Hpos Hlen. unfold matcher_spec.
  destruct probe as [f|]; [|discriminate].
  destruct (first_best (map (fun known => intersection_similarity known f) features))
    as [[i best]|] eqn:E; [|discriminate].
  destruct (Qle_bool config.FACE_RECOGNITION_TOLERANCE best) eqn:Et; [|discriminate].
  intro H. injection H as <-. cbn [match_confidence].
  apply Qle_bool_iff in Et. unfold config.FACE_RECOGNITION_TOLERANCE in Et.
  split; [lra|].
  apply first_best_sound in E. destruct E as (Hn & _).
  apply nth_error_In in Hn. apply in_map_iff in Hn. destruct Hn as (known & <- & Hin).
  rewrite Forall_forall in Hpos. specialize (Hlen f eq_refl). rewrite Forall_forall in Hlen.
  apply intersection_similarity_le_1; [now apply Hpos|now apply Hlen].
Qed.

Lemma dlib_face_distance_loop (cv : Backend) (f : list Q) (encs : list (list Q)) :
  forall (acc ds : list Q),
    for_each
      (fun acc known =>
         diff <- broadcast2 Qminus known f ;;
         Ok (acc ++ [np_sqrt cv (Qsum (map (fun d => d * d) diff))]))
      encs acc = Ok ds ->
    length ds = (length acc + length encs)%nat
    /\ (Forall (fun d => exists x, d = np_sqrt cv x) acc ->
        Forall (fun d => exists x, d = np_sqrt cv x) ds).
Proof.
  induction encs as [|k encs IH]; intros acc ds; cbn [for_each].
  - intro H. injection H as <-. split; [simpl; lia|trivial].
  - destruct (broadcast2 Qminus k f) as [diff|e]; cbn [bind]; [|discriminate].
    intro H. apply IH in H. destruct H as [Hl Hf]. split.
    + rewrite Hl, length_app. simpl. lia.
    + intro Ha. apply Hf. apply Forall_app. split; [assumption|].
      constructor; [|constructor]. eexists. reflexivity.
Qed.


Lemma argmin_from_bound (l : list Q) (i bi : nat) (best : Q) :
  (bi < i)%nat -> (argmin_from l i bi best < i + length l)%nat.
Proof.
  revert i bi best. induction l as [|x l IH]; intros i bi best H; simpl; [lia|].
  destruct (Qlt_bool x best).
  - specialize (IH (S i) i x). lia.
  - specialize (IH (S i) bi best). lia.
Qed.

Lemma np_argmin_bound (a : list Q) : a <> [] -> (np_argmin a < length a)%nat.
Proof.
  destruct a as [|x l]; [contradiction|]. intros _. simpl.
  pose proof (argmin_from_bound l 1 0 x). lia.
Qed.


(** ** Descriptors are non-negative histograms *)

Lemma Qsum_app (a b : list Q) : Qsum (a ++ b) == Qsum a + Qsum b.
Proof.
  induction a as [|x a IH]; simpl; [ring|]. rewrite IH. ring.
Qed.

Lemma weight_in_nonneg (b : nat) (kw : option nat * Q) : 0 <= snd kw -> 0 <= weight_in b kw.
Proof.
  intro H. unfold weight_in. destruct (fst kw) as [k|]; [|apply Qle_refl].
  destruct (k =? b)%nat; [exact H|apply Qle_refl].
Qed.

Lemma np_histogram_nonneg (a : list Q) (bins : nat) (lo hi : Q) (w : option (list Q)) :
  match w with
  | Some w => Forall (fun x => 0 <= x) w
  | None => True
  end ->
  Forall (fun x => 0 <= x) (np_histogram a bins lo hi w).
Proof.
  intro Hw. unfold np_histogram. apply Forall_map. apply Forall_forall. intros b _.
  apply Qsum_nonneg. apply Forall_map. apply Forall_map. apply Forall_forall.
  intros [v x] Hvx. apply weight_in_nonneg. cbn [snd fst].
  apply in_combine_r in Hvx. destruct w as [w|].
  - rewrite Forall_forall in Hw. now apply Hw.
  - apply repeat_spec in Hvx. subst x. discriminate.
Qed.

Lemma l1_normalize_nonneg (hist : list Q) :
  Forall (fun x => 0 <= x) hist -> Forall (fun x => 0 <= x) (l1_normalize hist).
Proof.
  intro H. pose proof (Qsum_nonneg hist H) as Hs. pose proof eps_pos as He.
  unfold l1_normalize. apply Forall_map. eapply Forall_impl; [|exact H].
  intros x Hx. cbn beta in Hx |- *. apply Qle_shift_div_l; [lra|]. rewrite Qmult_0_l. exact Hx.
Qed.

Lemma descriptor_nonneg (cv : Backend) (image : array2 bgr) (face_location : location) :
  (forall x, 0 <= np_sqrt cv x) ->
  Forall (fun x => 0 <= x) (descriptor cv image face_location).
Proof.
  intro Hsqrt. unfold descriptor. cbv zeta.
  repeat (apply Forall_app; split); apply l1_normalize_nonneg.
  - unfold raw_lbp. now apply np_histogram_nonneg.
  - unfold raw_gray. now apply np_histogram_nonneg.
  - unfold raw_hog. apply np_histogram_nonneg. apply Forall_ravel.
    intros i j. unfold gradient_magnitude. cbn [zip2d at2]. apply Hsqrt.
  - unfold raw_hue. now apply np_histogram_nonneg.
Qed.

Lemma length_descriptor (cv : Backend) (image : array2 bgr) (face_location : location) :
  length (descriptor cv image face_location) = 132%nat.
Proof.
  unfold descriptor. cbv zeta. rewrite !length_app, !length_l1_normalize.
  unfold raw_lbp, raw_gray, raw_hog, raw_hue. now rewrite !length_np_histogram.
Qed.

Lemma extract_face_features_descriptor (cv : Backend) (image : array2 bgr)
      (face_location : location) :
  crop_survives image face_location = true ->
  face_processor_cv.extract_face_features cv image face_location
  = Ok (Some (descriptor cv image face_location)).
Proof.
  intro Hs. rewrite extract_face_features_stages, Hs.
  now rewrite (prepare_nonempty cv _ (crop_survives_nonempty _ _ Hs)).
Qed.

(** The grey-level part alone gives a descriptor a mass of nearly 1. *)
Lemma descriptor_mass (cv : Backend) (image : array2 bgr) (face_location : location) :
  (forall x, 0 <= np_sqrt cv x) ->
  1 - 0.00001 <= Qsum (descriptor cv image face_location).
Proof.
  intro Hsqrt. pose proof (descriptor_nonneg cv image face_location Hsqrt) as Hpos.
  unfold descriptor in *. cbv zeta in *.
  set (gray := prepared_gray cv (clamped_crop image face_location)) in *.
  set (hsv := prepared_hsv cv (clamped_crop image face_location)) in *.
  apply Forall_app in Hpos. destruct Hpos as [H1 Hpos].
  apply Forall_app in Hpos. destruct Hpos as [H2 Hpos].
  apply Forall_app in Hpos. destruct Hpos as [H3 H4].
  apply Qsum_nonneg in H1, H3, H4.
  assert (Hg : near_one (Qsum (l1_normalize (raw_gray gray)))).
  { apply near_one_full_frame. apply Qsum_raw_gray. intros i j. apply uint8_range. }
  destruct Hg as [Hg _].
  rewrite !Qsum_app. lra.
Qed.

(** A face enrolled alone is recognised in the frame it was enrolled
    from. *)
Lemma identify_face_own_descriptor (cv : Backend) (image : array2 bgr)
      (face_location : location) (uid : Z) :
  crop_survives image face_location = true ->
  (forall x, 0 <= np_sqrt cv x) ->
  let own := descriptor cv image face_location in
  let s := intersection_similarity own own in
  face_processor_cv.identify_face cv
    (face_processor_cv.mk_FaceProcessorCV [own] [uid]) image (Some face_location)
  = Ok (Some (mk_MatchResult uid s (1 - s))).
Proof.
  intros Hs Hsqrt own s.
  rewrite identify_face_matcher.
  2:{ split; [|reflexivity]. constructor; [apply length_descriptor|constructor]. }
  cbn [face_processor_cv.known_face_features face_processor_cv.known_face_ids
       face_processor_cv.encode_face].
  rewrite (extract_face_features_descriptor cv image face_location Hs). fold own.
  unfold matcher_spec. cbn [map first_best]. fold s.
  assert (Ht : Qle_bool config.FACE_RECOGNITION_TOLERANCE s = true).
  { apply Qle_bool_iff. unfold s, intersection_similarity. rewrite map2_Qmin_same.
    pose proof (descriptor_mass cv image face_location Hsqrt) as Hm. fold own in Hm.
    unfold config.FACE_RECOGNITION_TOLERANCE.
    apply (Qle_trans _ (1 - 0.5)); [discriminate|].
    apply mass_ratio_close; [reflexivity|discriminate|]. unfold eps. lra. }
  rewrite Ht. reflexivity.
Qed.

(** C9. Every match [identify_face] returns has its confidence in
    [0, 1]: under the handcrafted strategy when the gallery is well formed
    and its vectors are non-negative histograms; under the Euclidean
    strategy, where the confidence is [max(0, 1 - distance/tolerance)], when
    the square root behind the distance is non-negative. The descriptors
    the extractor returns, which enrollment stores, are such histograms:
    132 non-negative numbers. *)
Theorem match_confidence_in_unit_interval :
  (forall (cv : Backend) (self : face_processor_cv.FaceProcessorCV) (image : array2 bgr)
          (face_location : option location),
      gallery_wf self ->
      Forall (fun known => Forall (fun x => 0 <= x) known)
             (face_processor_cv.known_face_features self) ->
      confidence_in_unit_interval
        (face_processor_cv.identify_face cv self image face_location))
  /\ (forall (cv : Backend) (self : face_processor.FaceProcessor) (image : array2 bgr)
             (face_location : option location),
         (forall x, 0 <= np_sqrt cv x) ->
         confidence_in_unit_interval
           (face_processor.identify_face cv self image face_location))
  /\ (forall (cv : Backend) (image : array2 bgr) (face_location : location) (f : list Q),
         (forall x, 0 <= np_sqrt cv x) ->
         face_processor_cv.extract_face_features cv image face_location = Ok (Some f) ->
         length f = 132%nat /\ Forall (fun x => 0 <= x) f).
Proof.
  unfold confidence_in_unit_interval. split; [|split].
  - intros cv self image oloc Hwf Hpos.
    rewrite (identify_face_matcher cv self image oloc Hwf).
    destruct (face_processor_cv.known_face_features self) as [|k0 ks] eqn:Ef; [exact I|].
    pose proof (encode_face_result cv image oloc) as Hp.
    destruct (face_processor_cv.encode_face cv image oloc) as [probe|e]; [|exact I].
    destruct (matcher_spec (k0 :: ks) (face_processor_cv.known_face_ids self) probe)
      as [m|] eqn:Em; [|exact I].
    apply (matcher_spec_confidence _ _ _ _ Hpos) in Em; [exact Em|].
    intros f ->. destruct Hwf as [Hlen _]. rewrite Ef in Hlen.
    eapply Forall_impl; [|exact Hlen]. intros a Ha. cbn beta in Ha. congruence.
  - intros cv self image oloc Hsqrt. unfold face_processor.identify_face.
    destruct (face_processor.known_face_encodings self) as [|k0 ks]; [exact I|].
    destruct (face_processor.encode_face cv image oloc) as [[fe|]|e]; cbn [bind];
      try exact I.
    destruct (face_processor.face_distance cv (k0 :: ks) fe) as [ds|e] eqn:Ed; cbn [bind];
      [|exact I].
    destruct (length ds =? 0)%nat; [exact I|].
    destruct (index ds (np_argmin ds)) as [d|e] eqn:Ei; cbn [bind]; [|exact I].
    destruct (Qle_bool d config.FACE_RECOGNITION_TOLERANCE) eqn:Et; [|exact I].
    destruct (index (face_processor.known_face_ids self) (np_argmin ds)) as [uid|e];
      cbn [bind]; [|exact I].
    cbn [match_confidence].
    assert (Hd : 0 <= d).
    { unfold face_processor.face_distance in Ed.
      apply dlib_face_distance_loop in Ed. destruct Ed as [_ Hf].
      specialize (Hf (Forall_nil _)). rewrite Forall_forall in Hf.
      unfold index in Ei. destruct (nth_error ds (np_argmin ds)) as [d'|] eqn:En;
        [|discriminate].
      injection Ei as ->. apply nth_error_In in En.
      destruct (Hf _ En) as [x ->]. apply Hsqrt. }
    split; [apply Q.le_max_l|].
    apply Q.max_lub; [discriminate|].
    assert (0 <= d / config.FACE_RECOGNITION_TOLERANCE).
    { apply Qle_shift_div_l; [reflexivity|]. lra. }
    lra.
  - intros cv image loc f Hsqrt H.
    destruct (crop_survives image loc) eqn:Hs.
    + rewrite (extract_face_features_descriptor cv image loc Hs) in H.
      injection H as <-. split.
      * apply length_descriptor.
      * now apply descriptor_nonneg.
    + rewrite extract_face_features_stages, Hs in H. discriminate.
Qed.

Lemma Reference_sqrt_nonneg (x : Q) : 0 <= np_sqrt Reference.cv x.
Proof.
  cbn [np_sqrt Reference.cv]. unfold Reference.sqrt. rewrite Qred_correct.
  apply Qle_shift_div_l; [reflexivity|].
  rewrite Qmult_0_l. change 0 with (inject_Z 0). rewrite <- Zle_Qle. apply Z.sqrt_nonneg.
Qed.

Lemma ramp_enrolled_wf : gallery_wf ramp_enrolled.
Proof.
  split; [|reflexivity]. constructor; [apply length_descriptor|constructor].
Qed.

Lemma ramp_enrolled_nonneg :
  Forall (fun known => Forall (fun x => 0 <= x) known)
         (face_processor_cv.known_face_features ramp_enrolled).
Proof.
  constructor; [|constructor]. apply descriptor_nonneg. exact Reference_sqrt_nonneg.
Qed.

Lemma ramp_enrolled_match :
  face_processor_cv.identify_face Reference.cv ramp_enrolled (Reference.ramp 80 80)
    (Some (Reference.whole (Reference.ramp 80 80)))
  = Ok (Some ramp_match).
Proof.
  exact (identify_face_own_descriptor Reference.cv (Reference.ramp 80 80)
           (Reference.whole (Reference.ramp 80 80)) 7%Z eq_refl Reference_sqrt_nonneg).
Qed.

Lemma two_embeddings_match :
  face_processor.identify_face Reference.cv two_embeddings (Reference.flat 80 80 128) None
  = Ok (Some (mk_MatchResult 9 (2390 # 2500) (11 # 500))).
Proof. vm_compute. reflexivity. Qed.

Lemma match_confidence_in_unit_interval_witness :
  (face_processor_cv.identify_face Reference.cv ramp_enrolled (Reference.ramp 80 80)
     (Some (Reference.whole (Reference.ramp 80 80)))
   = Ok (Some ramp_match)
   /\ 0 <= match_confidence ramp_match /\ match_confidence ramp_match <= 1)
  /\ (face_processor.identify_face Reference.cv two_embeddings (Reference.flat 80 80 128) None
      = Ok (Some (mk_MatchResult 9 (2390 # 2500) (11 # 500)))
      /\ 0 <= match_confidence (mk_MatchResult 9 (2390 # 2500) (11 # 500))
      /\ match_confidence (mk_MatchResult 9 (2390 # 2500) (11 # 500)) <= 1).
Proof.
  split.
  - split; [exact ramp_enrolled_match|].
    pose proof (proj1 match_confidence_in_unit_interval Reference.cv ramp_enrolled
                  (Reference.ramp 80 80) (Some (Reference.whole (Reference.ramp 80 80)))
                  ramp_enrolled_wf ramp_enrolled_nonneg) as H.
    rewrite ramp_enrolled_match in H. exact H.
  - split; [exact two_embeddings_match|].
    pose proof (proj1 (proj2 match_confidence_in_unit_interval) Reference.cv two_embeddings
                  (Reference.flat 80 80 128) None Reference_sqrt_nonneg) as H.
    rewrite two_embeddings_match in H. exact H.
Defined.

(** ** The two gallery lists *)











(** C10, refuted as stated. A dict without the key ['id'] whose buffer
    has the expected size leaves its vector in the gallery and no identity:
    the vector is appended, then [user['id']] raises [KeyError], which the
    [except] of the loop swallows. After two such users, the second with
    the identity 2, both engines hold two vectors and the one identity 2,
    now at position 0. With the dlib engine holding the vector of a single
    such user, [identify_face] on a frame that matches it raises
    [IndexError]. *)
Lemma load_known_faces_loses_identity :
  (exists v1 v2 : list Q,
      face_processor_cv.load_known_faces face_processor_cv.init anonymous_users
      = Ok (face_processor_cv.mk_FaceProcessorCV [v1; v2] [2%Z]))
  /\ (exists e1 e2 : list Q,
         face_processor.load_known_faces face_processor.init anonymous_embeddings
         = Ok (face_processor.mk_FaceProcessor [e1; e2] [2%Z]))
  /\ (exists e1 : list Q,
         face_processor.load_known_faces face_processor.init [anonymous_embedding]
         = Ok (face_processor.mk_FaceProcessor [e1] [])
         /\ face_processor.identify_face Reference.cv
              (face_processor.mk_FaceProcessor [e1] []) (Reference.flat 80 80 0) None
            = Raise IndexError).
Proof.
  split; [|split].
  - do 2 eexists. rewrite cv_load_known_faces. reflexivity.
  - do 2 eexists. rewrite dlib_load_known_faces. reflexivity.
  - eexists. split.
    + rewrite dlib_load_known_faces. reflexivity.
    + vm_compute. reflexivity.
Qed.






(** ** The two implementations keep the laws of the interface *)

Lemma cv_identify_in_gallery (cv : Backend) (self : face_processor_cv.FaceProcessorCV)
      (image : array2 bgr) (loc : option location) (m : MatchResult) :
  face_processor_cv.identify_face cv self image loc = Ok (Some m) ->
  In (user_id m) (face_processor_cv.known_face_ids self).
Proof.
  unfold face_processor_cv.identify_face.
  destruct (face_processor_cv.known_face_features self); [discriminate|].
  destruct (face_processor_cv.encode_face cv image loc) as [[f|]|e]; cbn [bind];
    try discriminate.
  destruct (for_each _ _ _) as [[bi bs]|e]; cbn [bind]; [|discriminate].
  destruct (_ && _); [|discriminate].
  unfold index.
  destruct (nth_error (face_processor_cv.known_face_ids self) (Z.to_nat bi)) as [uid|] eqn:E;
    cbn [bind]; [|discriminate].
  intro H. injection H as <-. cbn [user_id]. now apply nth_error_In in E.
Qed.

Lemma dlib_identify_in_gallery (cv : Backend) (self : face_processor.FaceProcessor)
      (image : array2 bgr) (loc : option location) (m : MatchResult) :
  face_processor.identify_face cv self image loc = Ok (Some m) ->
  In (user_id m) (face_processor.known_face_ids self).
Proof.
  unfold face_processor.identify_face.
  destruct (face_processor.known_face_encodings self); [discriminate|].
  destruct (face_processor.encode_face cv image loc) as [[f|]|e]; cbn [bind];
    try discriminate.
  destruct (face_processor.face_distance cv _ f) as [ds|e]; cbn [bind]; [|discriminate].
  destruct (length ds =? 0)%nat; [discriminate|].
  destruct (index ds (np_argmin ds)) as [d|e]; cbn [bind]; [|discriminate].
  destruct (Qle_bool d config.FACE_RECOGNITION_TOLERANCE); [|discriminate].
  unfold index.
  destruct (nth_error (face_processor.known_face_ids self) (np_argmin ds)) as [uid|] eqn:E;
    cbn [bind]; [|discriminate].
  intro H. injection H as <-. cbn [user_id]. now apply nth_error_In in E.
Qed.

Lemma incl_ids_of_filter (p : user_dict -> bool) (users : list user_dict) :
  incl (ids_of (filter p users)) (ids_of users).
Proof.
  intros x Hx. unfold ids_of in *. apply in_flat_map in Hx. destruct Hx as (u & Hu & Hx).
  apply in_flat_map. exists u. split; [|exact Hx]. apply filter_In in Hu. apply Hu.
Qed.

Lemma ids_of_map {A : Type} (f : A -> Z) (g : A -> option (list Byte.byte)) (l : list A) :
  ids_of (map (fun a => mk_user_dict (Some (f a)) (g a)) l) = map f l.
Proof.
  induction l as [|a l IH]; [reflexivity|].
  cbn [map ids_of flat_map id_if_any id app]. f_equal. exact IH.
Qed.

Lemma cv_api_laws (cv : Backend) : FaceProcessorLaws (cv_api cv).
Proof.
  split.
  - intros p p' img lm r. cbn [api_check_liveness api_gallery_ids cv_api].
    destruct (face_processor_cv.check_liveness cv img lm); cbn [bind]; [|discriminate].
    intro H. now injection H as _ <-.
  - intros p image loc m. apply cv_identify_in_gallery.
  - intros p p' users. cbn [api_load_known_faces api_gallery_ids cv_api].
    rewrite cv_load_known_faces. intro H. injection H as <-. apply incl_ids_of_filter.
Qed.

Lemma dlib_api_laws (cv : Backend) : FaceProcessorLaws (dlib_api cv).
Proof.
  split.
  - intros p p' img lm r. cbn [api_check_liveness api_gallery_ids dlib_api].
    destruct (face_processor.check_liveness cv (snd p) img lm) as [[r' sd]|]; cbn [bind];
      [|discriminate].
    intro H. now injection H as _ <-.
  - intros p image loc m. apply dlib_identify_in_gallery.
  - intros p p' users. cbn [api_load_known_faces api_gallery_ids dlib_api].
    rewrite dlib_load_known_faces. cbn [bind]. intro H. injection H as <-.
    apply incl_ids_of_filter.
Qed.

Lemma double_api_laws : FaceProcessorLaws double_api.
Proof.
  split.
  - intros p p' img lm r H. cbn in H. now injection H as _ <-.
  - intros [|uid p] image loc m H; cbn in H; [discriminate|].
    injection H as <-. now left.
  - intros p p' users H. cbn in H. injection H as <-. apply incl_refl.
Qed.

(** ** The enrollment guard *)

Section Enrollment.
Context {P : Type} {api : FaceProcessorAPI P} {laws : FaceProcessorLaws api}.

Import main.

Lemma quiet_ret {A : Type} (a : A) : quiet (ret a).
Proof. intros s r s1 H. injection H as _ <-. now split. Qed.

Lemma quiet_raise {A : Type} (status : Z) (d : detail) : quiet (@raise P A status d).
Proof. intros s r s1 H. injection H as _ <-. now split. Qed.

Lemma quiet_call {A : Type} (x : result exn A) : quiet (call x).
Proof. intros s r s1. unfold call. destruct x; intro H; injection H as _ <-; now split. Qed.

Lemma quiet_get_db : quiet get_db.
Proof. intros s r s1 H. injection H as _ <-. now split. Qed.

Lemma quiet_get_fp : quiet get_fp.
Proof. intros s r s1 H. injection H as _ <-. now split. Qed.

Lemma quiet_bind {A B : Type} (m : M A) (k : A -> M B) :
  quiet m -> (forall a, quiet (k a)) -> quiet (mbind m k).
Proof.
  intros Hm Hk s r s2. unfold mbind. destruct (m s) as [[a|e] s1] eqn:E.
  - intro H. destruct (Hm _ _ _ E) as [H1 H2]. destruct (Hk a _ _ _ H) as [H3 H4].
    split; congruence.
  - intro H. injection H as _ <-. exact (Hm _ _ _ E).
Qed.

Lemma quiet_check_liveness (img : option ndarray) (lm : option landmarks) :
  quiet (call_fp (fun fp => api_check_liveness fp img lm)).
Proof.
  intros s r s1. unfold call_fp.
  destruct (api_check_liveness (app_fp s) img lm) as [[res p]|e] eqn:E;
    intro H; injection H as _ <-.
  - split; [reflexivity|]. cbn [app_fp]. now apply check_liveness_keeps_gallery in E.
  - now split.
Qed.

Ltac quiet_steps :=
  repeat first
    [ apply quiet_ret | apply quiet_raise | apply quiet_call | apply quiet_get_db
    | apply quiet_get_fp | apply quiet_check_liveness
    | apply quiet_bind; [|intro]
    | match goal with
      | |- quiet (match ?x with _ => _ end) => destruct x
      end ].

Lemma quiet_enrollment_probe (req : Request) : quiet (enrollment_probe req).
Proof. unfold enrollment_probe. quiet_steps. Qed.

Lemma quiet_duplicate_guard (image : array2 bgr) (loc : location) :
  quiet (duplicate_guard image loc).
Proof. unfold duplicate_guard. quiet_steps. Qed.

(** What the duplicate check does, by the outcome of the matcher. *)
Lemma duplicate_guard_cases (image : array2 bgr) (loc : location) (s : App P) :
  duplicate_guard image loc s =
  match api_identify_face (app_fp s) image (Some loc) with
  | Raise e => (Raise (mk_HTTPException 500 (InternalError e)), s)
  | Ok None => (Ok tt, s)
  | Ok (Some m) =>
      if Qle_bool 0.7 (match_confidence m)
      then match UserOperations.get_user_by_id (app_db s) (user_id m) with
           | Some u =>
               (Raise (mk_HTTPException 400
                         (FaceAlreadyRegistered (User_name u) (User_employee_id u))), s)
           | None => (Ok tt, s)
           end
      else (Ok tt, s)
  end.
Proof.
  unfold duplicate_guard, mbind, get_db, get_fp, call.
  destruct (api_identify_face (app_fp s) image (Some loc)) as [[m|]|e]; try reflexivity.
  destruct (Qle_bool 0.7 (match_confidence m)); [|reflexivity].
  destruct (UserOperations.get_user_by_id (app_db s) (user_id m)); reflexivity.
Qed.

Lemma enroll_never_duplicate (req : Request) (spoof : LivenessResult) (enc : list Q)
      (s : App P) (name employee_id : string) :
  fst (enroll req spoof enc s)
  <> Raise (mk_HTTPException 400 (FaceAlreadyRegistered name employee_id)).
Proof.
  unfold enroll, mbind, load_known_faces, ret. cbn.
  destruct (api_load_known_faces _ _); cbn; discriminate.
Qed.

Lemma next_id_above (db : table) (u : User) :
  In u db -> (User_id u < UserOperations.next_id db)%Z.
Proof.
  unfold UserOperations.next_id. induction db as [|x db IH]; [contradiction|].
  intros [->|H]; cbn [map fold_right]; [lia|]. specialize (IH H). lia.
Qed.

Lemma next_id_fresh (db : table) : ~ In (UserOperations.next_id db) (map User_id db).
Proof.
  intro H. apply in_map_iff in H. destruct H as (u & Hu & Hin).
  apply next_id_above in Hin. lia.
Qed.

Lemma get_user_by_id_registered (db : table) (uid : Z) :
  In uid (map User_id db) -> exists u, UserOperations.get_user_by_id db uid = Some u.
Proof.
  intro H. apply in_map_iff in H. destruct H as (u & Hu & Hin).
  unfold UserOperations.get_user_by_id.
  destruct (find (fun u0 => (User_id u0 =? uid)%Z) db) as [u'|] eqn:E; [now exists u'|].
  exfalso. apply (find_none _ _ E) in Hin. cbn beta in Hin. lia.
Qed.

(** C8. Take an enrollment request that gets as far as a face encoding,
    in a state whose gallery names registered users only. The duplicate
    check then runs the matcher on the gallery as it stood before the
    request: the table and the gallery identities are unchanged and the
    identity the new row would get is not in the gallery. If the matcher
    returns a match of confidence at least 0.7, the request is rejected
    with status 400 and the name and employee id of the matched user;
    and it is rejected that way only if the matcher returned such a
    match. *)
Theorem duplicate_guard_rejects (req : Request) (s s1 : App P) (image : array2 bgr)
        (loc : location) (spoof : LivenessResult) (enc : list Q) :
  synced s ->
  enrollment_probe req s = (Ok (image, loc, spoof, enc), s1) ->
  app_db s1 = app_db s
  /\ api_gallery_ids (app_fp s1) = api_gallery_ids (app_fp s)
  /\ ~ In (UserOperations.next_id (app_db s)) (api_gallery_ids (app_fp s1))
  /\ (forall m : MatchResult,
         api_identify_face (app_fp s1) image (Some loc) = Ok (Some m) ->
         0.7 <= match_confidence m ->
         exists u : User,
           UserOperations.get_user_by_id (app_db s) (user_id m) = Some u
           /\ register_user req s
              = (Raise (mk_HTTPException 400
                          (FaceAlreadyRegistered (User_name u) (User_employee_id u))), s1))
  /\ (forall name employee_id : string,
         fst (register_user req s)
         = Raise (mk_HTTPException 400 (FaceAlreadyRegistered name employee_id)) ->
         exists m : MatchResult,
           api_identify_face (app_fp s1) image (Some loc) = Ok (Some m)
           /\ 0.7 <= match_confidence m).
Proof.
  intros Hsync Hprobe.
  destruct (quiet_enrollment_probe req _ _ _ Hprobe) as [Hdb Hids].
  assert (Hreg : register_user req s
                 = mbind (duplicate_guard image loc) (fun _ => enroll req spoof enc) s1).
  { unfold register_user. unfold mbind at 1. rewrite Hprobe. reflexivity. }
  split; [exact Hdb|]. split; [exact Hids|]. split.
  { rewrite Hids. intro H. apply Hsync in H. now apply next_id_fresh in H. }
  split.
  - intros m Hm Hc.
    assert (Hin : In (user_id m) (map User_id (app_db s))).
    { apply Hsync. rewrite <- Hids. now apply identify_in_gallery in Hm. }
    destruct (get_user_by_id_registered _ _ Hin) as [u Hu].
    exists u. split; [exact Hu|].
    rewrite Hreg. unfold mbind. rewrite duplicate_guard_cases, Hm.
    apply Qle_bool_iff in Hc. rewrite Hc, Hdb, Hu. reflexivity.
  - intros name eid. rewrite Hreg. unfold mbind. rewrite duplicate_guard_cases.
    destruct (api_identify_face (app_fp s1) image (Some loc)) as [[m|]|e].
    + destruct (Qle_bool 0.7 (match_confidence m)) eqn:Ec.
      * intros _. exists m. split; [reflexivity|]. now apply Qle_bool_iff.
      * intro H. now apply enroll_never_duplicate in H.
    + intro H. now apply enroll_never_duplicate in H.
    + cbn [fst]. discriminate.
Qed.

(** The hypothesis on the state is an invariant of the application:
    [load_known_faces] establishes it and [register_user] keeps it. *)
Lemma user_data_ids (db : table) : incl (ids_of (user_data db)) (map User_id db).
Proof.
  unfold user_data, UserOperations.get_all_active_users. rewrite ids_of_map.
  intros x Hx. apply in_map_iff in Hx. destruct Hx as (u & <- & Hu).
  apply filter_In in Hu. destruct Hu as [Hu _]. apply filter_In in Hu.
  apply in_map. apply Hu.
Qed.

Lemma load_known_faces_synced (s s' : App P) :
  load_known_faces s = (Ok tt, s') -> synced s'.
Proof.
  unfold load_known_faces.
  destruct (api_load_known_faces (app_fp s) (user_data (app_db s))) as [p|e] eqn:E;
    [|discriminate].
  intro H. injection H as <-. unfold synced. cbn [app_fp app_db].
  apply load_keeps_given_ids in E.
  intros x Hx. apply user_data_ids. now apply E.
Qed.

Lemma quiet_synced (s s1 : App P) :
  app_db s1 = app_db s /\ api_gallery_ids (app_fp s1) = api_gallery_ids (app_fp s) ->
  synced s -> synced s1.
Proof. unfold synced. intros [-> ->]. trivial. Qed.

Lemma register_user_synced (req : Request) (s s' : App P)
      (r : result HTTPException Response) :
  synced s -> register_user req s = (r, s') -> synced s'.
Proof.
  intros Hs. unfold register_user. unfold mbind at 1.
  destruct (enrollment_probe req s) as [[[[[image loc] spoof] enc]|e] s1] eqn:E1.
  2:{ intro H. injection H as _ <-.
      exact (quiet_synced _ _ (quiet_enrollment_probe req _ _ _ E1) Hs). }
  pose proof (quiet_synced _ _ (quiet_enrollment_probe req _ _ _ E1) Hs) as Hs1.
  unfold mbind at 1.
  destruct (duplicate_guard image loc s1) as [[[]|e] s2] eqn:E2.
  2:{ intro H. injection H as _ <-.
      exact (quiet_synced _ _ (quiet_duplicate_guard image loc _ _ _ E2) Hs1). }
  pose proof (quiet_synced _ _ (quiet_duplicate_guard image loc _ _ _ E2) Hs1) as Hs2.
  unfold enroll, mbind, ret. cbn [UserOperations.create_user].
  destruct (load_known_faces _) as [[[]|e] s3] eqn:E3.
  - intro H. injection H as _ <-. exact (load_known_faces_synced _ _ E3).
  - intro H. injection H as _ <-. unfold load_known_faces in E3. cbn [app_db app_fp] in E3.
    destruct (api_load_known_faces _ _); [discriminate|]. injection E3 as _ <-.
    unfold synced in *. cbn [app_db app_fp]. intros x Hx. rewrite map_app.
    apply in_or_app. left. now apply Hs2.
Qed.

End Enrollment.

Lemma one_employee_synced : @main.synced (list Z) double_api one_employee.
Proof. intros x [<-|[]]. left. reflexivity. Qed.

Lemma duplicate_guard_rejects_witness :
  @main.synced (list Z) double_api one_employee
  /\ @main.enrollment_probe (list Z) double_api newcomer one_employee
     = (Ok (Reference.flat 80 80 128, Reference.whole (Reference.flat 80 80 128),
            face_processor_cv.default_live, repeat (1 # 33) 132), one_employee)
  /\ @main.register_user (list Z) double_api newcomer one_employee
     = (Raise (main.mk_HTTPException 400 (main.FaceAlreadyRegistered "Ann" "E1")),
        one_employee).
Proof.
  split; [exact one_employee_synced|]. split; [reflexivity|].
  destruct (@duplicate_guard_rejects (list Z) double_api double_api_laws
              newcomer one_employee one_employee
              (Reference.flat 80 80 128) (Reference.whole (Reference.flat 80 80 128))
              face_processor_cv.default_live (repeat (1 # 33) 132)
              one_employee_synced eq_refl)
    as (_ & _ & _ & Hreject & _).
  destruct (Hreject (mk_MatchResult 1 0.9 0.1) eq_refl) as (u & Hu & Hr).
  - discriminate.
  - injection Hu as <-. exact Hr.
Defined.

(** * Further properties of the engine *)

(** ** Face regions *)

Lemma slice2_window {A : Type} (image : array2 A) (t b l r : Z) :
  (0 <= t <= Z.of_nat (rows image))%Z -> (0 <= b <= Z.of_nat (rows image))%Z ->
  (0 <= l <= Z.of_nat (cols image))%Z -> (0 <= r <= Z.of_nat (cols image))%Z ->
  slice2 image t b l r
  = window image (Z.to_nat t) (Z.to_nat l) (Z.to_nat (b - t)) (Z.to_nat (r - l)).
Proof.
  intros Ht Hb Hl Hr. unfold slice2, window.
  rewrite !slice_bound_id by lia. reflexivity.
Qed.

(** X1. For a face box inside the frame, [extract_face_region] returns
    the box grown on each side by a fifth of its height, respectively
    width (rounded down), and clipped to the frame: a window of the frame
    that holds every pixel of the box and never more than the frame. *)
Theorem extract_face_region_margin {A : Type} (image : array2 A)
        (top right_ bottom left_ : Z) :
  (0 <= top <= bottom)%Z -> (bottom <= Z.of_nat (rows image))%Z ->
  (0 <= left_ <= right_)%Z -> (right_ <= Z.of_nat (cols image))%Z ->
  let t := Z.max 0 (top - (bottom - top) / 5)%Z in
  let b := Z.min (Z.of_nat (rows image)) (bottom + (bottom - top) / 5)%Z in
  let l := Z.max 0 (left_ - (right_ - left_) / 5)%Z in
  let r := Z.min (Z.of_nat (cols image)) (right_ + (right_ - left_) / 5)%Z in
  let region := extract_face_region image (top, right_, bottom, left_) in
  region = window image (Z.to_nat t) (Z.to_nat l) (Z.to_nat (b - t)) (Z.to_nat (r - l))
  /\ (t <= top)%Z /\ (bottom <= b)%Z /\ (l <= left_)%Z /\ (right_ <= r)%Z
  /\ (bottom - top <= Z.of_nat (rows region) <= Z.of_nat (rows image))%Z
  /\ (right_ - left_ <= Z.of_nat (cols region) <= Z.of_nat (cols image))%Z
  /\ (forall i j : nat,
         (top <= Z.of_nat i < bottom)%Z -> (left_ <= Z.of_nat j < right_)%Z ->
         at2 image i j = at2 region (i - Z.to_nat t) (j - Z.to_nat l)).
Proof.
  intros Ht Hb Hl Hr t b l r region.
  assert (Hmh : (0 <= (bottom - top) / 5)%Z) by (apply Z.div_pos; lia).
  assert (Hmw : (0 <= (right_ - left_) / 5)%Z) by (apply Z.div_pos; lia).
  assert (Hregion : region
                    = window image (Z.to_nat t) (Z.to_nat l)
                             (Z.to_nat (b - t)) (Z.to_nat (r - l))).
  { unfold region, extract_face_region.
    rewrite !Z.quot_div_nonneg by lia.
    apply slice2_window; unfold t, b, l, r; lia. }
  split; [exact Hregion|].
  rewrite Hregion. cbn [window rows cols at2].
  unfold t, b, l, r.
  repeat split; try lia.
  intros i j Hi Hj. f_equal; lia.
Qed.

Lemma extract_face_region_margin_witness :
  let image := Reference.flat 80 80 128 in
  let region := extract_face_region image (10, 60, 60, 10)%Z in
  region = window image (Z.to_nat (Z.max 0 (10 - (60 - 10) / 5)))
                  (Z.to_nat (Z.max 0 (10 - (60 - 10) / 5)))
                  (Z.to_nat (Z.min (Z.of_nat (rows image)) (60 + (60 - 10) / 5)
                             - Z.max 0 (10 - (60 - 10) / 5)))
                  (Z.to_nat (Z.min (Z.of_nat (cols image)) (60 + (60 - 10) / 5)
                             - Z.max 0 (10 - (60 - 10) / 5)))
  /\ (60 - 10 <= Z.of_nat (rows region) <= Z.of_nat (rows image))%Z.
Proof.
  pose proof (extract_face_region_margin (Reference.flat 80 80 128) 10 60 60 10) as H.
  cbv zeta in H. cbn [rows cols Reference.flat] in H.
  destruct H as (H1 & _ & _ & _ & _ & H2 & _); try lia.
  split; [exact H1|exact H2].
Defined.

(** X2. A face box that lies above the frame by more than its margin
    does not give an empty region: its lower bound is negative, and the
    slice counts a negative bound from the last row. The region then
    starts at the first row of the frame and holds all rows but the last
    [-(bottom + margin)] ones. *)
Theorem extract_face_region_box_above_frame {A : Type} (image : array2 A)
        (top right_ bottom left_ : Z) :
  (top <= bottom)%Z ->
  (bottom + Z.quot (bottom - top) 5 < 0)%Z ->
  (0 <= left_ <= right_)%Z -> (right_ <= Z.of_nat (cols image))%Z ->
  let l := Z.max 0 (left_ - (right_ - left_) / 5)%Z in
  let r := Z.min (Z.of_nat (cols image)) (right_ + (right_ - left_) / 5)%Z in
  let kept := Z.max 0 (Z.of_nat (rows image) + (bottom + Z.quot (bottom - top) 5))%Z in
  extract_face_region image (top, right_, bottom, left_)
  = window image 0 (Z.to_nat l) (Z.to_nat kept) (Z.to_nat (r - l)).
Proof.
  intros Htb Hneg Hl Hr l r kept.
  assert (Hmw : (0 <= (right_ - left_) / 5)%Z) by (apply Z.div_pos; lia).
  assert (Hmh : (0 <= Z.quot (bottom - top) 5)%Z) by (apply Z.quot_pos; lia).
  unfold extract_face_region.
  rewrite (Z.quot_div_nonneg (right_ - left_) 5) by lia.
  fold l r.
  set (mh := Z.quot (bottom - top) 5) in *.
  unfold slice2, window.
  assert (E1 : slice_bound (Z.of_nat (rows image)) (Z.max 0 (top - mh)) = 0%Z).
  { unfold slice_bound. destruct (Z.ltb_spec (Z.max 0 (top - mh)) 0); lia. }
  assert (E2 : slice_bound (Z.of_nat (rows image))
                 (Z.min (Z.of_nat (rows image)) (bottom + mh)) = kept).
  { unfold slice_bound, kept.
    destruct (Z.ltb_spec (Z.min (Z.of_nat (rows image)) (bottom + mh)) 0); lia. }
  rewrite E1, E2, !slice_bound_id by (unfold l, r; lia).
  rewrite Z.sub_0_r. reflexivity.
Qed.

Lemma extract_face_region_box_above_frame_witness :
  extract_face_region (Reference.flat 80 80 128) (-20, 60, -5, 10)%Z
  = window (Reference.flat 80 80 128) 0 0 78 70.
Proof.
  exact (extract_face_region_box_above_frame (Reference.flat 80 80 128) (-20) 60 (-5) 10
           ltac:(lia) ltac:(vm_compute; reflexivity) ltac:(lia) ltac:(cbn; lia)).
Defined.

(** ** Haar detections *)

Lemma haar_loop (rects : list face_processor_cv.rect) (faces : list location) :
  fold_left
    (fun faces (r : face_processor_cv.rect) =>
       let '(x, y, w, h) := r in
       faces ++ [(y, (x + w)%Z, (y + h)%Z, x)])
    rects faces
  = faces ++ map (fun r : face_processor_cv.rect =>
                    let '(x, y, w, h) := r in (y, (x + w)%Z, (y + h)%Z, x)) rects.
Proof.
  revert faces. induction rects as [|[[[x y] w] h] rects IH]; intro faces; simpl.
  - now rewrite app_nil_r.
  - rewrite IH, <- app_assoc. reflexivity.
Qed.

Lemma inside_frame_crop (image : array2 bgr) (x y w h : Z) :
  inside_frame image (x, y, w, h) ->
  crop_survives image (y, (x + w)%Z, (y + h)%Z, x) = true
  /\ clamped_crop image (y, (x + w)%Z, (y + h)%Z, x)
     = window image (Z.to_nat y) (Z.to_nat x) (Z.to_nat h) (Z.to_nat w).
Proof.
  unfold inside_frame. intros (Hx & Hy & Hw & Hh & Hr & Hb).
  unfold crop_survives, clamped_crop.
  replace (Z.max 0 (Z.min y (Z.of_nat (rows image) - 1))) with y by lia.
  replace (Z.max 0 (Z.min (y + h) (Z.of_nat (rows image)))) with (y + h)%Z by lia.
  replace (Z.max 0 (Z.min x (Z.of_nat (cols image) - 1))) with x by lia.
  replace (Z.max 0 (Z.min (x + w) (Z.of_nat (cols image)))) with (x + w)%Z by lia.
  split.
  - rewrite !andb_true_iff, !Z.ltb_lt, !Z.leb_le. lia.
  - rewrite slice2_window by lia.
    now replace (y + h - y)%Z with h by lia; replace (x + w - x)%Z with w by lia.
Qed.

(** X3. [_detect_faces_haar] turns each rectangle [(x, y, w, h)] of the
    cascade into the box [(y, x + w, y + h, x)], in the cascade's order.
    For a rectangle that lies in the frame, the clamping of
    [extract_face_features] changes nothing: the crop it describes is
    exactly the rectangle, [h] rows and [w] columns from row [y], column
    [x], and the extractor returns a descriptor for it. *)
Theorem haar_detections_are_cropped_exactly (cv : Backend)
        (detectMultiScale : array2 Z -> list face_processor_cv.rect)
        (image : array2 bgr) (gray : array2 Z) :
  Forall (inside_frame image) (detectMultiScale gray) ->
  Forall2
    (fun (r : face_processor_cv.rect) (face_location : location) =>
       let '(x, y, w, h) := r in
       face_location = (y, (x + w)%Z, (y + h)%Z, x)
       /\ clamped_crop image face_location
          = window image (Z.to_nat y) (Z.to_nat x) (Z.to_nat h) (Z.to_nat w)
       /\ exists f,
           face_processor_cv.extract_face_features cv image face_location = Ok (Some f)
           /\ length f = 132%nat)
    (detectMultiScale gray)
    (face_processor_cv._detect_faces_haar detectMultiScale gray).
Proof.
  unfold face_processor_cv._detect_faces_haar. rewrite haar_loop. cbn [app].
  induction (detectMultiScale gray) as [|[[[x y] w] h] rects IH]; intro Hin.
  - constructor.
  - inversion Hin as [|r rs Hr Hrs]; subst. cbn [map]. constructor; [|now apply IH].
    destruct (inside_frame_crop image x y w h Hr) as [Hs Hc].
    split; [reflexivity|]. split; [exact Hc|].
    destruct (extract_face_features_total cv image (y, (x + w)%Z, (y + h)%Z, x))
      as (probe & Hp & _ & Hsome).
    destruct (Hsome Hs) as (f & Hf & Hlen). exists f.
    split; [congruence|exact Hlen].
Qed.

Lemma haar_detections_are_cropped_exactly_witness :
  Forall2
    (fun (r : face_processor_cv.rect) (face_location : location) =>
       let '(x, y, w, h) := r in
       face_location = (y, (x + w)%Z, (y + h)%Z, x)
       /\ clamped_crop (Reference.flat 80 80 128) face_location
          = window (Reference.flat 80 80 128)
                   (Z.to_nat y) (Z.to_nat x) (Z.to_nat h) (Z.to_nat w)
       /\ exists f,
           face_processor_cv.extract_face_features Reference.cv
             (Reference.flat 80 80 128) face_location = Ok (Some f)
           /\ length f = 132%nat)
    [(10, 5, 60, 70)%Z]
    (face_processor_cv._detect_faces_haar (fun _ => [(10, 5, 60, 70)%Z])
       (mk_array2 80 80 (fun _ _ => 128%Z))).
Proof.
  apply (haar_detections_are_cropped_exactly Reference.cv
           (fun _ => [(10, 5, 60, 70)%Z]) (Reference.flat 80 80 128)
           (mk_array2 80 80 (fun _ _ => 128%Z))).
  constructor; [|constructor]. unfold inside_frame. cbn [rows cols Reference.flat]. lia.
Defined.

(** ** Local binary patterns *)

Lemma interior_1 {A : Type} (image : array2 A) (i j : nat) :
  interior image 1 i j = true ->
  (1 <= i)%nat /\ (i + 1 < rows image)%nat /\ (1 <= j)%nat /\ (j + 1 < cols image)%nat.
Proof.
  unfold interior. rewrite !andb_true_iff, !Nat.leb_le, !Nat.ltb_lt. tauto.
Qed.

Ltac each_comparison :=
  repeat match goal with
         | |- context [(?c <=? ?x)%Z] => destruct (c <=? x)%Z
         end.

(** X4. [FaceProcessorCV._calculate_lbp] keeps the shape of the image,
    leaves 0 on the border, and gives every interior pixel a code between
    0 and 255 (so that storing it in the uint8 array loses nothing) whose
    bit [k] tells whether the [k]-th neighbour is at least as bright as
    the centre. So a pixel no neighbour is darker than gets 255, and a
    pixel brighter than all its neighbours gets 0. *)
Theorem cv_lbp_code_bits (image : array2 Z) (i j : nat) :
  let lbp := face_processor_cv._calculate_lbp image in
  rows lbp = rows image /\ cols lbp = cols image
  /\ (interior image 1 i j = false -> at2 lbp i j = 0%Z)
  /\ (interior image 1 i j = true ->
      at2 lbp i j = face_processor_cv.lbp_code image i j
      /\ (0 <= at2 lbp i j <= 255)%Z
      /\ (forall k : nat,
             (k < 8)%nat ->
             Z.testbit (at2 lbp i j) (Z.of_nat k)
             = (at2 image i j <=? nth k (neighbours image i j) 0)%Z)
      /\ (Forall (fun v => (at2 image i j <= v)%Z) (neighbours image i j) ->
          at2 lbp i j = 255%Z)
      /\ (Forall (fun v => (v < at2 image i j)%Z) (neighbours image i j) ->
          at2 lbp i j = 0%Z)).
Proof.
  intro lbp. unfold lbp, face_processor_cv._calculate_lbp. cbn [rows cols at2].
  split; [reflexivity|]. split; [reflexivity|]. split.
  - now intros ->.
  - intros ->.
    assert (Hbits : forall k : nat,
               (k < 8)%nat ->
               Z.testbit (face_processor_cv.lbp_code image i j) (Z.of_nat k)
               = (at2 image i j <=? nth k (neighbours image i j) 0)%Z).
    { intros k Hk. unfold face_processor_cv.lbp_code, face_processor_cv.ge, neighbours.
      do 8 (destruct k as [|k]; [cbn [nth]; each_comparison; reflexivity|]). lia. }
    assert (Hrange : (0 <= face_processor_cv.lbp_code image i j <= 255)%Z).
    { unfold face_processor_cv.lbp_code, face_processor_cv.ge.
      each_comparison; vm_compute; split; discriminate. }
    assert (Hsame : uint8 (face_processor_cv.lbp_code image i j)
                    = face_processor_cv.lbp_code image i j).
    { unfold uint8. apply Z.mod_small. lia. }
    rewrite Hsame. split; [reflexivity|]. split; [exact Hrange|]. split; [exact Hbits|].
    split.
    + intro Hall. unfold neighbours in Hall.
      repeat match goal with
             | H : Forall _ (_ :: _) |- _ => inversion H; subst; clear H
             end.
      unfold face_processor_cv.lbp_code, face_processor_cv.ge.
      repeat match goal with
             | H : (?c <= ?x)%Z |- _ => apply Z.leb_le in H; rewrite H
             end.
      reflexivity.
    + intro Hall. unfold neighbours in Hall.
      repeat match goal with
             | H : Forall _ (_ :: _) |- _ => inversion H; subst; clear H
             end.
      unfold face_processor_cv.lbp_code, face_processor_cv.ge.
      repeat match goal with
             | H : (?x < ?c)%Z |- _ => apply Z.leb_gt in H; rewrite H
             end.
      reflexivity.
Qed.

Lemma lbp_at_unfold (image : array2 Z) (i j : nat) :
  (1 <= i)%nat -> (1 <= j)%nat ->
  SpoofDetectorLBP.lbp_at image i j =
  let center := at2 image i j in
  let bit (k : Z) (v : Z) (acc : Z) :=
    if (center <=? v)%Z then Z.lor acc (Z.shiftl 1 k) else acc in
  bit 7%Z (at2 image (i + 1) (j - 1))
    (bit 6%Z (at2 image i (j - 1))
       (bit 5%Z (at2 image (i - 1) (j - 1))
          (bit 4%Z (at2 image (i - 1) j)
             (bit 3%Z (at2 image (i - 1) (j + 1))
                (bit 2%Z (at2 image i (j + 1))
                   (bit 1%Z (at2 image (i + 1) (j + 1))
                      (bit 0%Z (at2 image (i + 1) j) 0%Z))))))).
Proof.
  intros Hi Hj. unfold SpoofDetectorLBP.lbp_at, enumerate, circle8.
  cbn [length seq combine fold_left fst snd].
  replace (Z.to_nat (Z.of_nat i + 1)) with (i + 1)%nat by lia.
  replace (Z.to_nat (Z.of_nat j + 1)) with (j + 1)%nat by lia.
  replace (Z.to_nat (Z.of_nat i + 0)) with i by lia.
  replace (Z.to_nat (Z.of_nat j + 0)) with j by lia.
  replace (Z.to_nat (Z.of_nat i + -1)) with (i - 1)%nat by lia.
  replace (Z.to_nat (Z.of_nat j + -1)) with (j - 1)%nat by lia.
  reflexivity.
Qed.

(** X5. The two [_calculate_lbp] of [face_processor_cv.py] compare the
    same eight neighbours with the centre and differ only in the bit each
    comparison is given: at every pixel the code of [FaceProcessorCV] is
    the code of [SpoofDetector] rotated left by two bits. *)
Theorem lbp_codes_differ_by_rotation (image : array2 Z) (i j : nat) :
  at2 (face_processor_cv._calculate_lbp image) i j
  = rotl8 2 (at2 (SpoofDetectorLBP._calculate_lbp image) i j).
Proof.
  unfold face_processor_cv._calculate_lbp, SpoofDetectorLBP._calculate_lbp.
  cbn [at2].
  destruct (interior image 1 i j) eqn:Hin; [|reflexivity].
  apply interior_1 in Hin. destruct Hin as (Hi & _ & Hj & _).
  rewrite (lbp_at_unfold image i j Hi Hj).
  unfold face_processor_cv.lbp_code, face_processor_cv.ge. cbv zeta.
  each_comparison; reflexivity.
Qed.

(** ** The reflection and blur scores *)

Lemma ravel_map2d {A B : Type} (f : A -> B) (a : array2 A) :
  ravel (map2d f a) = map f (ravel a).
Proof.
  unfold ravel, map2d. cbn [rows cols at2].
  induction (seq 0 (rows a)) as [|i l IH]; [reflexivity|].
  cbn [flat_map]. rewrite map_app, IH, map_map. reflexivity.
Qed.

Lemma length_filter_map {A B : Type} (f : A -> B) (p : B -> bool) (l : list A) :
  length (filter p (map f l)) = length (filter (fun x => p (f x)) l).
Proof.
  induction l as [|x l IH]; [reflexivity|]. cbn [map filter].
  destruct (p (f x)); cbn [length]; now rewrite IH.
Qed.

Lemma length_filter_le {A : Type} (p : A -> bool) (l : list A) :
  (length (filter p l) <= length l)%nat.
Proof.
  induction l as [|x l IH]; [apply Nat.le_refl|]. cbn [filter].
  destruct (p x); cbn [length]; lia.
Qed.

Lemma bright_mask_count (gray : array2 Z) :
  length (filter (fun v => (0 <? v)%Z) (ravel (cv2_threshold gray 240 255)))
  = bright_pixels gray.
Proof.
  unfold cv2_threshold, bright_pixels. rewrite ravel_map2d, length_filter_map.
  f_equal. apply filter_ext. intro v. now destruct (240 <? v)%Z.
Qed.

Lemma inject_nat_pos (n : nat) : (0 < n)%nat -> 0 < inject_Z (Z.of_nat n).
Proof. intro H. unfold Qlt. simpl. lia. Qed.

Lemma inject_nat_nonneg (n : nat) : 0 <= inject_Z (Z.of_nat n).
Proof. unfold Qle. simpl. lia. Qed.

(** X6. On a non-empty crop [analyze_reflection] returns
    [1 - min(10 * b / n, 1)], where [b] of the [n] grey pixels are
    brighter than 240. The score lies in [0, 1]; it is 1 exactly when no
    pixel is that bright and 0 exactly when at least a tenth of them
    are. *)
Theorem analyze_reflection_score (cv : Backend) (face_image : ndarray) (gray : array2 Z) :
  to_gray cv face_image = Ok gray ->
  is_empty gray = false ->
  let b := inject_Z (Z.of_nat (bright_pixels gray)) in
  let n := inject_Z (Z.of_nat (rows gray * cols gray)) in
  exists score,
    analyze_reflection cv face_image = Ok score
    /\ score == 1 - Qmin (b / n * 10) 1
    /\ 0 <= score /\ score <= 1
    /\ (score == 1 <-> bright_pixels gray = 0%nat)
    /\ (score == 0 <-> (rows gray * cols gray <= 10 * bright_pixels gray)%nat).
Proof.
  intros Hg Hne b n.
  unfold analyze_reflection. rewrite Hg. cbn [bind].
  rewrite bright_mask_count. cbn [cv2_threshold map2d rows cols].
  fold b n. eexists. split; [reflexivity|]. split; [reflexivity|].
  apply is_empty_false in Hne.
  assert (Hn : 0 < n) by (apply inject_nat_pos; nia).
  assert (Hb : 0 <= b) by apply inject_nat_nonneg.
  assert (Hle : b <= n).
  { unfold b, n. rewrite <- Zle_Qle. apply inj_le.
    unfold bright_pixels. etransitivity; [apply length_filter_le|].
    now rewrite length_ravel. }
  assert (Hratio : 0 <= b / n * 10).
  { apply Qmult_le_0_compat; [|lra]. apply Qle_shift_div_l; [assumption|lra]. }
  assert (Hzero : b / n * 10 == 0 <-> b == 0).
  { split; intro H.
    - assert (H' : b / n == 0) by lra.
      setoid_replace b with (b / n * n) by (field; lra). rewrite H'. ring.
    - rewrite H. field. lra. }
  assert (Hfull : 1 <= b / n * 10 <-> n <= b * 10).
  { split; intro H.
    - setoid_replace (b * 10) with (b / n * 10 * n) by (field; lra).
      setoid_replace n with (1 * n) at 1 by ring.
      apply Qmult_le_compat_r; lra.
    - setoid_replace (b / n * 10) with (b * 10 / n) by (field; lra).
      apply Qle_shift_div_l; lra. }
  destruct (Q.min_spec (b / n * 10) 1) as [[Hlt ->]|[Hge ->]].
  - split; [lra|]. split; [lra|]. split.
    + split; intro H.
      * assert (Hb0 : b == 0) by (apply Hzero; lra).
        unfold b in Hb0. unfold Qeq in Hb0. simpl in Hb0. lia.
      * assert (Hb0 : b == 0) by (unfold b; rewrite H; reflexivity).
        apply Hzero in Hb0. lra.
    + split; intro H.
      * lra.
      * exfalso. assert (Hq : n <= b * 10).
        { unfold n, b. setoid_replace 10 with (inject_Z 10) by reflexivity.
          rewrite <- inject_Z_mult, <- Zle_Qle. lia. }
        apply Hfull in Hq. lra.
  - split; [lra|]. split; [lra|]. split.
    + split; intro H.
      * lra.
      * exfalso. assert (Hb0 : b == 0) by (unfold b; rewrite H; reflexivity).
        apply Hzero in Hb0. lra.
    + split; intro H.
      * apply Hfull in Hge. unfold n, b in Hge.
        setoid_replace 10 with (inject_Z 10) in Hge by reflexivity.
        rewrite <- inject_Z_mult, <- Zle_Qle in Hge. lia.
      * lra.
Qed.

Lemma analyze_reflection_score_witness :
  exists score,
    analyze_reflection Reference.cv (Gray (mk_array2 2 5 (fun i j => 250%Z))) = Ok score
    /\ score == 0.
Proof.
  destruct (analyze_reflection_score Reference.cv
              (Gray (mk_array2 2 5 (fun i j => 250%Z)))
              (mk_array2 2 5 (fun i j => 250%Z)) eq_refl eq_refl)
    as (score & Hs & _ & _ & _ & _ & Hzero).
  exists score. split; [exact Hs|]. apply Hzero. vm_compute. lia.
Defined.

Lemma Qsum_squares_nonneg (mean : Q) (a : list Q) :
  0 <= Qsum (map (fun x => (x - mean) * (x - mean)) a).
Proof.
  apply Qsum_nonneg. apply Forall_map. apply Forall_forall. intros x _.
  set (y := x - mean). destruct (Qlt_le_dec y 0) as [Hy|Hy].
  - setoid_replace (y * y) with ((- y) * (- y)) by ring.
    apply Qmult_le_0_compat; lra.
  - apply Qmult_le_0_compat; assumption.
Qed.

Lemma Qsum_const (c : Q) (a : list Q) :
  Forall (fun x => x == c) a -> Qsum a == inject_Z (Z.of_nat (length a)) * c.
Proof.
  induction 1 as [|x a Hx _ IH].
  - simpl. ring.
  - rewrite Qsum_cons. cbn [length]. rewrite Nat2Z.inj_succ.
    unfold Z.succ. rewrite inject_Z_plus.
    setoid_rewrite IH. setoid_rewrite Hx. ring.
Qed.

Lemma np_var_nonneg (a : list Q) : a <> [] -> 0 <= np_var a.
Proof.
  intro Hne. unfold np_var.
  apply Qle_shift_div_l.
  - apply inject_nat_pos. destruct a; [contradiction|simpl; lia].
  - rewrite Qmult_0_l. apply Qsum_squares_nonneg.
Qed.

Lemma np_var_const (c : Q) (a : list Q) :
  a <> [] -> Forall (fun x => x == c) a -> np_var a == 0.
Proof.
  intros Hne Hc. unfold np_var.
  set (n := inject_Z (Z.of_nat (length a))).
  assert (Hn : 0 < n) by (apply inject_nat_pos; destruct a; [contradiction|simpl; lia]).
  assert (Hmean : Qsum a / n == c).
  { rewrite (Qsum_const c a Hc). fold n. field. lra. }
  assert (Hz : Qsum (map (fun x => (x - Qsum a / n) * (x - Qsum a / n)) a) == 0).
  { apply Qsum_zero. apply Forall_map. revert Hc. apply Forall_impl.
    intros x Hx. rewrite Hmean, Hx. ring. }
  rewrite Hz. field. lra.
Qed.

(** X7. On a non-empty crop [analyze_blur] returns
    [min(var / 500, 1)], where [var] is the variance of the Laplacian of
    the grey crop. The score lies in [0, 1], and it is 0 when the
    Laplacian is the same at every pixel, as it is on a crop without any
    detail. *)
Theorem analyze_blur_score (cv : Backend) (face_image : ndarray) (gray : array2 Z) :
  to_gray cv face_image = Ok gray ->
  is_empty gray = false ->
  exists score,
    analyze_blur cv face_image = Ok score
    /\ score = Qmin (np_var (ravel (cv2_Laplacian cv gray)) / 500) 1
    /\ 0 <= score /\ score <= 1
    /\ (forall c : Q,
           (forall i j : nat, laplacian_px cv gray i j == c) -> score == 0).
Proof.
  intros Hg Hne. unfold analyze_blur. rewrite Hg. cbn [bind].
  eexists. split; [reflexivity|]. split; [reflexivity|].
  set (lap := ravel (cv2_Laplacian cv gray)).
  assert (Hlap : lap <> []).
  { intro E. apply (f_equal (@length Q)) in E. unfold lap in E.
    rewrite length_ravel in E. cbn [cv2_Laplacian rows cols length] in E.
    apply is_empty_false in Hne. nia. }
  pose proof (np_var_nonneg lap Hlap) as Hvar.
  assert (H500 : 0 <= np_var lap / 500).
  { apply Qle_shift_div_l; lra. }
  split; [apply Q.min_glb; lra|]. split; [apply Q.le_min_r|].
  intros c Hc.
  assert (Hz : np_var lap == 0).
  { apply (np_var_const c); [exact Hlap|]. unfold lap.
    apply Forall_ravel. intros i j. exact (Hc i j). }
  rewrite Hz. reflexivity.
Qed.

Lemma flat_gray_of_bgr :
  to_gray Reference.cv (Color (Reference.flat 12 12 128))
  = Ok (map2d (fun p => uint8 (bgr2gray_px Reference.cv p)) (Reference.flat 12 12 128)).
Proof. reflexivity. Qed.

Lemma analyze_blur_score_witness :
  exists score,
    analyze_blur Reference.cv (Color (Reference.flat 12 12 128)) = Ok score
    /\ 0 <= score /\ score <= 1.
Proof.
  destruct (analyze_blur_score Reference.cv (Color (Reference.flat 12 12 128)) _
              flat_gray_of_bgr eq_refl)
    as (score & Hs & _ & H0 & H1 & _).
  exists score. split; [exact Hs|]. split; [exact H0|exact H1].
Defined.

(** ** Eye aspect ratio and blinks *)

Lemma index_short {A : Type} (l : list A) (i : nat) :
  (length l <= i)%nat -> index l i = Raise IndexError.
Proof.
  intro H. unfold index. now rewrite (proj2 (nth_error_None l i) H).
Qed.

Lemma calculate_eye_aspect_ratio_short (cv : Backend) (eye : list point) :
  (length eye < 6)%nat ->
  face_processor.calculate_eye_aspect_ratio cv eye = Raise IndexError.
Proof.
  intro H. unfold face_processor.calculate_eye_aspect_ratio.
  destruct eye as [|p0 [|p1 [|p2 [|p3 [|p4 [|p5 rest]]]]]]; try reflexivity.
  simpl in H. lia.
Qed.

Lemma calculate_eye_aspect_ratio_six (cv : Backend) (eye : list point) :
  (6 <= length eye)%nat ->
  exists ear, face_processor.calculate_eye_aspect_ratio cv eye = Ok ear.
Proof.
  intro H.
  destruct eye as [|p0 [|p1 [|p2 [|p3 [|p4 [|p5 rest]]]]]]; simpl in H; try lia.
  eexists. reflexivity.
Qed.

(** X8. [calculate_eye_aspect_ratio] raises [IndexError] on fewer than
    six points. On six points or more it returns, using the first six
    only: [(A + B) / (2 C)] for the two vertical distances [A], [B] and
    the horizontal distance [C], and 0 when [C] is not positive, so that
    an eye whose corners coincide never divides by zero. The ratio is
    never negative when distances are not. *)
Theorem eye_aspect_ratio_cases (cv : Backend) (eye : list point) :
  ((length eye < 6)%nat ->
   face_processor.calculate_eye_aspect_ratio cv eye = Raise IndexError)
  /\ (forall (p0 p1 p2 p3 p4 p5 : point) (rest : list point),
         eye = p0 :: p1 :: p2 :: p3 :: p4 :: p5 :: rest ->
         let A := face_processor.euclidean cv p1 p5 in
         let B := face_processor.euclidean cv p2 p4 in
         let C := face_processor.euclidean cv p0 p3 in
         exists ear,
           face_processor.calculate_eye_aspect_ratio cv eye = Ok ear
           /\ (0 < C -> ear = (A + B) / (2 * C))
           /\ (C <= 0 -> ear = 0)
           /\ ((forall x, 0 <= np_sqrt cv x) -> 0 <= ear)).
Proof.
  split; [apply calculate_eye_aspect_ratio_short|].
  intros p0 p1 p2 p3 p4 p5 rest -> A B C.
  unfold face_processor.calculate_eye_aspect_ratio. cbn [index nth_error bind].
  fold A B C. eexists. split; [reflexivity|].
  destruct (Qlt_bool 0 C) eqn:E.
  - apply Qlt_bool_iff in E. split; [reflexivity|]. split; [intro; lra|].
    intro Hs. assert (HA : 0 <= A) by apply Hs. assert (HB : 0 <= B) by apply Hs.
    apply Qle_shift_div_l; lra.
  - apply Qlt_bool_false in E. split; [intro; lra|]. split; [reflexivity|].
    intros _. lra.
Qed.

(** X9. [detect_blink] on landmarks that lack one of the two eyes
    returns [(False, 0.0)] and leaves the counters and the previous ratio
    untouched. With both eyes present it raises [IndexError] when one of
    them has fewer than six points, and otherwise feeds the mean of the two
    eye aspect ratios to the counters. *)
Theorem detect_blink_cases (cv : Backend) (self : face_processor.SpoofDetector)
        (face_landmarks : landmarks) :
  (dict_get face_landmarks "left_eye" = None
   \/ dict_get face_landmarks "right_eye" = None ->
   face_processor.detect_blink cv self face_landmarks = Ok ((false, 0), self))
  /\ (forall left_eye right_eye : list point,
         dict_get face_landmarks "left_eye" = Some left_eye ->
         dict_get face_landmarks "right_eye" = Some right_eye ->
         ((length left_eye < 6)%nat \/ (length right_eye < 6)%nat ->
          face_processor.detect_blink cv self face_landmarks = Raise IndexError)
         /\ ((6 <= length left_eye)%nat /\ (6 <= length right_eye)%nat ->
             exists left_ear right_ear,
               face_processor.calculate_eye_aspect_ratio cv left_eye = Ok left_ear
               /\ face_processor.calculate_eye_aspect_ratio cv right_eye = Ok right_ear
               /\ face_processor.detect_blink cv self face_landmarks
                  = Ok (face_processor.register_ear self ((left_ear + right_ear) / 2)))).
Proof.
  unfold face_processor.detect_blink. split.
  - intros [-> | ->]; [reflexivity|].
    now destruct (dict_get face_landmarks "left_eye").
  - intros left_eye right_eye -> ->. split.
    + intros [Hl | Hr].
      * now rewrite (calculate_eye_aspect_ratio_short cv left_eye Hl).
      * destruct (face_processor.calculate_eye_aspect_ratio cv left_eye) as [le|e] eqn:El;
          cbn [bind].
        -- now rewrite (calculate_eye_aspect_ratio_short cv right_eye Hr).
        -- destruct (Nat.lt_ge_cases (length left_eye) 6) as [Hs|Hs].
           ++ rewrite (calculate_eye_aspect_ratio_short cv left_eye Hs) in El. congruence.
           ++ destruct (calculate_eye_aspect_ratio_six cv left_eye Hs) as [x Hx]. congruence.
    + intros [Hl Hr].
      destruct (calculate_eye_aspect_ratio_six cv left_eye Hl) as [le Hle].
      destruct (calculate_eye_aspect_ratio_six cv right_eye Hr) as [re Hre].
      exists le, re. rewrite Hle, Hre. repeat split.
Qed.

Lemma register_ear_counters (s1 s2 : face_processor.SpoofDetector) (ear : Q) :
  face_processor.blink_counter s1 = face_processor.blink_counter s2 ->
  face_processor.frame_counter s1 = face_processor.frame_counter s2 ->
  face_processor.blink_threshold s1 = face_processor.blink_threshold s2 ->
  face_processor.eye_ar_consecutive_frames s1 = face_processor.eye_ar_consecutive_frames s2 ->
  fst (face_processor.register_ear s1 ear) = fst (face_processor.register_ear s2 ear)
  /\ snd (face_processor.register_ear s1 ear) = snd (face_processor.register_ear s2 ear).
Proof.
  intros Hb Hf Ht Hc. unfold face_processor.register_ear. rewrite Hb, Hf, Ht, Hc.
  destruct (Qlt_bool ear (face_processor.blink_threshold s2)); [now split|].
  destruct (face_processor.eye_ar_consecutive_frames s2 <=? face_processor.frame_counter s2)%Z;
    now split.
Qed.

Lemma reachable_detector_settings (self : face_processor.SpoofDetector) :
  reachable_detector self ->
  face_processor.blink_threshold self = config.BLINK_THRESHOLD
  /\ face_processor.eye_ar_consecutive_frames self = 3%Z
  /\ (0 <= face_processor.blink_counter self)%Z
  /\ (0 <= face_processor.frame_counter self)%Z.
Proof.
  induction 1 as [|self ear _ (Ht & Hc & Hb & Hf)|self _ (Ht & Hc & Hb & Hf)].
  - repeat split; cbn; lia.
  - unfold face_processor.register_ear.
    destruct (Qlt_bool ear (face_processor.blink_threshold self)); cbn.
    + repeat split; try assumption; lia.
    + destruct (face_processor.eye_ar_consecutive_frames self
                <=? face_processor.frame_counter self)%Z; cbn;
        repeat split; try assumption; lia.
  - cbn. repeat split; try assumption; lia.
Qed.

(** X10. [reset] gives a detector, whatever it has seen, the behaviour of
    a new one: the frames below the threshold that came before the reset
    no longer count towards a blink, the blink count starts again from 0,
    and on every later sequence of frames the detector returns the flags
    and holds the counters a new detector would. *)
Theorem reset_restores_fresh_detector (self : face_processor.SpoofDetector) (ears : list Q) :
  reachable_detector self ->
  let after := snd (run_ears (face_processor.reset self) ears) in
  let fresh := snd (run_ears face_processor.new_SpoofDetector ears) in
  face_processor.blink_counter (face_processor.reset self) = 0%Z
  /\ face_processor.frame_counter (face_processor.reset self) = 0%Z
  /\ fst (run_ears (face_processor.reset self) ears)
     = fst (run_ears face_processor.new_SpoofDetector ears)
  /\ face_processor.blink_counter after = face_processor.blink_counter fresh
  /\ face_processor.frame_counter after = face_processor.frame_counter fresh.
Proof.
  intros Hr after fresh. split; [reflexivity|]. split; [reflexivity|].
  destruct (reachable_detector_settings self Hr) as (Ht & Hc & _ & _).
  assert (H : fst (run_ears (face_processor.reset self) ears)
              = fst (run_ears face_processor.new_SpoofDetector ears)
              /\ face_processor.blink_counter (snd (run_ears (face_processor.reset self) ears))
                 = face_processor.blink_counter
                     (snd (run_ears face_processor.new_SpoofDetector ears))
              /\ face_processor.frame_counter (snd (run_ears (face_processor.reset self) ears))
                 = face_processor.frame_counter
                     (snd (run_ears face_processor.new_SpoofDetector ears))
              /\ face_processor.blink_threshold (snd (run_ears (face_processor.reset self) ears))
                 = face_processor.blink_threshold
                     (snd (run_ears face_processor.new_SpoofDetector ears))
              /\ face_processor.eye_ar_consecutive_frames
                   (snd (run_ears (face_processor.reset self) ears))
                 = face_processor.eye_ar_consecutive_frames
                     (snd (run_ears face_processor.new_SpoofDetector ears))).
  { induction ears as [|e ears IH] using rev_ind.
    - cbn. repeat split; assumption.
    - destruct IH as (Hflags & Hb & Hf & Hth & Hcf).
      rewrite !run_ears_snoc.
      destruct (register_ear_counters _ _ e Hb Hf Hth Hcf) as [H1 H2].
      destruct (face_processor.register_ear
                  (snd (run_ears (face_processor.reset self) ears)) e) as [[f1 e1] s1].
      destruct (face_processor.register_ear
                  (snd (run_ears face_processor.new_SpoofDetector ears)) e) as [[f2 e2] s2].
      cbn [fst snd] in *. injection H1 as -> ->. subst s2.
      rewrite Hflags. repeat split. }
  destruct H as (H1 & H2 & H3 & _). unfold after, fresh. repeat split; assumption.
Qed.

Lemma reset_restores_fresh_detector_witness :
  fst (run_ears
         (face_processor.reset
            (snd (face_processor.register_ear face_processor.new_SpoofDetector 0.1)))
         [0.1; 0.1; 0.3])
  = fst (run_ears face_processor.new_SpoofDetector [0.1; 0.1; 0.3]).
Proof.
  exact (proj1 (proj2 (proj2
           (reset_restores_fresh_detector
              (snd (face_processor.register_ear face_processor.new_SpoofDetector 0.1))
              [0.1; 0.1; 0.3]
              (reachable_detector_ear _ _ reachable_detector_new))))).
Defined.

(** ** The Euclidean strategy *)

Lemma argmin_from_spec (l : list Q) :
  forall (i bi : nat) (best : Q) (pre : list Q),
    length pre = i -> (bi < i)%nat -> nth_error pre bi = Some best ->
    (forall d, In d pre -> best <= d) ->
    (forall k d, (k < bi)%nat -> nth_error pre k = Some d -> best < d) ->
    let r := argmin_from l i bi best in
    exists v,
      nth_error (pre ++ l) r = Some v
      /\ (forall d, In d (pre ++ l) -> v <= d)
      /\ (forall k d, (k < r)%nat -> nth_error (pre ++ l) k = Some d -> v < d).
Proof.
  induction l as [|x l IH]; intros i bi best pre Hlen Hbi Hnth Hmin Hfirst r.
  - exists best. unfold r. cbn [argmin_from]. rewrite app_nil_r. auto.
  - unfold r. cbn [argmin_from].
    replace (pre ++ x :: l) with ((pre ++ [x]) ++ l) by now rewrite <- app_assoc.
    destruct (Qlt_bool x best) eqn:E.
    + apply Qlt_bool_iff in E. apply IH.
      * rewrite length_app. simpl. lia.
      * lia.
      * rewrite nth_error_app2 by lia. now replace (i - length pre)%nat with 0%nat by lia.
      * intros d Hd. apply in_app_iff in Hd. destruct Hd as [Hd | [<- | []]].
        -- specialize (Hmin d Hd). lra.
        -- lra.
      * intros k d Hk Hd. rewrite nth_error_app1 in Hd by lia.
        apply nth_error_In in Hd. specialize (Hmin d Hd). lra.
    + apply Qlt_bool_false in E. apply IH.
      * rewrite length_app. simpl. lia.
      * lia.
      * rewrite nth_error_app1 by lia. exact Hnth.
      * intros d Hd. apply in_app_iff in Hd. destruct Hd as [Hd | [<- | []]].
        -- now apply Hmin.
        -- exact E.
      * intros k d Hk Hd. rewrite nth_error_app1 in Hd by lia. now apply (Hfirst k).
Qed.

Lemma np_argmin_spec (a : list Q) :
  a <> [] ->
  exists v,
    nth_error a (np_argmin a) = Some v
    /\ (forall d, In d a -> v <= d)
    /\ (forall k d, (k < np_argmin a)%nat -> nth_error a k = Some d -> v < d).
Proof.
  destruct a as [|x l]; [contradiction|]. intros _. unfold np_argmin.
  apply (argmin_from_spec l 1 0 x [x]); try reflexivity; try lia.
  intros d [<- | []]. lra.
Qed.

(** X12. [FaceProcessor.identify_face], when the two gallery lists have
    the same length, returns the enrolled identity whose encoding is
    nearest to the probe, the first one among equally near ones, with
    confidence [max(0, 1 - distance / tolerance)], provided that distance
    is within the tolerance. It returns [None] when the gallery is empty,
    when no encoding is produced, or when every distance exceeds the
    tolerance; it raises only what the encoder or the distance
    computation raise. *)
Theorem dlib_identify_face_nearest (cv : Backend) (self : face_processor.FaceProcessor)
        (image : array2 bgr) (face_location : option location) :
  length (face_processor.known_face_encodings self)
  = length (face_processor.known_face_ids self) ->
  nearest_outcome cv self image face_location
    (face_processor.identify_face cv self image face_location).
Proof.
  intro Hlen. unfold nearest_outcome, face_processor.identify_face.
  destruct (face_processor.known_face_encodings self) as [|k0 ks] eqn:Ek.
  { now left. }
  destruct (face_processor.encode_face cv image face_location) as [[f|]|e]; cbn [bind].
  2:{ right. now left. }
  2:{ split; [discriminate|]. now left. }
  destruct (face_processor.face_distance cv (k0 :: ks) f) as [ds|e] eqn:Ed; cbn [bind].
  2:{ split; [discriminate|]. right. now exists f. }
  pose proof Ed as Hloop. unfold face_processor.face_distance in Hloop.
  apply dlib_face_distance_loop in Hloop. destruct Hloop as [Hl _]. simpl in Hl.
  destruct (Nat.eqb_spec (length ds) 0) as [Hz|Hnz]; [lia|].
  assert (Hne : ds <> []) by (intros ->; now apply Hnz).
  destruct (np_argmin_spec ds Hne) as (v & Hv & Hmin & Hfirst).
  unfold index at 1. rewrite Hv. cbn [bind].
  destruct (Qle_bool v config.FACE_RECOGNITION_TOLERANCE) eqn:Etol.
  - apply Qle_bool_iff in Etol.
    assert (Hi : (np_argmin ds < length (face_processor.known_face_ids self))%nat).
    { pose proof (np_argmin_bound ds Hne). simpl in Hlen. lia. }
    unfold index. destruct (nth_error (face_processor.known_face_ids self) (np_argmin ds))
      as [uid|] eqn:Eid; [|apply nth_error_None in Eid; lia].
    cbn [bind]. exists f, ds, (np_argmin ds). cbn [distance user_id match_confidence].
    repeat split; try assumption.
  - apply Qle_bool_false in Etol. right. right. exists f, ds.
    split; [reflexivity|]. split; [exact Ed|].
    intros d Hd. specialize (Hmin d Hd). lra.
Qed.

Lemma dlib_identify_face_nearest_witness :
  nearest_outcome Reference.cv two_embeddings (Reference.flat 80 80 128) None
    (face_processor.identify_face Reference.cv two_embeddings
       (Reference.flat 80 80 128) None).
Proof.
  exact (dlib_identify_face_nearest Reference.cv two_embeddings
           (Reference.flat 80 80 128) None eq_refl).
Defined.

Lemma face_distance_one (cv : Backend) (known face : list Q) :
  face_processor.face_distance cv [known] face
  = (diff <- broadcast2 Qminus known face ;;
     Ok [np_sqrt cv (Qsum (map (fun d => d * d) diff))]).
Proof.
  unfold face_processor.face_distance. cbn [for_each].
  now destruct (broadcast2 Qminus known face).
Qed.

(** X11. [FaceProcessor.compare_faces] on two encodings of the same
    length returns the pair of [distance <= tolerance] and
    [max(0, 1 - distance / tolerance)]. The confidence is never
    negative; it is 0 whenever the pair is not a match, so a positive
    confidence always comes with a match; and it is at most 1 when
    distances are not negative. Encodings of different lengths, neither of
    them a single number, raise [ValueError]. *)
Theorem dlib_compare_faces_cases (cv : Backend) (known_encoding face_encoding : list Q) :
  (length known_encoding = length face_encoding ->
   let d := np_sqrt cv (Qsum (map (fun x => x * x)
                                  (map2 Qminus known_encoding face_encoding))) in
   face_processor.compare_faces cv known_encoding face_encoding
   = Ok (Qle_bool d config.FACE_RECOGNITION_TOLERANCE,
         Qmax 0 (1 - d / config.FACE_RECOGNITION_TOLERANCE)))
  /\ (forall (is_match : bool) (c : Q),
         face_processor.compare_faces cv known_encoding face_encoding = Ok (is_match, c) ->
         0 <= c
         /\ (is_match = false -> c == 0)
         /\ (0 < c -> is_match = true)
         /\ ((forall x, 0 <= np_sqrt cv x) -> c <= 1))
  /\ (length known_encoding <> length face_encoding ->
      length known_encoding <> 1%nat -> length face_encoding <> 1%nat ->
      face_processor.compare_faces cv known_encoding face_encoding = Raise ValueError).
Proof.
  unfold face_processor.compare_faces. rewrite face_distance_one. split; [|split].
  - intro Hlen. cbv zeta. unfold broadcast2. rewrite (proj2 (Nat.eqb_eq _ _) Hlen).
    reflexivity.
  - intros is_match c.
    destruct (broadcast2 Qminus known_encoding face_encoding) as [diff|e]; cbn [bind];
      [|discriminate].
    cbn [index nth_error bind].
    set (d := np_sqrt cv (Qsum (map (fun x => x * x) diff))).
    intro H. injection H as <- <-.
    assert (Hc : forall x, x / config.FACE_RECOGNITION_TOLERANCE == x * 2).
    { intro x. unfold config.FACE_RECOGNITION_TOLERANCE. field. }
    split; [apply Q.le_max_l|].
    split; [|split].
    + intro Hm. apply Qle_bool_false in Hm.
      unfold config.FACE_RECOGNITION_TOLERANCE in Hm.
      rewrite Q.max_l; [reflexivity|]. rewrite Hc. lra.
    + intro Hpos. destruct (Qle_bool d config.FACE_RECOGNITION_TOLERANCE) eqn:E;
        [reflexivity|].
      apply Qle_bool_false in E. unfold config.FACE_RECOGNITION_TOLERANCE in E.
      rewrite Q.max_l in Hpos; [lra|]. rewrite Hc. lra.
    + intro Hs. assert (Hd : 0 <= d) by apply Hs.
      apply Q.max_lub; [lra|]. rewrite Hc. lra.
  - intros Hne Hk Hf. unfold broadcast2.
    rewrite (proj2 (Nat.eqb_neq _ _) Hne).
    destruct known_encoding as [|x [|x' k]]; destruct face_encoding as [|y [|y' f]];
      try reflexivity; simpl in *; congruence.
Qed.

(** ** Frames *)

Lemma cv_check_liveness_total (cv : Backend) (face_image : option ndarray)
      (face_landmarks : option landmarks) :
  exists r, face_processor_cv.check_liveness cv face_image face_landmarks = Ok r.
Proof.
  unfold face_processor_cv.check_liveness.
  destruct face_image as [img|]; [|now eexists].
  destruct (size img =? 0)%nat; [now eexists|].
  destruct (analyze_texture_lbp cv img) as [t|]; cbn [bind]; [|now eexists].
  destruct (analyze_reflection cv img) as [r|]; cbn [bind]; [|now eexists].
  destruct (analyze_blur cv img) as [b|]; cbn [bind]; now eexists.
Qed.

Lemma process_face_cases (cv : Backend) (draw : Drawing)
      (self : face_processor_cv.FaceProcessorCV) (frame : array2 bgr)
      (perform_identification check_spoof : bool)
      (acc : list FaceResult * array2 bgr) (face_location : location) :
  match face_processor_cv.process_face cv draw self frame perform_identification check_spoof acc
                         face_location with
  | Ok acc' =>
      exists face,
        fst acc' = fst acc ++ [face]
        /\ face_processed cv self frame perform_identification check_spoof face_location face
  | Raise e =>
      perform_identification = true
      /\ face_processor_cv.identify_face cv self frame (Some face_location) = Raise e
  end.
Proof.
  unfold face_processor_cv.process_face, face_processed. cbn [config.SPOOF_DETECTION_ENABLED].
  rewrite andb_true_r.
  destruct check_spoof; cbn [andb bind].
  - destruct (0 <? size (Color (extract_face_region frame face_location)))%nat.
    + destruct (cv_check_liveness_total cv
                  (Some (Color (extract_face_region frame face_location))) None) as [r Hr].
      rewrite Hr. cbn [bind].
      destruct perform_identification; cbn [bind].
      * destruct (face_processor_cv.identify_face cv self frame (Some face_location))
          as [[m|]|e]; cbn [bind fst snd].
        -- eexists. split; [reflexivity|]. cbn. repeat split. now exists r.
        -- eexists. split; [reflexivity|]. cbn. repeat split. now exists r.
        -- now split.
      * eexists. split; [reflexivity|]. cbn. repeat split. now exists r.
    + destruct perform_identification; cbn [bind].
      * destruct (face_processor_cv.identify_face cv self frame (Some face_location))
          as [[m|]|e]; cbn [bind fst snd].
        -- eexists. split; [reflexivity|]. cbn. repeat split.
        -- eexists. split; [reflexivity|]. cbn. repeat split.
        -- now split.
      * eexists. split; [reflexivity|]. cbn. repeat split.
  - destruct perform_identification; cbn [bind].
    + destruct (face_processor_cv.identify_face cv self frame (Some face_location))
        as [[m|]|e]; cbn [bind fst snd].
      * eexists. split; [reflexivity|]. cbn. repeat split.
      * eexists. split; [reflexivity|]. cbn. repeat split.
      * now split.
    + eexists. split; [reflexivity|]. cbn. repeat split.
Qed.

Lemma process_faces_loop (cv : Backend) (draw : Drawing)
      (self : face_processor_cv.FaceProcessorCV) (frame : array2 bgr)
      (perform_identification check_spoof : bool) (face_locations : list location) :
  forall acc : list FaceResult * array2 bgr,
    match for_each (face_processor_cv.process_face cv draw self frame perform_identification check_spoof)
                   face_locations acc with
    | Ok acc' =>
        exists new,
          fst acc' = fst acc ++ new
          /\ Forall2 (face_processed cv self frame perform_identification check_spoof)
                     face_locations new
    | Raise e =>
        perform_identification = true
        /\ exists face_location,
            In face_location face_locations
            /\ face_processor_cv.identify_face cv self frame (Some face_location) = Raise e
    end.
Proof.
  induction face_locations as [|loc locs IH]; intro acc; cbn [for_each].
  - exists []. split; [now rewrite app_nil_r|constructor].
  - pose proof (process_face_cases cv draw self frame perform_identification check_spoof
                                   acc loc) as Hface.
    destruct (face_processor_cv.process_face cv draw self frame perform_identification check_spoof acc loc)
      as [acc1|e]; cbn [bind].
    + destruct Hface as (face & Hacc & Hface). specialize (IH acc1).
      destruct (for_each _ locs acc1) as [acc'|e].
      * destruct IH as (new & Hnew & Hall). exists (face :: new). split.
        -- rewrite Hnew, Hacc, <- app_assoc. reflexivity.
        -- now constructor.
      * destruct IH as (Hpi & l & Hin & Hl). split; [exact Hpi|].
        exists l. split; [now right|exact Hl].
    + destruct Hface as [Hpi He]. split; [exact Hpi|]. exists loc. split; [now left|exact He].
Qed.

(** X24. [FaceProcessorCV.process_frame] answers with one entry for each
    detected face, in the order of detection: its box, the liveness result
    of its region when the check is asked for and the region is not empty,
    the identity and confidence of its match when identification is asked
    for and finds one, and no name. It raises only what [detect_faces]
    raises or what [identify_face] raises on one of the faces: the liveness
    check never makes it fail. *)
Theorem cv_process_frame_faces (cv : Backend) (draw : Drawing)
        (self : face_processor_cv.FaceProcessorCV) (frame : array2 bgr)
        (perform_identification check_spoof : bool) :
  match face_processor_cv.process_frame cv draw self frame perform_identification check_spoof with
  | Ok results =>
      exists face_locations,
        face_processor_cv.detect_faces cv frame = Ok face_locations
        /\ Forall2 (face_processed cv self frame perform_identification check_spoof)
                   face_locations (faces results)
  | Raise e =>
      face_processor_cv.detect_faces cv frame = Raise e
      \/ (perform_identification = true
          /\ exists face_locations face_location,
              face_processor_cv.detect_faces cv frame = Ok face_locations
              /\ In face_location face_locations
              /\ face_processor_cv.identify_face cv self frame (Some face_location)
                 = Raise e)
  end.
Proof.
  unfold face_processor_cv.process_frame.
  destruct (face_processor_cv.detect_faces cv frame) as [locs|e]; cbn [bind]; [|now left].
  pose proof (process_faces_loop cv draw self frame perform_identification check_spoof
                                 locs ([], frame)) as Hloop.
  destruct (for_each _ locs ([], frame)) as [[found annotated]|e]; cbn [bind].
  - destruct Hloop as (new & Hnew & Hall). cbn [fst app] in Hnew. subst new.
    exists locs. split; [reflexivity|exact Hall].
  - destruct Hloop as (Hpi & loc & Hin & Hl). right. split; [exact Hpi|].
    exists locs, loc. repeat split; assumption.
Qed.

(** ** Detections of the network *)

Lemma dnn_loop (h w : Q) (detections : list (Q * (Q * Q * Q * Q))) (faces : list location)
      (box : Q * (Q * Q * Q * Q) -> location) :
  (forall c x1 y1 x2 y2,
      box (c, (x1, y1, x2, y2))
      = (face_processor_cv.astype_int (y1 * h), face_processor_cv.astype_int (x2 * w),
         face_processor_cv.astype_int (y2 * h), face_processor_cv.astype_int (x1 * w))) ->
  fold_left
    (fun faces (detection : Q * (Q * Q * Q * Q)) =>
       let '(confidence, (x1, y1, x2, y2)) := detection in
       if Qlt_bool 0.5 confidence
       then faces ++ [(face_processor_cv.astype_int (y1 * h), face_processor_cv.astype_int (x2 * w),
                       face_processor_cv.astype_int (y2 * h), face_processor_cv.astype_int (x1 * w))]
       else faces)
    detections faces
  = faces ++ map box (filter (fun d => Qlt_bool 0.5 (fst d)) detections).
Proof.
  intro Hbox. revert faces.
  induction detections as [|[c [[[x1 y1] x2] y2]] ds IH]; intro faces; cbn [fold_left filter].
  - now rewrite app_nil_r.
  - cbn [fst]. destruct (Qlt_bool 0.5 c); rewrite IH; [|reflexivity].
    cbn [map]. rewrite Hbox, <- app_assoc. reflexivity.
Qed.

Lemma astype_int_nonneg (x : Q) : 0 <= x -> face_processor_cv.astype_int x = Qfloor x /\ (0 <= Qfloor x)%Z.
Proof.
  intro H. unfold face_processor_cv.astype_int.
  destruct (Qlt_bool x 0) eqn:E; [apply Qlt_bool_iff in E; lra|].
  split; [reflexivity|]. change 0%Z with (Qfloor 0). now apply Qfloor_resp_le.
Qed.

Lemma astype_int_range (n : nat) (a b : Q) :
  0 <= a -> a <= b -> b <= 1 ->
  let s := inject_Z (Z.of_nat n) in
  (0 <= face_processor_cv.astype_int (a * s) <= face_processor_cv.astype_int (b * s))%Z
  /\ (face_processor_cv.astype_int (b * s) <= Z.of_nat n)%Z.
Proof.
  intros Ha Hab Hb s.
  assert (Hs : 0 <= s) by (unfold s; rewrite <- (Zle_Qle 0); lia).
  assert (Has : 0 <= a * s) by (apply Qmult_le_0_compat; lra).
  assert (Hbs : 0 <= b * s) by (apply Qmult_le_0_compat; lra).
  assert (Hle : a * s <= b * s) by (apply Qmult_le_compat_r; assumption).
  assert (Hmax : b * s <= s).
  { setoid_replace s with (1 * s) at 2 by ring. apply Qmult_le_compat_r; assumption. }
  destruct (astype_int_nonneg _ Has) as [-> H0].
  destruct (astype_int_nonneg _ Hbs) as [-> _].
  split; [split; [exact H0|now apply Qfloor_resp_le]|].
  rewrite <- (Qfloor_Z (Z.of_nat n)). now apply Qfloor_resp_le.
Qed.

(** X25. [_detect_faces_dnn] refuses an empty frame with the error of
    [cv2.resize]. On any other frame it keeps the detections whose
    confidence is above 0.5 (0.5 itself is dropped), in the order of the
    network, and makes of each the box of its corners scaled to the frame
    and truncated. When the corners of a kept detection are fractions of
    the frame, its box lies in the frame, its top not below its bottom and
    its left not right of its right. *)
Theorem dnn_detections_become_boxes (cv : Backend)
        (forward : array2 bgr -> list (Q * (Q * Q * Q * Q))) (image : array2 bgr) :
  (is_empty image = true -> face_processor_cv._detect_faces_dnn cv forward image = Raise cv2_error)
  /\ (is_empty image = false ->
      exists resized,
        cv2_resize_bgr cv image 300 300 = Ok resized
        /\ face_processor_cv._detect_faces_dnn cv forward image
           = Ok (map (dnn_box (rows image) (cols image))
                     (filter (fun d => Qlt_bool 0.5 (fst d)) (forward resized)))
        /\ forall d, In d (forward resized) -> normalised d ->
                     let '(top, right_, bottom, left_) :=
                       dnn_box (rows image) (cols image) d in
                     (0 <= top <= bottom)%Z /\ (bottom <= Z.of_nat (rows image))%Z
                     /\ (0 <= left_ <= right_)%Z /\ (right_ <= Z.of_nat (cols image))%Z).
Proof.
  unfold face_processor_cv._detect_faces_dnn, cv2_resize_bgr. split; intro He; rewrite He; cbn [bind].
  - reflexivity.
  - eexists. split; [reflexivity|]. split.
    + rewrite (dnn_loop _ _ _ [] (dnn_box (rows image) (cols image))); [reflexivity|].
      reflexivity.
    + intros [c [[[x1 y1] x2] y2]] _ (Hx1 & Hx & Hx2 & Hy1 & Hy & Hy2).
      unfold dnn_box.
      destruct (astype_int_range (rows image) y1 y2 Hy1 Hy Hy2) as [H1 H2].
      destruct (astype_int_range (cols image) x1 x2 Hx1 Hx Hx2) as [H3 H4].
      cbv zeta in H1, H2, H3, H4. repeat split; lia.
Qed.

(** * Properties of the attendance endpoints *)

Lemma next_key_fresh (keys : list Z) : ~ In (database.next_key keys) keys.
Proof.
  assert (H : forall k, In k keys -> (k <= fold_right Z.max 0 keys)%Z).
  { induction keys as [|x keys IH]; intros k []; cbn [fold_right].
    - subst. lia.
    - specialize (IH k H). lia. }
  intro Hin. apply H in Hin. unfold database.next_key in Hin. lia.
Qed.

Lemma latest_in (l : list database.AttendanceRecord) (r : database.AttendanceRecord) :
  database.latest l = Some r -> In r l.
Proof.
  revert r. induction l as [|x l IH]; intro r; cbn [database.latest]; [discriminate|].
  destruct (database.latest l) as [r'|].
  - destruct (database.record_id r' <? database.record_id x)%Z; intro H; injection H as <-.
    + now left.
    + right. now apply IH.
  - intro H. injection H as <-. now left.
Qed.

Section Attendance.
Context {P : Type} {engine : FaceProcessorAPI P}.
Variable now_at : nat -> database.datetime.

Import database api.
Local Arguments next_key : simpl never.

Ltac run_handler H :=
  repeat (cbn [fst snd db face_processor users attendance_records audit_logs clock_reads
                 negb] in H;
          match type of H with
          | context [match ?x with _ => _ end] =>
              lazymatch x with
              | context [match _ with _ => _ end] => fail
              | _ => destruct x eqn:?
              end
          end).

Lemma recognize_tables (upload : option (array2 bgr)) (s s' : State P)
      (r : result HTTPException (AttendanceResponse + main.User * MatchResult)) :
  recognize now_at upload s = (r, s') ->
  users (db s') = users (db s)
  /\ attendance_records (db s') = attendance_records (db s)
  /\ (exists logs, audit_logs (db s') = audit_logs (db s) ++ logs /\ (length logs <= 1)%nat)
  /\ (clock_reads (db s) <= clock_reads (db s'))%nat
  /\ match r with
     | Ok (inl resp) => success resp = false
     | Ok (inr (user, m)) =>
         main.UserOperations.get_user_by_id (users (db s)) (user_id m) = Some user
     | Raise _ => True
     end.
Proof.
  unfold recognize, hbind, call, call_fp, with_db, ret, raise, get_fp, get_db,
    log_event, datetime_now.
  intro H. run_handler H.
  all: injection H as <- <-; cbn.
  all: repeat match goal with
              | E : (_, _) = (_, _) |- _ => injection E as <- <-
              end; cbn.
  all: repeat split; try reflexivity; try assumption; try lia;
    first [ exists []; split; [now rewrite app_nil_r|cbn; lia]
          | eexists; split; [reflexivity|cbn; lia] ].
Qed.

Lemma find_by_id (l : list AttendanceRecord) (r : AttendanceRecord) :
  NoDup (map record_id l) -> In r l ->
  find (fun x => (record_id x =? record_id r)%Z) l = Some r.
Proof.
  induction l as [|x l IH]; intros Hnd Hin; [contradiction|].
  inversion Hnd as [|k ks Hx Hl]; subst. cbn [find].
  destruct Hin as [-> | Hin].
  - now rewrite Z.eqb_refl.
  - destruct (Z.eqb_spec (record_id x) (record_id r)) as [E|_]; [|now apply IH].
    exfalso. apply Hx. rewrite E. now apply in_map.
Qed.

Lemma today_record_found (db_ : Store) (uid : Z) (t : datetime) (r : AttendanceRecord) :
  latest (filter (fun r => (record_user_id r =? uid)%Z && (midnight t <=? record_date r)%Z)
                 (attendance_records db_)) = Some r ->
  In r (attendance_records db_) /\ record_user_id r = uid
  /\ (midnight t <= record_date r)%Z.
Proof.
  intro H. apply latest_in in H. apply filter_In in H. destruct H as [Hin Hb].
  apply andb_true_iff in Hb. destruct Hb as [Hu Hd].
  apply Z.eqb_eq in Hu. apply Z.leb_le in Hd. auto.
Qed.

Lemma punch_effects (user : main.User) (m : MatchResult) (s s' : State P)
      (r : result HTTPException AttendanceResponse) :
  punch now_at user m s = (r, s') ->
  users (db s') = users (db s)
  /\ (exists logs, audit_logs (db s') = audit_logs (db s) ++ logs)
  /\ match r with
     | Ok resp =>
         (success resp = false
          /\ attendance_records (db s') = attendance_records (db s))
         \/ (success resp = true
             /\ (NoDup (map record_id (attendance_records (db s))) ->
                 punched_for user s s' resp))
     | Raise _ => attendance_records (db s') = attendance_records (db s)
     end.
Proof.
  unfold punch, hbind, with_db, ret, raise, get_today_record, create_punch_in,
    create_punch_out, log_event, datetime_now.
  intro H. run_handler H.
  all: injection H as <- <-.
  all: repeat match goal with
              | E : (_, _) = (_, _) |- _ => injection E as <- <-
              end.
  all: cbn [db face_processor users attendance_records audit_logs clock_reads success
               failure].
  all: (split; [reflexivity|]);
    (split; [first [ exists []; now rewrite app_nil_r | eexists; reflexivity ]|]).
  all: try reflexivity.
  all: try (left; split; reflexivity).
  all: right; (split; [reflexivity|]); intro Hnd; unfold punched_for;
    cbn [db attendance_records response_user_id response_user_name response_timestamp
            response_action response_confidence];
    (split; [reflexivity|]); (split; [reflexivity|]);
    eexists; (split; [reflexivity|]).
  - (* punched out earlier today: a new record *)
    left. split; [reflexivity|]. eexists. eexists.
    split; [reflexivity|]. cbn [record_user_id punch_in_time punch_out_time confidence_score
                                   record_id].
    repeat split. apply next_key_fresh.
  - (* open record, cooldown over: closed *)
    match goal with
    | E : latest _ = Some ?tr |- _ => apply today_record_found in E; destruct E as (Hin & Hu & _)
    end.
    match goal with
    | E : find _ _ = Some ?x, Hin : In ?tr _ |- _ =>
        rewrite (find_by_id _ tr Hnd Hin) in E; injection E as <-
    end.
    right. split; [reflexivity|]. eexists. eexists. eexists.
    split; [eassumption|]. split; [assumption|]. split; [eassumption|].
    split; [assumption|]. split; [|reflexivity].
    match goal with
    | E : (_ <? _)%Z = false |- _ => apply Z.ltb_ge in E; exact E
    end.
  - (* the record of today is in the table *)
    exfalso.
    match goal with
    | E : latest _ = Some ?tr |- _ => apply today_record_found in E; destruct E as (Hin & _)
    end.
    match goal with
    | E : find _ _ = None, Hin : In ?tr _ |- _ =>
        apply (find_none _ _ E) in Hin; rewrite Z.eqb_refl in Hin; discriminate
    end.
  - (* no record today: a new record *)
    left. split; [reflexivity|]. eexists. eexists.
    split; [reflexivity|]. cbn [record_user_id punch_in_time punch_out_time confidence_score
                                   record_id].
    repeat split. apply next_key_fresh.
Qed.

(** X13. [identify_face] writes attendance only when it answers with
    success. Whatever the upload, it never touches the users; it only adds
    to the audit log; and when it raises or answers with
    [success = False] (no face, a failed liveness check, an unknown face,
    a missing user row, the cooldown) the attendance table is as it was
    before. *)
Theorem identify_face_failure_writes_no_attendance
        (upload : option (array2 bgr)) (s s' : State P)
        (r : result HTTPException AttendanceResponse) :
  identify_face now_at upload s = (r, s') ->
  users (db s') = users (db s)
  /\ (exists logs, audit_logs (db s') = audit_logs (db s) ++ logs)
  /\ (match r with
      | Ok resp => success resp = false
      | Raise _ => True
      end ->
      attendance_records (db s') = attendance_records (db s)).
Proof.
  unfold identify_face, hbind. intro H.
  destruct (recognize now_at upload s) as [rec s1] eqn:Erec.
  apply recognize_tables in Erec. destruct Erec as (Hu & Ha & (logs1 & Hl & _) & _ & Hr).
  destruct rec as [[resp | [user m]] | e].
  - injection H as <- <-. split; [exact Hu|]. split; [now exists logs1|]. intros _. exact Ha.
  - apply punch_effects in H. destruct H as (Hu2 & (logs2 & Hl2) & Hp).
    split; [congruence|]. split.
    + exists (logs1 ++ logs2). rewrite Hl2, Hl. now rewrite app_assoc.
    + destruct r as [resp|e].
      * intro Hfail. destruct Hp as [[_ Hsame] | [Hs _]]; congruence.
      * intros _. congruence.
  - injection H as <- <-. split; [exact Hu|]. split; [now exists logs1|]. intros _. exact Ha.
Qed.

(** X14. A successful [identify_face] punches exactly once. When the
    record identifiers are distinct, as a primary key is, a response with
    [success = True] names a user of the table and the attendance table
    changed in one of two ways: one open record of that user was appended
    under a new identifier (punch-in), or one open record of that user,
    punched in at least [PUNCH_COOLDOWN_MINUTES] before the time of the
    response, got its punch-out time and nothing else changed
    (punch-out). *)
Theorem identify_face_success_punches_once
        (upload : option (array2 bgr)) (s s' : State P) (resp : AttendanceResponse) :
  NoDup (map record_id (attendance_records (db s))) ->
  identify_face now_at upload s = (Ok resp, s') ->
  success resp = true ->
  punched_once s s' resp.
Proof.
  unfold identify_face, hbind. intros Hnd H Hs.
  destruct (recognize now_at upload s) as [rec s1] eqn:Erec.
  apply recognize_tables in Erec. destruct Erec as (Hu & Ha & _ & _ & Hr).
  destruct rec as [[resp1 | [user m]] | e].
  - injection H as <- <-. congruence.
  - apply punch_effects in H. destruct H as (_ & _ & [[Hf _] | [_ Hp]]); [congruence|].
    rewrite Ha in Hp. specialize (Hp Hnd).
    assert (Hid : main.User_id user = user_id m).
    { unfold main.UserOperations.get_user_by_id in Hr. apply find_some in Hr.
      destruct Hr as [_ Hr]. now apply Z.eqb_eq in Hr. }
    exists user. split; [now rewrite Hid|].
    unfold punched_for in *. now rewrite <- Ha.
  - discriminate.
Qed.

End Attendance.

Lemma monotone_clock_le (now_at : nat -> database.datetime) (n m : nat) :
  monotone_clock now_at -> (n <= m)%nat -> (now_at n <= now_at m)%Z.
Proof.
  intros Hm Hle. induction Hle as [|m _ IH]; [lia|]. specialize (Hm m). lia.
Qed.

Lemma midnight_mono (t t' : database.datetime) :
  (t <= t')%Z -> (database.midnight t <= database.midnight t')%Z.
Proof.
  intro H. unfold database.midnight, database.day.
  apply Z.mul_le_mono_nonneg_r; [lia|]. apply Z.div_le_mono; lia.
Qed.

Lemma next_key_above (keys : list Z) (k : Z) : In k keys -> (k < database.next_key keys)%Z.
Proof.
  unfold database.next_key.
  induction keys as [|x keys IH]; intros []; cbn [fold_right].
  - subst. lia.
  - specialize (IH H). lia.
Qed.

Lemma latest_max (l : list database.AttendanceRecord) (r : database.AttendanceRecord) :
  database.latest l = Some r ->
  forall x, In x l -> (database.record_id x <= database.record_id r)%Z.
Proof.
  revert r. induction l as [|y l IH]; intro r; cbn [database.latest]; [discriminate|].
  destruct (database.latest l) as [r'|] eqn:E.
  - destruct (Z.ltb_spec (database.record_id r') (database.record_id y)) as [Hlt|Hge];
      intro H; injection H as <-; intros x [<- | Hx]; try lia.
    + specialize (IH r' eq_refl x Hx). lia.
    + now apply IH.
  - intro H. injection H as <-. intros x [<- | Hx]; [lia|].
    destruct l; [contradiction|]. cbn [database.latest] in E.
    destruct (database.latest l); [destruct (_ <? _)%Z|]; discriminate.
Qed.

Lemma latest_none (l : list database.AttendanceRecord) :
  database.latest l = None -> l = [].
Proof.
  destruct l as [|y l]; [reflexivity|]. cbn [database.latest].
  destruct (database.latest l); [destruct (_ <? _)%Z|]; discriminate.
Qed.

Lemma same_id_same_record (l : list database.AttendanceRecord)
      (r r' : database.AttendanceRecord) :
  NoDup (map database.record_id l) -> In r l -> In r' l ->
  database.record_id r = database.record_id r' -> r = r'.
Proof.
  induction l as [|x l IH]; intros Hnd Hr Hr' Hid; [contradiction|].
  inversion Hnd as [|k ks Hx Hl]; subst.
  destruct Hr as [-> | Hr]; destruct Hr' as [-> | Hr'].
  - reflexivity.
  - exfalso. apply Hx. rewrite Hid. now apply in_map.
  - exfalso. apply Hx. rewrite <- Hid. now apply in_map.
  - now apply IH.
Qed.

Section AttendanceInvariant.
Variable now_at : nat -> database.datetime.
Hypothesis Hclock : monotone_clock now_at.

Import database.

Lemma attendance_wf_later (d : Store) (k : nat) (logs : list AuditLog) (us : main.table) :
  (clock_reads d <= k)%nat ->
  attendance_wf now_at d ->
  attendance_wf now_at (mk_Store us (attendance_records d) logs k).
Proof.
  intros Hk (Hnd & Hin & Hcool & Hopen). unfold attendance_wf.
  cbn [attendance_records clock_reads].
  split; [exact Hnd|]. split; [exact Hin|]. split; [exact Hcool|].
  intros r r' Hr Ho Hd. apply Hopen; try assumption.
  etransitivity; [|exact Hd]. apply midnight_mono. now apply monotone_clock_le.
Qed.

(** A punch-in, after the record of today was found missing or closed. *)
Lemma attendance_wf_punch_in (d : Store) (uid : Z) (t_in date : datetime) (c : option Q)
      (k : nat) (logs : list AuditLog) :
  (clock_reads d <= k)%nat ->
  attendance_wf now_at d ->
  match latest (filter (fun r => (record_user_id r =? uid)%Z
                                 && (midnight (now_at (clock_reads d)) <=? record_date r)%Z)
                       (attendance_records d)) with
  | Some today_record => punch_out_time today_record <> None
  | None => True
  end ->
  attendance_wf now_at
    (mk_Store (users d)
       (attendance_records d
          ++ [mk_AttendanceRecord (next_key (map record_id (attendance_records d))) uid date
                                  (Some t_in) None c true None])
       logs k).
Proof.
  intros Hk (Hnd & Hin & Hcool & Hopen) Htoday. unfold attendance_wf.
  cbn [attendance_records clock_reads].
  set (new := mk_AttendanceRecord _ uid date (Some t_in) None c true None).
  assert (Hfresh : forall x, In x (attendance_records d) -> (record_id x < record_id new)%Z).
  { intros x Hx. unfold new. cbn [record_id]. apply next_key_above. now apply in_map. }
  split; [|split; [|split]].
  - rewrite map_app. cbn [map]. apply NoDup_app; [exact Hnd|repeat constructor; intros []|].
    intros i Hi [<- | []]. unfold new in Hi. cbn [record_id] in Hi.
    now apply next_key_fresh in Hi.
  - intros r Hr. apply in_app_iff in Hr. destruct Hr as [Hr | [<- | []]];
      [now apply Hin|discriminate].
  - intros r ti to Hr. apply in_app_iff in Hr. destruct Hr as [Hr | [<- | []]].
    + now apply Hcool.
    + discriminate.
  - intros r r' Hr Ho Hd Hr' Hu.
    apply in_app_iff in Hr. apply in_app_iff in Hr'.
    destruct Hr as [Hr | [<- | []]].
    + assert (Hd0 : (midnight (now_at (clock_reads d)) <= record_date r)%Z).
      { etransitivity; [|exact Hd]. apply midnight_mono. now apply monotone_clock_le. }
      destruct Hr' as [Hr' | [<- | []]]; [now apply (Hopen r r')|].
      exfalso. unfold new in Hu. cbn [record_user_id] in Hu.
      assert (Hf : In r (filter (fun r => (record_user_id r =? uid)%Z
                                          && (midnight (now_at (clock_reads d))
                                              <=? record_date r)%Z)
                                (attendance_records d))).
      { apply filter_In. split; [exact Hr|]. apply andb_true_iff. split.
        - apply Z.eqb_eq. congruence.
        - now apply Z.leb_le. }
      destruct (latest _) as [tr|] eqn:El.
      * pose proof (latest_max _ _ El r Hf) as Hmax.
        apply latest_in in El. apply filter_In in El. destruct El as [Htr Hb].
        apply andb_true_iff in Hb. destruct Hb as [Hb _]. apply Z.eqb_eq in Hb.
        assert (Hmax' : (record_id tr <= record_id r)%Z).
        { apply (Hopen r tr); try assumption. congruence. }
        assert (E : r = tr).
        { apply (same_id_same_record (attendance_records d)); try assumption. lia. }
        subst tr. contradiction.
      * apply latest_none in El. rewrite El in Hf. contradiction.
    + destruct Hr' as [Hr' | [<- | []]]; [|lia].
      specialize (Hfresh r' Hr'). lia.
Qed.

(** A punch-out of the open record of today. *)
Lemma attendance_wf_punch_out (d : Store) (tr : AttendanceRecord) (t_in t_out : datetime)
      (k : nat) (logs : list AuditLog) :
  (clock_reads d <= k)%nat ->
  attendance_wf now_at d ->
  In tr (attendance_records d) ->
  punch_in_time tr = Some t_in ->
  (minutes config.PUNCH_COOLDOWN_MINUTES <= t_out - t_in)%Z ->
  attendance_wf now_at
    (mk_Store (users d)
       (map (fun r => if (record_id r =? record_id tr)%Z then closed_at t_out tr else r)
            (attendance_records d))
       logs k).
Proof.
  intros Hk (Hnd & Hin & Hcool & Hopen) Htr Hti Hlast. unfold attendance_wf.
  cbn [attendance_records clock_reads].
  set (f := fun r => if (record_id r =? record_id tr)%Z then closed_at t_out tr else r).
  assert (Hid : forall r, record_id (f r) = record_id r).
  { intro r. unfold f. destruct (Z.eqb_spec (record_id r) (record_id tr)); [|reflexivity].
    cbn. congruence. }
  assert (Huser : forall r, In r (attendance_records d) ->
                            record_user_id (f r) = record_user_id r).
  { intros r Hr. unfold f. destruct (Z.eqb_spec (record_id r) (record_id tr)) as [E|];
      [|reflexivity].
    apply (same_id_same_record _ _ _ Hnd Hr Htr) in E. now subst. }
  assert (Hkeep : forall r, In r (attendance_records d) ->
                            f r = r \/ (r = tr /\ f r = closed_at t_out tr)).
  { intros r Hr. unfold f. destruct (Z.eqb_spec (record_id r) (record_id tr)) as [E|];
      [|now left].
    right. apply (same_id_same_record _ _ _ Hnd Hr Htr) in E. now subst. }
  split; [|split; [|split]].
  - rewrite map_map. rewrite (map_ext _ record_id Hid). exact Hnd.
  - intros r Hr. apply in_map_iff in Hr. destruct Hr as (x & <- & Hx).
    destruct (Hkeep x Hx) as [-> | [-> ->]]; [now apply Hin|].
    cbn. congruence.
  - intros r ti to Hr. apply in_map_iff in Hr. destruct Hr as (x & <- & Hx).
    destruct (Hkeep x Hx) as [-> | [-> ->]]; [now apply Hcool|].
    unfold closed_at. cbn [punch_in_time punch_out_time]. intros E1 E2.
    injection E2 as <-. rewrite Hti in E1. injection E1 as <-. exact Hlast.
  - intros r r' Hr Ho Hd Hr' Hu.
    apply in_map_iff in Hr. destruct Hr as (x & <- & Hx).
    apply in_map_iff in Hr'. destruct Hr' as (x' & <- & Hx').
    rewrite !Hid. rewrite !Huser in Hu by assumption.
    destruct (Hkeep x Hx) as [E | [-> E]]; rewrite E in *; [|discriminate].
    apply (Hopen x x'); try assumption.
    etransitivity; [|exact Hd]. apply midnight_mono. now apply monotone_clock_le.
Qed.

Context {P : Type} {engine : FaceProcessorAPI P}.
Import api.
Local Arguments next_key : simpl never.

Ltac run_handler H :=
  repeat (cbn [fst snd db face_processor users attendance_records audit_logs clock_reads
                 negb] in H;
          match type of H with
          | context [match ?x with _ => _ end] =>
              lazymatch x with
              | context [match _ with _ => _ end] => fail
              | _ => destruct x eqn:?
              end
          end).

Lemma punch_keeps_attendance_wf (user : main.User) (m : MatchResult) (s s' : State P)
      (r : result HTTPException AttendanceResponse) :
  attendance_wf now_at (db s) ->
  punch now_at user m s = (r, s') ->
  attendance_wf now_at (db s')
  /\ r <> Raise (mk_HTTPException 500 TypeError).
Proof.
  intro Hwf.
  unfold punch, hbind, with_db, ret, raise, get_today_record, create_punch_in,
    create_punch_out, log_event, datetime_now.
  intro H. run_handler H.
  all: injection H as <- <-.
  all: repeat match goal with
              | E : (_, _) = (_, _) |- _ => injection E as <- <-
              end.
  all: cbn [db face_processor users attendance_records audit_logs clock_reads].
  - (* punched out earlier today *)
    split; [|discriminate].
    apply attendance_wf_punch_in; [lia|exact Hwf|].
    match goal with E : latest _ = Some _ |- _ => rewrite E end. congruence.
  - (* the cooldown *)
    split; [|discriminate]. destruct (db s) as [us recs logs k] eqn:Ed.
    cbn [users attendance_records audit_logs clock_reads] in *.
    apply (attendance_wf_later (mk_Store us recs logs k)); [cbn; lia|exact Hwf].
  - (* punch-out *)
    split; [|discriminate].
    match goal with
    | E : latest _ = Some ?tr |- _ =>
        apply today_record_found in E; destruct E as (Hin & Hu & _)
    end.
    destruct Hwf as (Hnd & Hrest).
    match goal with
    | E : find _ _ = Some ?x, Hin : In ?tr _ |- _ =>
        rewrite (find_by_id _ tr Hnd Hin) in E; injection E as <-
    end.
    match goal with
    | E : (_ <? _)%Z = false |- _ => apply Z.ltb_ge in E
    end.
    eapply attendance_wf_punch_out; [lia|now split|exact Hin|eassumption|].
    pose proof (Hclock (S (clock_reads (db s)))). lia.
  - (* the record of today is in the table *)
    exfalso.
    match goal with
    | E : latest _ = Some ?tr |- _ => apply today_record_found in E; destruct E as (Hin & _)
    end.
    match goal with
    | E : find _ _ = None, Hin : In ?tr _ |- _ =>
        apply (find_none _ _ E) in Hin; rewrite Z.eqb_refl in Hin; discriminate
    end.
  - (* every record has a punch-in time *)
    exfalso.
    match goal with
    | E : latest _ = Some ?tr |- _ => apply today_record_found in E; destruct E as (Hin & _)
    end.
    destruct Hwf as (_ & Hpin & _). now apply (Hpin _ Hin).
  - (* no record today *)
    split; [|discriminate].
    apply attendance_wf_punch_in; [lia|exact Hwf|].
    match goal with E : latest _ = None |- _ => now rewrite E end.
Qed.

(** X15. [identify_face] keeps the attendance table well formed when the
    clock never goes back: record identifiers stay distinct, every record
    has a punch-in time (so the subtraction of the cooldown test never
    fails), every closed record lasted at least
    [PUNCH_COOLDOWN_MINUTES], and a record still open and dated today is
    the most recent record of its user; so a user never has two open
    records dated today. *)
Theorem identify_face_keeps_attendance_wf
        (upload : option (array2 bgr)) (s s' : State P)
        (r : result HTTPException AttendanceResponse) :
  attendance_wf now_at (db s) ->
  identify_face now_at upload s = (r, s') ->
  attendance_wf now_at (db s')
  /\ r <> Raise (mk_HTTPException 500 TypeError)
  /\ (forall r1 r2 : AttendanceRecord,
         In r1 (attendance_records (db s')) -> In r2 (attendance_records (db s')) ->
         record_user_id r1 = record_user_id r2 ->
         punch_out_time r1 = None -> punch_out_time r2 = None ->
         (midnight (now_at (clock_reads (db s'))) <= record_date r1)%Z ->
         (midnight (now_at (clock_reads (db s'))) <= record_date r2)%Z ->
         r1 = r2).
Proof.
  intros Hwf H.
  assert (Hboth : attendance_wf now_at (db s')
                  /\ r <> Raise (mk_HTTPException 500 TypeError)).
  { unfold identify_face, hbind in H.
    destruct (recognize now_at upload s) as [rec s1] eqn:Erec.
    pose proof Erec as Hraise.
    apply recognize_tables in Erec. destruct Erec as (_ & Ha & _ & Hk & _).
    assert (Hwf1 : attendance_wf now_at (db s1)).
    { destruct (db s1) as [us recs logs k] eqn:E1.
      cbn [attendance_records clock_reads] in Ha, Hk. subst recs.
      now apply attendance_wf_later. }
    destruct rec as [[resp | [user m]] | e].
    - injection H as <- <-. split; [exact Hwf1|discriminate].
    - now apply (punch_keeps_attendance_wf user m s1).
    - injection H as <- <-. split; [exact Hwf1|].
      intro E. injection E as ->.
      unfold recognize, hbind, call, call_fp, with_db, ret, raise, get_fp, get_db,
        log_event, datetime_now in Hraise.
      run_handler Hraise; discriminate. }
  destruct Hboth as [Hwf' Hno]. split; [exact Hwf'|]. split; [exact Hno|].
  destruct Hwf' as (Hnd & _ & _ & Hopen).
  intros r1 r2 H1 H2 Hu Ho1 Ho2 Hd1 Hd2.
  apply (same_id_same_record (attendance_records (db s'))); try assumption.
  pose proof (Hopen r1 r2 H1 Ho1 Hd1 H2 (eq_sym Hu)).
  pose proof (Hopen r2 r1 H2 Ho2 Hd2 H1 Hu). lia.
Qed.

End AttendanceInvariant.

(** ** Deactivated users *)

Lemma get_user_by_id_unique (db_ : main.table) (u : main.User) :
  NoDup (map main.User_id db_) -> In u db_ ->
  main.UserOperations.get_user_by_id db_ (main.User_id u) = Some u.
Proof.
  unfold main.UserOperations.get_user_by_id.
  induction db_ as [|x db_ IH]; intros Hnd Hin; [contradiction|].
  inversion Hnd as [|k ks Hx Hl]; subst. cbn [find].
  destruct Hin as [-> | Hin].
  - now rewrite Z.eqb_refl.
  - destruct (Z.eqb_spec (main.User_id x) (main.User_id u)) as [E|_]; [|now apply IH].
    exfalso. apply Hx. rewrite E. now apply in_map.
Qed.

Lemma deactivate_user_ids (db_ : main.table) (uid : Z) :
  map main.User_id (main.UserOperations.deactivate_user db_ uid) = map main.User_id db_.
Proof.
  unfold main.UserOperations.deactivate_user.
  destruct (main.UserOperations.get_user_by_id db_ uid) as [found|]; [|reflexivity].
  rewrite map_map. apply map_ext. intro x.
  now destruct (main.User_id x =? uid)%Z.
Qed.

Lemma deactivate_user_inactive (db_ : main.table) (uid : Z) (u : main.User) :
  In u (main.UserOperations.deactivate_user db_ uid) ->
  main.User_id u = uid -> main.User_is_active u = false.
Proof.
  unfold main.UserOperations.deactivate_user.
  destruct (main.UserOperations.get_user_by_id db_ uid) as [found|] eqn:E.
  - intros Hin Hid. apply in_map_iff in Hin. destruct Hin as (x & <- & Hx).
    destruct (Z.eqb_spec (main.User_id x) uid) as [Hx'|Hx']; [reflexivity|].
    contradiction.
  - intros Hin Hid. exfalso.
    unfold main.UserOperations.get_user_by_id in E.
    apply (find_none _ _ E) in Hin. apply Z.eqb_neq in Hin. contradiction.
Qed.

Lemma user_data_active (db_ : main.table) (uid : Z) :
  In uid (ids_of (main.user_data db_)) ->
  exists u, In u db_ /\ main.User_id u = uid /\ main.User_is_active u = true.
Proof.
  unfold main.user_data, main.UserOperations.get_all_active_users.
  rewrite ids_of_map. intro H. apply in_map_iff in H.
  destruct H as (u & <- & Hu). apply filter_In in Hu. destruct Hu as [Hu _].
  apply filter_In in Hu. destruct Hu as [Hin Ha]. now exists u.
Qed.

Section Deactivation.
Context {P : Type} {engine : FaceProcessorAPI P} {laws : FaceProcessorLaws engine}.
Variable now_at : nat -> database.datetime.

Import database api.
Local Arguments next_key : simpl never.

Ltac run_handler H :=
  repeat (cbn [fst snd db face_processor users attendance_records audit_logs clock_reads
                 negb] in H;
          match type of H with
          | context [match ?x with _ => _ end] =>
              lazymatch x with
              | context [match _ with _ => _ end] => fail
              | _ => destruct x eqn:?
              end
          end).

Lemma recognize_gallery (upload : option (array2 bgr)) (s s' : State P)
      (r : result HTTPException (AttendanceResponse + main.User * MatchResult)) :
  recognize now_at upload s = (r, s') ->
  api_gallery_ids (face_processor s') = api_gallery_ids (face_processor s)
  /\ match r with
     | Ok (inl resp) => response_user_id resp = None
     | Ok (inr (user, m)) =>
         In (user_id m) (api_gallery_ids (face_processor s))
         /\ main.User_id user = user_id m
     | Raise _ => True
     end.
Proof.
  unfold recognize, hbind, call, call_fp, with_db, ret, raise, get_fp, get_db,
    log_event, datetime_now.
  intro H. run_handler H.
  all: injection H as <- <-.
  all: repeat match goal with
              | E : (_, _) = (_, _) |- _ => injection E as <- <-
              end.
  all: cbn [db face_processor failure response_user_id].
  all: try match goal with
           | E : api_check_liveness _ _ _ = Ok _ |- _ =>
               apply check_liveness_keeps_gallery in E
           end.
  all: split; try reflexivity; try assumption; try exact I.
  match goal with
  | E : api_identify_face _ _ _ = Ok (Some _) |- _ => apply identify_in_gallery in E
  end.
  split; [congruence|].
  match goal with
  | E : main.UserOperations.get_user_by_id _ _ = Some _ |- _ =>
      unfold main.UserOperations.get_user_by_id in E; apply find_some in E;
      destruct E as [_ E]; now apply Z.eqb_eq in E
  end.
Qed.

Lemma punch_response (user : main.User) (m : MatchResult) (s s' : State P)
      (r : result HTTPException AttendanceResponse) :
  punch now_at user m s = (r, s') ->
  face_processor s' = face_processor s
  /\ match r with
     | Ok resp =>
         response_user_id resp = None \/ response_user_id resp = Some (main.User_id user)
     | Raise _ => True
     end.
Proof.
  unfold punch, hbind, with_db, ret, raise, get_today_record, create_punch_in,
    create_punch_out, log_event, datetime_now.
  intro H. run_handler H.
  all: injection H as <- <-.
  all: repeat match goal with
              | E : (_, _) = (_, _) |- _ => injection E as <- <-
              end.
  all: cbn [db face_processor failure response_user_id].
  all: split; [reflexivity|]; first [exact I | now left | now right].
Qed.

Lemma identify_face_names_gallery_member
      (upload : option (array2 bgr)) (s s' : State P) (resp : AttendanceResponse)
      (uid : Z) :
  identify_face now_at upload s = (Ok resp, s') ->
  response_user_id resp = Some uid ->
  users (db s') = users (db s)
  /\ api_gallery_ids (face_processor s') = api_gallery_ids (face_processor s)
  /\ In uid (api_gallery_ids (face_processor s)).
Proof.
  intros H Hresp. unfold identify_face, hbind in H.
  destruct (recognize now_at upload s) as [rec s1] eqn:Erec.
  pose proof (recognize_tables now_at _ _ _ _ Erec) as (Hu1 & _).
  apply recognize_gallery in Erec. destruct Erec as (Hg & Hr).
  destruct rec as [[resp1 | [user m]] | e]; [| |discriminate].
  - injection H as <- <-. congruence.
  - pose proof (punch_effects now_at _ _ _ _ _ H) as (Hu2 & _).
    apply punch_response in H. destruct H as [Hfp [Hnone | Hsome]]; [congruence|].
    destruct Hr as [Hin Hid].
    split; [congruence|]. split; [congruence|]. congruence.
Qed.

(** X16. [identify_face] answers only for active users. When user
    identifiers are distinct and the gallery names active users only, as it
    does after every [load_known_faces], a response that names a user names
    an active user of the table, one the gallery holds, and the gallery
    still names active users only afterwards. *)
Theorem identify_face_answers_for_active_users
        (upload : option (array2 bgr)) (s s' : State P) (resp : AttendanceResponse)
        (uid : Z) :
  gallery_active s ->
  identify_face now_at upload s = (Ok resp, s') ->
  response_user_id resp = Some uid ->
  gallery_active s'
  /\ exists u : main.User,
      main.UserOperations.get_user_by_id (users (db s')) uid = Some u
      /\ main.User_is_active u = true
      /\ In uid (api_gallery_ids (face_processor s')).
Proof.
  intros [Hnd Hact] H Hresp.
  destruct (identify_face_names_gallery_member upload s s' resp uid H Hresp)
    as (Husers & Hgal & Hin).
  split.
  - split; [now rewrite Husers|]. rewrite Hgal, Husers. exact Hact.
  - destruct (Hact _ Hin) as (u & Hu & Hidu & Hau).
    exists u. rewrite Husers, Hgal, <- Hidu.
    split; [now apply get_user_by_id_unique|]. split; [exact Hau|]. now rewrite Hidu.
Qed.

Lemma load_known_faces_active (s s' : State P) (r : result HTTPException unit) :
  NoDup (map main.User_id (users (db s))) ->
  load_known_faces s = (r, s') ->
  db s' = db s /\ (r = Ok tt -> gallery_active s').
Proof.
  unfold load_known_faces. intros Hnd H.
  destruct (api_load_known_faces (face_processor s) (main.user_data (users (db s))))
    as [p|e] eqn:E; injection H as <- <-; cbn [db]; split; try reflexivity; try discriminate.
  intros _. split; [exact Hnd|]. cbn [db face_processor]. intros uid Hin.
  apply load_keeps_given_ids in E. apply E in Hin. now apply user_data_active.
Qed.

(** X17. A deactivated user can no longer punch. When user identifiers
    are distinct and [deactivate_user] succeeds for an employee id, the
    row of that employee is still in the table, now inactive, so the
    employee id still resolves; the user is no longer listed by
    [get_users]; the gallery names active users only and no longer names
    the user; and no response of a later [identify_face] names the
    user. *)
Theorem deactivated_user_cannot_punch (employee_id : string) (s s1 : State P)
        (name : string) :
  NoDup (map main.User_id (users (db s))) ->
  deactivate_user now_at employee_id s = (Ok name, s1) ->
  exists u : main.User,
    main.UserOperations.get_user_by_employee_id (users (db s)) employee_id = Some u
    /\ name = main.User_name u
    /\ (exists u' : main.User,
           main.UserOperations.get_user_by_employee_id (users (db s1)) employee_id = Some u'
           /\ main.User_id u' = main.User_id u /\ main.User_is_active u' = false)
    /\ (forall (listed : list main.User) (s2 : State P),
           get_users s1 = (Ok listed, s2) -> ~ In (main.User_id u) (map main.User_id listed))
    /\ gallery_active s1
    /\ ~ In (main.User_id u) (api_gallery_ids (face_processor s1))
    /\ (forall (upload : option (array2 bgr)) (resp : AttendanceResponse) (s2 : State P),
           identify_face now_at upload s1 = (Ok resp, s2) ->
           response_user_id resp <> Some (main.User_id u)).
Proof.
  intros Hnd H. unfold deactivate_user, hbind, get_db, with_db, ret, raise in H.
  cbn [fst snd] in H.
  destruct (main.UserOperations.get_user_by_employee_id (users (db s)) employee_id)
    as [u|] eqn:Eu; [|discriminate].
  exists u. split; [reflexivity|].
  set (s0 := mk_State
               (mk_Store (main.UserOperations.deactivate_user (users (db s)) (main.User_id u))
                         (attendance_records (db s)) (audit_logs (db s)) (clock_reads (db s)))
               (face_processor s)) in *.
  destruct (load_known_faces s0) as [rl sl] eqn:El.
  assert (Hnd0 : NoDup (map main.User_id (users (db s0)))).
  { unfold s0. cbn [db users]. now rewrite deactivate_user_ids. }
  destruct (load_known_faces_active s0 sl rl Hnd0 El) as [Hdb Hact].
  destruct rl as [[]|e]; [|discriminate].
  specialize (Hact eq_refl).
  unfold log_event, datetime_now in H. cbn [fst snd db users attendance_records audit_logs
                                              clock_reads face_processor] in H.
  injection H as <- <-.
  assert (Husers : users (db sl)
                   = main.UserOperations.deactivate_user (users (db s)) (main.User_id u)).
  { now rewrite Hdb. }
  assert (Hinactive : forall x, In x (users (db sl)) -> main.User_id x = main.User_id u ->
                                main.User_is_active x = false).
  { intros x Hx Hid. rewrite Husers in Hx.
    exact (deactivate_user_inactive _ _ _ Hx Hid). }
  assert (Hgone : ~ In (main.User_id u) (api_gallery_ids (face_processor sl))).
  { intro Hin. destruct Hact as [_ Hact]. destruct (Hact _ Hin) as (x & Hx & Hid & Ha).
    rewrite (Hinactive x Hx Hid) in Ha. discriminate. }
  split; [reflexivity|]. cbn [db users face_processor].
  assert (Hact1 : gallery_active
                    (mk_State
                       (mk_Store (users (db sl)) (attendance_records (db sl))
                          (audit_logs (db sl)
                             ++ [mk_AuditLog (next_key (map log_id (audit_logs (db sl))))
                                   (now_at (clock_reads (db sl))) "deactivation"
                                   (Some (main.User_id u))
                                   (Some (UserDeactivated (main.User_name u))) None])
                          (S (clock_reads (db sl))))
                       (face_processor sl))).
  { destruct Hact as [Hn Ha]. split; [exact Hn|exact Ha]. }
  split; [|split; [|split; [exact Hact1|split; [exact Hgone|]]]].
  - (* the row is still there, inactive *)
    rewrite Husers.
    assert (Hin : In u (users (db s))).
    { unfold main.UserOperations.get_user_by_employee_id in Eu. now apply find_some in Eu. }
    unfold main.UserOperations.deactivate_user.
    rewrite (get_user_by_id_unique (users (db s)) u Hnd Hin).
    unfold main.UserOperations.get_user_by_employee_id in *.
    clear - Eu. induction (users (db s)) as [|x l IH]; [discriminate|].
    cbn [find map] in *.
    destruct (Z.eqb_spec (main.User_id x) (main.User_id u)) as [Hid|Hid];
      cbn [main.User_employee_id];
      destruct (String.eqb (main.User_employee_id x) employee_id) eqn:Ee.
    + injection Eu as ->. eexists. split; [reflexivity|]. now split.
    + now apply IH.
    + injection Eu as ->. contradiction.
    + now apply IH.
  - (* no longer listed *)
    intros listed s2 Hl. unfold get_users, hbind, get_db, ret in Hl. cbn [db users] in Hl.
    injection Hl as <- _. intro Hin. apply in_map_iff in Hin.
    destruct Hin as (x & Hid & Hx).
    unfold main.UserOperations.get_all_active_users in Hx. apply filter_In in Hx.
    destruct Hx as [Hx Ha]. rewrite (Hinactive x Hx Hid) in Ha. discriminate.
  - (* and never answered for *)
    intros upload resp s2 Hi Hresp.
    destruct (identify_face_names_gallery_member upload _ s2 resp _ Hi Hresp)
      as (_ & _ & Hin).
    now apply Hgone.
Qed.

End Deactivation.

(** ** Registration and the users table *)

Lemma deactivate_user_keeps_employee_id (db_ : main.table) (uid : Z) (employee_id : string) :
  main.UserOperations.get_user_by_employee_id db_ employee_id <> None ->
  main.UserOperations.get_user_by_employee_id
    (main.UserOperations.deactivate_user db_ uid) employee_id <> None.
Proof.
  unfold main.UserOperations.deactivate_user.
  destruct (main.UserOperations.get_user_by_id db_ uid) as [found|]; [|trivial].
  unfold main.UserOperations.get_user_by_employee_id.
  induction db_ as [|x l IH]; [trivial|]. cbn [find map].
  destruct (main.User_id x =? uid)%Z; cbn [main.User_employee_id];
    destruct (String.eqb (main.User_employee_id x) employee_id); try discriminate; exact IH.
Qed.

Section Registration.
Context {P : Type} {api : FaceProcessorAPI P} {laws : FaceProcessorLaws api}.

Import main.

Lemma enrollment_probe_employee_id (req : Request) (s : App P) :
  match UserOperations.get_user_by_employee_id (app_db s) (req_employee_id req) with
  | Some _ => enrollment_probe req s = (Raise (mk_HTTPException 400 EmployeeIdRegistered), s)
  | None =>
      forall e s1, enrollment_probe req s = (Raise e, s1) ->
                   e <> mk_HTTPException 400 EmployeeIdRegistered
  end.
Proof.
  unfold enrollment_probe, mbind, get_db, raise, ret. cbn [fst snd].
  destruct (UserOperations.get_user_by_employee_id (app_db s) (req_employee_id req));
    [reflexivity|].
  intros e s1 H.
  repeat (cbn [fst snd app_db app_fp] in H;
          match type of H with
          | context [match ?x with _ => _ end] =>
              lazymatch x with
              | context [match _ with _ => _ end] => fail
              | _ => destruct x eqn:?
              end
          end).
  all: try discriminate.
  all: injection H as <- _; try discriminate.
  all: unfold call, call_fp in *;
    repeat match goal with
           | E : match ?x with _ => _ end _ = _ |- _ => destruct x
           | E : match ?x with _ => _ end = _ |- _ => destruct x
           | E : (_, _) = (_, _) |- _ => injection E as <- <-
           | E : (_, _) = (_, _) |- _ => discriminate E
           end; try discriminate.
Qed.

(** X18. [register_user] is all or nothing on the users table, when
    loading the gallery does not fail (neither engine's does). A request
    that is refused leaves the table and the identities of the gallery
    as they were. A request that succeeds had an employee id no row
    carried, and added exactly one row at the end of the table: active,
    under a new identifier, the one of the response, with the fields of
    the request and the bytes of the encoding. *)
Theorem register_user_all_or_nothing (req : Request) (s s' : App P)
        (r : result HTTPException Response) :
  (forall p users, exists p', api_load_known_faces p users = Ok p') ->
  register_user req s = (r, s') ->
  match r with
  | Raise _ =>
      app_db s' = app_db s
      /\ api_gallery_ids (app_fp s') = api_gallery_ids (app_fp s)
  | Ok resp =>
      UserOperations.get_user_by_employee_id (app_db s) (req_employee_id req) = None
      /\ ~ In (resp_user_id resp) (map User_id (app_db s))
      /\ exists encoding : list Q,
          app_db s'
          = app_db s ++ [mk_User (resp_user_id resp) (req_employee_id req) (req_name req)
                                 (req_email req) (req_department req)
                                 (Some (api_tobytes encoding)) true]
  end.
Proof.
  intros Hload. unfold register_user. unfold mbind at 1.
  pose proof (enrollment_probe_employee_id req s) as Hid.
  destruct (enrollment_probe req s) as [[[[[image loc] spoof] enc]|e] s1] eqn:E1.
  2:{ intro H. injection H as <- <-. exact (quiet_enrollment_probe req _ _ _ E1). }
  destruct (quiet_enrollment_probe req _ _ _ E1) as [Hdb1 Hg1].
  unfold mbind at 1.
  destruct (duplicate_guard image loc s1) as [[[]|e] s2] eqn:E2.
  2:{ intro H. injection H as <- <-.
      destruct (quiet_duplicate_guard image loc _ _ _ E2) as [Hdb2 Hg2].
      split; congruence. }
  destruct (quiet_duplicate_guard image loc _ _ _ E2) as [Hdb2 Hg2].
  unfold enroll, mbind, ret, load_known_faces.
  cbn [UserOperations.create_user app_db app_fp].
  match goal with
  | |- context [api_load_known_faces ?p ?u] => destruct (Hload p u) as [p' ->]
  end.
  intro H. injection H as <- <-. cbn [resp_user_id app_db].
  split; [|split].
  - destruct (UserOperations.get_user_by_employee_id (app_db s) (req_employee_id req));
      [congruence|reflexivity].
  - rewrite Hdb2, Hdb1. apply next_id_fresh.
  - exists enc. now rewrite Hdb2, Hdb1.
Qed.

(** X19. Deactivation does not free an employee id. A request to
    register an employee id that a row of the table carries, active or
    not, is refused with status 400 before anything else is looked at, and
    [UserOperations.deactivate_user] leaves every employee id of the table
    in place: the id of a deactivated user cannot be registered again. *)
Theorem deactivation_keeps_employee_id_reserved (req : Request) (db_ : table) (fp : P)
        (user_id_ : Z) :
  UserOperations.get_user_by_employee_id db_ (req_employee_id req) <> None ->
  register_user req (mk_App (UserOperations.deactivate_user db_ user_id_) fp)
  = (Raise (mk_HTTPException 400 EmployeeIdRegistered),
     mk_App (UserOperations.deactivate_user db_ user_id_) fp).
Proof.
  intro Hreg.
  apply (deactivate_user_keeps_employee_id db_ user_id_) in Hreg.
  pose proof (enrollment_probe_employee_id req
                (mk_App (UserOperations.deactivate_user db_ user_id_) fp)) as H.
  cbn [app_db] in H.
  destruct (UserOperations.get_user_by_employee_id
              (UserOperations.deactivate_user db_ user_id_) (req_employee_id req));
    [|contradiction].
  unfold register_user, mbind. now rewrite H.
Qed.

End Registration.

(** ** The operations of database.py *)

Lemma latest_snoc_new (l : list database.AttendanceRecord) (r : database.AttendanceRecord) :
  (forall x, In x l -> (database.record_id x < database.record_id r)%Z) ->
  database.latest (l ++ [r]) = Some r.
Proof.
  induction l as [|y l IH]; intro H; [reflexivity|].
  cbn [app database.latest]. rewrite IH by (intros x Hx; apply H; now right).
  destruct (Z.ltb_spec (database.record_id r) (database.record_id y)) as [Hlt|_];
    [|reflexivity].
  specialize (H y (or_introl eq_refl)). lia.
Qed.

(** X20. A punch-in can be looked up and closed. [create_punch_in]
    appends an open record under a new identifier, with the first clock
    reading as punch-in time and the second as date. For the rest of that
    day [get_today_record] returns this record for the user, whatever
    older records the user has; from the next day on it does not. When
    record identifiers are distinct, [create_punch_out] on its identifier
    sets the punch-out time of this record and changes no other. *)
Theorem punch_in_round_trip (now_at : nat -> database.datetime) (d : database.Store)
        (user_id_ : Z) (confidence_score : Q) (passed : bool) :
  let r := fst (database.create_punch_in now_at d user_id_ confidence_score passed) in
  let d1 := snd (database.create_punch_in now_at d user_id_ confidence_score passed) in
  database.attendance_records d1 = database.attendance_records d ++ [r]
  /\ ~ In (database.record_id r) (map database.record_id (database.attendance_records d))
  /\ r = database.mk_AttendanceRecord
           (database.record_id r) user_id_ (now_at (S (database.clock_reads d)))
           (Some (now_at (database.clock_reads d))) None (Some confidence_score) passed None
  /\ ((database.midnight (now_at (database.clock_reads d1)) <= database.record_date r)%Z ->
      fst (database.get_today_record now_at d1 user_id_) = Some r)
  /\ ((database.record_date r < database.midnight (now_at (database.clock_reads d1)))%Z ->
      fst (database.get_today_record now_at d1 user_id_) <> Some r)
  /\ (NoDup (map database.record_id (database.attendance_records d)) ->
      fst (database.create_punch_out now_at d1 (database.record_id r))
      = Some (closed_at (now_at (database.clock_reads d1)) r)
      /\ database.attendance_records
           (snd (database.create_punch_out now_at d1 (database.record_id r)))
         = database.attendance_records d
             ++ [closed_at (now_at (database.clock_reads d1)) r]).
Proof.
  intros r d1. unfold r, d1, database.create_punch_in, database.datetime_now.
  cbn [fst snd database.users database.attendance_records database.audit_logs
         database.clock_reads database.record_id database.record_date].
  set (new := database.mk_AttendanceRecord _ user_id_ _ _ None _ passed None).
  assert (Hfresh : forall x, In x (database.attendance_records d) ->
                             (database.record_id x < database.record_id new)%Z).
  { intros x Hx. unfold new. cbn [database.record_id]. apply next_key_above.
    now apply in_map. }
  split; [reflexivity|]. split; [apply next_key_fresh|]. split; [reflexivity|].
  split; [|split].
  - intro Hday. unfold database.get_today_record, database.datetime_now.
    cbn [fst snd database.users database.attendance_records database.audit_logs
           database.clock_reads].
    rewrite filter_app. cbn [filter].
    replace (database.record_user_id new =? user_id_)%Z with true
      by (symmetry; apply Z.eqb_refl).
    match goal with
    | |- context [(?a <=? database.record_date new)%Z] =>
        replace (a <=? database.record_date new)%Z with true
          by (symmetry; apply Z.leb_le; exact Hday)
    end.
    cbn [andb]. apply latest_snoc_new. intros x Hx. apply filter_In in Hx.
    apply Hfresh, Hx.
  - intros Hday Hsome. unfold database.get_today_record, database.datetime_now in Hsome.
    cbn [fst snd database.users database.attendance_records database.audit_logs
           database.clock_reads] in Hsome.
    apply latest_in in Hsome. apply filter_In in Hsome. destruct Hsome as [_ Hb].
    apply andb_true_iff in Hb. destruct Hb as [_ Hb]. apply Z.leb_le in Hb.
    unfold new in Hb. cbn [database.record_date] in Hb. lia.
  - intro Hnd. unfold database.create_punch_out.
    cbn [database.attendance_records].
    assert (Hfind : find (fun x => (database.record_id x =? database.record_id new)%Z)
                         (database.attendance_records d ++ [new]) = Some new).
    { apply find_by_id; [|apply in_or_app; right; now left].
      rewrite map_app. cbn [map]. apply NoDup_app; [exact Hnd|repeat constructor; intros []|].
      intros i Hi [<- | []]. apply in_map_iff in Hi. destruct Hi as (x & Hid & Hx).
      specialize (Hfresh x Hx). lia. }
    unfold new in Hfind at 1. cbn [database.record_id] in Hfind. rewrite Hfind.
    unfold database.datetime_now.
    cbn [fst snd database.users database.attendance_records database.audit_logs
           database.clock_reads].
    split; [reflexivity|].
    rewrite map_app. cbn [map]. rewrite Z.eqb_refl. f_equal.
    rewrite <- (map_id (database.attendance_records d)) at 2.
    apply map_ext_in. intros x Hx.
    destruct (Z.eqb_spec (database.record_id x) (database.record_id new)) as [E|_];
      [|reflexivity].
    specialize (Hfresh x Hx). lia.
Qed.

Lemma insert_by_date_in (r x : database.AttendanceRecord) (l : list database.AttendanceRecord) :
  In x (database.insert_by_date r l) <-> x = r \/ In x l.
Proof.
  induction l as [|y l IH]; cbn [database.insert_by_date].
  - cbn. intuition.
  - destruct (database.record_date y <? database.record_date r)%Z; cbn [In].
    + intuition.
    + rewrite IH. intuition.
Qed.

Lemma order_by_date_desc_in (x : database.AttendanceRecord)
      (l : list database.AttendanceRecord) :
  In x (database.order_by_date_desc l) <-> In x l.
Proof.
  unfold database.order_by_date_desc.
  induction l as [|y l IH]; cbn [fold_right]; [reflexivity|].
  rewrite insert_by_date_in, IH. cbn [In]. intuition.
Qed.

Lemma insert_by_date_length (r : database.AttendanceRecord)
      (l : list database.AttendanceRecord) :
  length (database.insert_by_date r l) = S (length l).
Proof.
  induction l as [|y l IH]; cbn [database.insert_by_date]; [reflexivity|].
  destruct (database.record_date y <? database.record_date r)%Z; cbn [length]; lia.
Qed.

Lemma order_by_date_desc_length (l : list database.AttendanceRecord) :
  length (database.order_by_date_desc l) = length l.
Proof.
  unfold database.order_by_date_desc.
  induction l as [|y l IH]; cbn [fold_right length]; [reflexivity|].
  now rewrite insert_by_date_length, IH.
Qed.

Lemma insert_by_date_sorted (r : database.AttendanceRecord)
      (l : list database.AttendanceRecord) :
  StronglySorted (fun a b => (database.record_date b <= database.record_date a)%Z) l ->
  StronglySorted (fun a b => (database.record_date b <= database.record_date a)%Z)
                 (database.insert_by_date r l).
Proof.
  induction 1 as [|y l Hl IH Hy]; cbn [database.insert_by_date].
  - repeat constructor.
  - destruct (Z.ltb_spec (database.record_date y) (database.record_date r)) as [Hlt|Hge].
    + constructor; [now constructor|]. constructor; [lia|].
      revert Hy. apply Forall_impl. intros a Ha. lia.
    + constructor; [exact IH|]. apply Forall_forall. intros a Ha.
      apply insert_by_date_in in Ha. destruct Ha as [-> | Ha]; [lia|].
      rewrite Forall_forall in Hy. now apply Hy.
Qed.

Lemma order_by_date_desc_sorted (l : list database.AttendanceRecord) :
  StronglySorted (fun a b => (database.record_date b <= database.record_date a)%Z)
                 (database.order_by_date_desc l).
Proof.
  unfold database.order_by_date_desc.
  induction l as [|y l IH]; cbn [fold_right]; [constructor|].
  now apply insert_by_date_sorted.
Qed.

Lemma in_firstn {A : Type} (n : nat) (l : list A) (a : A) : In a (firstn n l) -> In a l.
Proof.
  revert n. induction l as [|z l IH]; intros [|n]; cbn; try tauto.
  intros [-> | H]; [now left|right; now apply (IH n)].
Qed.

Lemma firstn_sorted {A : Type} (R : A -> A -> Prop) (n : nat) (l : list A) :
  StronglySorted R l -> StronglySorted R (firstn n l).
Proof.
  revert l. induction n as [|n IH]; intros l Hl; [constructor|].
  destruct l as [|x l]; [constructor|]. inversion Hl as [|y l' Hs Hx]; subst.
  cbn [firstn]. constructor; [now apply IH|].
  apply Forall_forall. intros a Ha. rewrite Forall_forall in Hx. apply Hx.
  now apply in_firstn in Ha.
Qed.

(** X21. [get_user_attendance_history] returns records of the user
    only, each of them a row of the table, the most recent date first.
    With a limit that is not negative it returns at most that many, and
    all of the user's records when there are no more than the limit; a
    negative limit, which the query leaves to SQLite, returns them
    all. *)
Theorem attendance_history_is_recent_first (d : database.Store) (user_id_ : Z) (limit_ : Z) :
  let history := database.get_user_attendance_history d user_id_ limit_ in
  let mine := filter (fun r => (database.record_user_id r =? user_id_)%Z)
                     (database.attendance_records d) in
  (forall r, In r history ->
             In r (database.attendance_records d) /\ database.record_user_id r = user_id_)
  /\ StronglySorted (fun a b => (database.record_date b <= database.record_date a)%Z) history
  /\ length history
     = (if (limit_ <? 0)%Z then length mine else Nat.min (Z.to_nat limit_) (length mine))
  /\ ((limit_ < 0)%Z \/ (Z.of_nat (length mine) <= limit_)%Z ->
      forall r, In r mine -> In r history).
Proof.
  intros history mine. unfold history, database.get_user_attendance_history, database.limit.
  fold mine.
  assert (Hmine : forall r, In r (database.order_by_date_desc mine) ->
                            In r (database.attendance_records d)
                            /\ database.record_user_id r = user_id_).
  { intros r Hr. apply (proj1 (order_by_date_desc_in _ _)) in Hr. unfold mine in Hr.
    apply filter_In in Hr. destruct Hr as [Hin Hu]. now apply Z.eqb_eq in Hu. }
  destruct (Z.ltb_spec limit_ 0) as [Hneg|Hpos].
  - split; [exact Hmine|]. split; [apply order_by_date_desc_sorted|].
    split; [apply order_by_date_desc_length|].
    intros _ r Hr. now apply order_by_date_desc_in.
  - split; [|split; [|split]].
    + intros r Hr. apply Hmine. now apply in_firstn in Hr.
    + apply firstn_sorted. apply order_by_date_desc_sorted.
    + now rewrite length_firstn, order_by_date_desc_length.
    + intros [Hneg | Hall] r Hr; [lia|].
      rewrite firstn_all2 by (rewrite order_by_date_desc_length; lia).
      now apply order_by_date_desc_in.
Qed.

(** ** Loading the gallery from the table *)

Lemma loadable_as_dict (dt : dtype) (n : nat) (u : main.User) :
  itemsize dt <> 0%nat ->
  loadable dt n (as_dict u)
  = match main.User_face_encoding u with
    | Some buf => (length buf =? n * itemsize dt)%nat
    | None => false
    end.
Proof.
  intro Hk. pose proof (loadable_iff dt n (as_dict u) Hk) as H.
  unfold as_dict in *. cbn [face_encoding] in H.
  destruct (main.User_face_encoding u) as [buf|].
  - destruct (Nat.eqb_spec (length buf) (n * itemsize dt)) as [E|E].
    + apply H. now exists buf.
    + destruct (loadable dt n _); [|reflexivity].
      destruct (proj1 H eq_refl) as (b & Hb & Hl). injection Hb as <-. contradiction.
  - destruct (loadable dt n _); [|reflexivity].
    destruct (proj1 H eq_refl) as (b & Hb & _). discriminate.
Qed.

Lemma filter_user_data (dt : dtype) (n : nat) (db_ : main.table) :
  itemsize dt <> 0%nat -> (0 < n)%nat ->
  filter (loadable dt n) (main.user_data db_)
  = map as_dict (filter (eligible (n * itemsize dt)) db_).
Proof.
  intros Hk Hn. unfold main.user_data, main.UserOperations.get_all_active_users.
  fold as_dict. induction db_ as [|u db_ IH]; [reflexivity|].
  cbn [filter]. unfold eligible at 1.
  destruct (main.User_is_active u); cbn [andb filter]; [|exact IH].
  destruct (main.User_face_encoding u) as [[|b buf]|] eqn:Ee; cbn [truthy_bytes filter map].
  - replace (length (@nil Byte.byte) =? n * itemsize dt)%nat with false; [exact IH|].
    symmetry. apply Nat.eqb_neq. cbn [length]. nia.
  - rewrite loadable_as_dict, Ee by assumption.
    destruct (length (b :: buf) =? n * itemsize dt)%nat; cbn [map]; now rewrite IH.
  - exact IH.
Qed.

Lemma ids_of_as_dict (db_ : main.table) : ids_of (map as_dict db_) = map main.User_id db_.
Proof. exact (ids_of_map main.User_id main.User_face_encoding db_). Qed.


(** X22. [load_known_faces] of main.py does not fail under either
    engine, leaves the table alone and replaces the gallery by the vectors
    and identifiers of exactly the active users whose stored encoding has
    the byte length of the engine (528 for the OpenCV-only engine, 1024 for
    the dlib engine), in the order of the table. Inactive users, users
    without an encoding and users enrolled under the other engine are not
    in the gallery. *)
Theorem load_known_faces_loads_active_encodings (cv : Backend) :
  (forall s : main.App face_processor_cv.FaceProcessorCV,
      @main.load_known_faces _ (cv_api cv) s
      = (Ok tt,
         main.mk_App (main.app_db s)
           (face_processor_cv.mk_FaceProcessorCV
              (map (fun u => deserialized float32 (as_dict u))
                   (filter (eligible 528) (main.app_db s)))
              (map main.User_id (filter (eligible 528) (main.app_db s))))))
  /\ (forall s : main.App (face_processor.FaceProcessor * face_processor.SpoofDetector),
         @main.load_known_faces _ (dlib_api cv) s
         = (Ok tt,
            main.mk_App (main.app_db s)
              (face_processor.mk_FaceProcessor
                 (map (fun u => deserialized float64 (as_dict u))
                      (filter (eligible 1024) (main.app_db s)))
                 (map main.User_id (filter (eligible 1024) (main.app_db s))),
               snd (main.app_fp s)))).
Proof.
  split; intro s; unfold main.load_known_faces; cbn [api_load_known_faces cv_api dlib_api].
  - rewrite cv_load_known_faces.
    rewrite (filter_user_data float32 132) by (cbn; lia).
    now rewrite map_map, ids_of_as_dict.
  - rewrite dlib_load_known_faces. cbn [bind].
    rewrite (filter_user_data float64 128) by (cbn; lia).
    now rewrite map_map, ids_of_as_dict.
Qed.



(** ** The endpoints on a test double *)

Lemma every_ten_seconds_monotone : monotone_clock every_ten_seconds.
Proof. intro n. unfold every_ten_seconds. lia. Qed.

Lemma office_punch_in :
  @api.identify_face (list Z) double_api every_ten_seconds
    (Some (Reference.flat 80 80 128)) office
  = (Ok welcome_ann, office_after_punch_in).
Proof. reflexivity. Qed.

Lemma office_cooldown :
  @api.identify_face (list Z) double_api every_ten_seconds
    (Some (Reference.flat 80 80 128)) office_after_punch_in
  = (Ok (api.failure (api.PleaseWait 1) (Some "Ann"%string)),
     snd (@api.identify_face (list Z) double_api every_ten_seconds
            (Some (Reference.flat 80 80 128)) office_after_punch_in)).
Proof. reflexivity. Qed.

Lemma office_attendance_wf : attendance_wf every_ten_seconds (api.db office).
Proof.
  unfold attendance_wf. cbn. split; [constructor|]. repeat split; intros; contradiction.
Qed.

Lemma office_gallery_active : @gallery_active (list Z) double_api office.
Proof.
  split; [cbn; repeat constructor; intros []|].
  intros uid [<- | []]. exists ann. cbn. auto.
Qed.

Lemma identify_face_failure_writes_no_attendance_witness :
  database.attendance_records
    (api.db (snd (@api.identify_face (list Z) double_api every_ten_seconds
                    (Some (Reference.flat 80 80 128)) office_after_punch_in)))
  = database.attendance_records (api.db office_after_punch_in).
Proof.
  exact (proj2 (proj2 (@identify_face_failure_writes_no_attendance
                         (list Z) double_api every_ten_seconds
                         (Some (Reference.flat 80 80 128)) office_after_punch_in _ _
                         office_cooldown)) eq_refl).
Defined.

Lemma identify_face_success_punches_once_witness :
  punched_once office office_after_punch_in welcome_ann.
Proof.
  exact (@identify_face_success_punches_once (list Z) double_api every_ten_seconds
           (Some (Reference.flat 80 80 128)) office office_after_punch_in welcome_ann
           (NoDup_nil Z) office_punch_in eq_refl).
Defined.

Lemma identify_face_keeps_attendance_wf_witness :
  attendance_wf every_ten_seconds (api.db office_after_punch_in).
Proof.
  exact (proj1 (@identify_face_keeps_attendance_wf every_ten_seconds
                  every_ten_seconds_monotone (list Z) double_api
                  (Some (Reference.flat 80 80 128)) office office_after_punch_in _
                  office_attendance_wf office_punch_in)).
Defined.

Lemma identify_face_answers_for_active_users_witness :
  @gallery_active (list Z) double_api office_after_punch_in
  /\ exists u : main.User,
      main.UserOperations.get_user_by_id
        (database.users (api.db office_after_punch_in)) 1 = Some u
      /\ main.User_is_active u = true
      /\ In 1%Z (@api_gallery_ids (list Z) double_api
                   (api.face_processor office_after_punch_in)).
Proof.
  exact (@identify_face_answers_for_active_users (list Z) double_api double_api_laws
           every_ten_seconds (Some (Reference.flat 80 80 128)) office office_after_punch_in
           welcome_ann 1%Z office_gallery_active office_punch_in eq_refl).
Defined.

Lemma office_deactivation :
  @api.deactivate_user (list Z) double_api every_ten_seconds "E1" office
  = (Ok "Ann"%string,
     snd (@api.deactivate_user (list Z) double_api every_ten_seconds "E1" office)).
Proof. reflexivity. Qed.

Lemma deactivated_user_cannot_punch_witness :
  @gallery_active (list Z) double_api
    (snd (@api.deactivate_user (list Z) double_api every_ten_seconds "E1" office))
  /\ ~ In 1%Z (@api_gallery_ids (list Z) double_api
                 (api.face_processor
                    (snd (@api.deactivate_user (list Z) double_api every_ten_seconds
                            "E1" office)))).
Proof.
  destruct (@deactivated_user_cannot_punch (list Z) double_api double_api_laws
              every_ten_seconds "E1" office _ "Ann"
              ltac:(cbn; repeat constructor; intros []) office_deactivation)
    as (u & Hu & _ & _ & _ & Hactive & Hgone & _).
  injection Hu as <-. split; [exact Hactive|exact Hgone].
Defined.

Lemma double_api_load_total :
  forall (p : list Z) (users : list user_dict),
  exists p', @api_load_known_faces (list Z) double_api p users = Ok p'.
Proof. intros p users. eexists. reflexivity. Qed.

Lemma register_user_all_or_nothing_witness :
  main.UserOperations.get_user_by_employee_id (main.app_db unloaded) "E2" = None
  /\ ~ In 2%Z (map main.User_id (main.app_db unloaded))
  /\ exists encoding : list Q,
      main.app_db (snd (@main.register_user (list Z) double_api newcomer unloaded))
      = main.app_db unloaded
          ++ [main.mk_User 2 "E2" "Bob" None None
                (Some (@api_tobytes (list Z) double_api encoding)) true].
Proof.
  exact (@register_user_all_or_nothing (list Z) double_api double_api_laws newcomer unloaded
           (snd (@main.register_user (list Z) double_api newcomer unloaded))
           (Ok (main.mk_Response 2 1)) double_api_load_total eq_refl).
Defined.

Lemma deactivation_keeps_employee_id_reserved_witness :
  @main.register_user (list Z) double_api
    (main.mk_Request "E1" "Ann again" None None (Some (Reference.flat 80 80 128)))
    (main.mk_App (main.UserOperations.deactivate_user [ann] 1) [])
  = (Raise (main.mk_HTTPException 400 main.EmployeeIdRegistered),
     main.mk_App (main.UserOperations.deactivate_user [ann] 1) []).
Proof.
  exact (@deactivation_keeps_employee_id_reserved (list Z) double_api
           (main.mk_Request "E1" "Ann again" None None (Some (Reference.flat 80 80 128)))
           [ann] [] 1%Z ltac:(discriminate)).
Defined.


